(** * alfred-talk: the transcript pipeline of [src/index.ts]

    A shallow embedding of the transcript mailbox, its ledger of processed
    entries, the normaliser, the three sinks and the query helpers, with the
    properties of the specification stated over it.

    Conventions of the model:
    - a JavaScript string is a [string] of ASCII text (bytes above 127 are
      carried along untouched and are neither blanks nor letters);
    - a JSON number is an integer [Z], printed in decimal;
    - a value read by [JSON.parse] is a [json]; a missing property is [None]
      (JavaScript's [undefined]); the built-in functions a plain object
      inherits are values too, since a lookup in the contacts can hand one out;
    - a [throw] is the [Throw] result, carrying the message of the error;
    - effects (ledger file, inbox directory, host tools, logger) are threaded
      through a [world], and everything the program does to the outside is
      appended to its [trace]; the ledger file, when it is there, can be read
      and appended to;
    - the mailbox is read-only data: for every directory the names in the
      order [readdirSync] returns them, for every file what
      [JSON.parse(readFileSync(...))] yields. *)

From Stdlib Require Import ZArith Ascii DecimalString.
From stdpp Require Import gmap strings list sorting.

Local Open Scope Z_scope.

(** ** Strings, as the JavaScript string methods treat them *)

Module Str.

Definition is_space (c : ascii) : bool :=
  match c with
  | "009" | "010" | "011" | "012" | "013" | " " => true
  | _ => false
  end%char.

Definition is_digit (c : ascii) : bool :=
  let n := nat_of_ascii c in (48 <=? n)%nat && (n <=? 57)%nat.

Definition is_lower (c : ascii) : bool :=
  let n := nat_of_ascii c in (97 <=? n)%nat && (n <=? 122)%nat.

Definition is_upper (c : ascii) : bool :=
  let n := nat_of_ascii c in (65 <=? n)%nat && (n <=? 90)%nat.

Definition lower_char (c : ascii) : ascii :=
  if is_upper c then ascii_of_nat (nat_of_ascii c + 32) else c.

Fixpoint map (f : ascii → ascii) (s : string) : string :=
  match s with
  | "" => ""
  | String c r => String (f c) (map f r)
  end.

(** [s.toLowerCase()] *)
Definition toLowerCase : string → string := map lower_char.

Definition is_empty (s : string) : bool :=
  match s with "" => true | _ => false end.

(** [s.trim()], in two passes *)
Fixpoint trimStart (s : string) : string :=
  match s with
  | String c r => if is_space c then trimStart r else s
  | "" => ""
  end.

Fixpoint trimEnd (s : string) : string :=
  match s with
  | String c r =>
      let r' := trimEnd r in
      if is_space c && is_empty r' then "" else String c r'
  | "" => ""
  end.

Definition trim (s : string) : string := trimEnd (trimStart s).

(** [s.startsWith(p)], [s.endsWith(p)], [s.includes(p)] *)
Definition startsWith (p s : string) : bool := String.prefix p s.

Fixpoint includes (p s : string) : bool :=
  String.prefix p s ||
  match s with
  | String _ r => includes p r
  | "" => false
  end.

Fixpoint endsWith (p s : string) : bool :=
  String.eqb p s ||
  match s with
  | String _ r => endsWith p r
  | "" => false
  end.

(** [s.split(sep)] for a separator of one character: the pieces between
    the separators, of which there is always at least one. *)
Fixpoint split (sep : ascii) (s : string) : list string :=
  match s with
  | "" => [""]
  | String c r =>
      if Ascii.eqb c sep then "" :: split sep r
      else
        match split sep r with
        | piece :: pieces => String c piece :: pieces
        | [] => [String c ""]
        end
  end.

(** [ls.join(sep)] *)
Definition join (sep : string) (ls : list string) : string := String.concat sep ls.

(** What [replace] puts in the place of a match when the pattern is a
    string: the replacement, in which ["$$"] stands for a dollar sign, ["$&"]
    for the match, ["$`"] for the text before it and ["$'"] for the text
    after it; a dollar sign followed by anything else stands for itself. *)
Fixpoint substitute (matched before after by_ : string) : string :=
  match by_ with
  | "" => ""
  | String c r =>
      if Ascii.eqb c "$" then
        match r with
        | String d r' =>
            if Ascii.eqb d "$" then String "$" (substitute matched before after r')
            else if Ascii.eqb d "&" then matched +:+ substitute matched before after r'
            else if Ascii.eqb d "`" then before +:+ substitute matched before after r'
            else if Ascii.eqb d "'" then after +:+ substitute matched before after r'
            else String c (substitute matched before after r)
        | "" => String c ""
        end
      else String c (substitute matched before after r)
  end.

(** [s.replace(c, by)] for a pattern of one character: the first
    occurrence only; [before] is what of the string has been passed. *)
Fixpoint replace_from (before : string) (c : ascii) (by_ : string) (s : string) : string :=
  match s with
  | "" => ""
  | String d r =>
      if Ascii.eqb d c then substitute (String c "") before r by_ +:+ r
      else String d (replace_from (before +:+ String d "") c by_ r)
  end.

Definition replace_first (c : ascii) (by_ : string) (s : string) : string :=
  replace_from "" c by_ s.

(** [String(n)] for an integer *)
Definition of_Z (n : Z) : string := NilZero.string_of_int (Z.to_int n).

(** [s.padStart(2, "0")] *)
Definition padStart2 (s : string) : string :=
  match s with
  | "" => "00"
  | String c "" => String "0" (String c "")
  | _ => s
  end.

(** [s.replace(/<[^>]+>/g, "")]. A match starts at a ["<"], runs over one
    or more characters other than [">"] and ends with the first [">"];
    [gt_index r] is where that [">"] sits in the rest [r] of the string.
    The scan drops every match and resumes after it; where no match starts,
    the character is kept and the scan moves on by one. *)
Fixpoint gt_index (s : string) : option nat :=
  match s with
  | "" => None
  | String c r => if Ascii.eqb c ">" then Some O else S <$> gt_index r
  end.

Fixpoint strip_go (skip : nat) (s : string) : string :=
  match s with
  | "" => ""
  | String c r =>
      match skip with
      | S k => strip_go k r
      | O =>
          if Ascii.eqb c "<" then
            match gt_index r with
            | Some (S k) => strip_go (S (S k)) r
            | _ => String c (strip_go 0 r)
            end
          else String c (strip_go 0 r)
      end
  end.

Definition strip_tags (s : string) : string := strip_go 0 s.

(** [s.replace(/[^a-z0-9]/g, "-")] *)
Definition dash_char (c : ascii) : ascii :=
  if is_lower c || is_digit c then c else "-"%char.

Definition dashes : string → string := map dash_char.

(** [fileName.match(/^(\d{2})-(\d{2})-(\d{2})_/)]: the first two groups. *)
Definition time_prefix (s : string) : option (string * string) :=
  match s with
  | String h1 (String h2 (String "-" (String m1 (String m2 (String "-"
      (String s1 (String s2 (String "_" _)))))))) =>
      if is_digit h1 && is_digit h2 && is_digit m1 && is_digit m2
         && is_digit s1 && is_digit s2
      then Some (String h1 (String h2 ""), String m1 (String m2 ""))
      else None
  | _ => None
  end.

End Str.

(** The line break, the double quote and the backtick, as strings. *)
Definition nl : string := String "010" "".
Definition dq : string := String (ascii_of_nat 34) "".
Definition bt : string := "`".

(** ** JSON values and the dynamic operations applied to them *)

(** The values of JSON, and the one kind of value besides that the program
    can come to hold: a built-in function, known by its name. *)
#[warnings="-register-all"]
Inductive json : Type :=
| JNull
| JBool (b : bool)
| JNum (n : Z)
| JStr (s : string)
| JArr (items : list json)
| JObj (fields : list (string * json))
| JFun (name : string).

(** The outcome of a computation that may throw. *)
Inductive res (A : Type) : Type :=
| Ok (a : A)
| Throw (message : string).
Arguments Ok {A} a.
Arguments Throw {A} message.

Module Js.

Fixpoint assoc (k : string) (fs : list (string * json)) : option json :=
  match fs with
  | [] => None
  | (k', v) :: fs => if String.eqb k k' then Some v else assoc k fs
  end.

(** [v.k] on a value that is neither [null] nor [undefined]: only objects
    own the properties the program asks for. *)
Definition get (k : string) (v : json) : option json :=
  match v with
  | JObj fs => assoc k fs
  | _ => None
  end.

(** [o?.k] *)
Definition opt_get (k : string) (o : option json) : option json :=
  match o with
  | None | Some JNull => None
  | Some v => get k v
  end.

(** [t.k], which throws on [null] *)
Definition get_strict (k : string) (v : json) : res (option json) :=
  match v with
  | JNull => Throw ("Cannot read properties of null (reading '" +:+ k +:+ "')")
  | _ => Ok (get k v)
  end.

(** [o ?? d] *)
Definition coalesce (o : option json) (d : json) : json :=
  match o with
  | None | Some JNull => d
  | Some v => v
  end.

(** Truthiness, as [||], [?:] and [if] test it. *)
Definition truthy (v : json) : bool :=
  match v with
  | JNull => false
  | JBool b => b
  | JNum n => negb (n =? 0)
  | JStr s => negb (Str.is_empty s)
  | JArr _ | JObj _ | JFun _ => true
  end.

(** [String(v)], as a template literal and a property key convert. *)
Fixpoint to_string (v : json) : string :=
  match v with
  | JNull => "null"
  | JBool true => "true"
  | JBool false => "false"
  | JNum n => Str.of_Z n
  | JStr s => s
  | JArr l =>
      Str.join ","
        (List.map (λ x, match x with JNull => "" | _ => to_string x end) l)
  | JObj _ => "[object Object]"
  | JFun name => "function " +:+ name +:+ "() { [native code] }"
  end.

(** [for (const t of v)]: arrays and strings are iterable, the rest of
    JSON is not. *)
Fixpoint chars (s : string) : list json :=
  match s with
  | "" => []
  | String c r => JStr (String c "") :: chars r
  end.

Definition iterate (v : json) : res (list json) :=
  match v with
  | JArr l => Ok l
  | JStr s => Ok (chars s)
  | _ => Throw "transcript is not iterable"
  end.

(** What a plain object inherits from [Object.prototype]: the constructor
    [Object], the built-in methods, and under ["__proto__"] the prototype
    itself, an object without a property that counts. *)
Definition methods : list string :=
  ["__defineGetter__"; "__defineSetter__"; "hasOwnProperty"; "__lookupGetter__";
   "__lookupSetter__"; "isPrototypeOf"; "propertyIsEnumerable"; "toString";
   "valueOf"; "toLocaleString"].

Definition inherited (key : string) : option json :=
  if String.eqb key "constructor" then Some (JFun "Object")
  else if String.eqb key "__proto__" then Some (JObj [])
  else if bool_decide (key ∈ methods) then Some (JFun key)
  else None.

(** [o[key]] on a plain object holding strings: its own property, or else
    what it inherits. *)
Definition member (o : gmap string string) (key : string) : option json :=
  match o !! key with
  | Some s => Some (JStr s)
  | None => inherited key
  end.

End Js.

(** ** Helpers of [src/index.ts] *)

(** [resolveCallerName(phone, contacts)]:
    [contacts[phone] || phone || "Unknown caller"]. The directory is a plain
    object holding strings under the keys it was configured with; the phone
    is whatever the payload carried, and is turned into a string to serve as
    key. *)
Definition resolveCallerName (phone : json) (contacts : gmap string string) : json :=
  match Js.member contacts (Js.to_string phone) with
  | Some name =>
      if Js.truthy name then name
      else if Js.truthy phone then phone else JStr "Unknown caller"
  | None => if Js.truthy phone then phone else JStr "Unknown caller"
  end.

(** [path.join(a, b)] for a directory [a] in normal form (no trailing
    separator) and a plain name [b]. *)
Definition join (a b : string) : string := a +:+ "/" +:+ b.

(** ** The ledger of processed entries *)

Definition PROCESSED_FILE_NAME : string := ".processed".

(** [loadProcessed]: the file is absent ([None]) or holds one path a line. *)
Definition loadProcessed (ledger : option string) : gset string :=
  match ledger with
  | None => ∅
  | Some content =>
      list_to_set (filter (λ s, s ≠ "") (Str.split "010" (Str.trim content)))
  end.

(** [appendFileSync(file, line)] creates the file when it is missing. *)
Definition appendFile (file : option string) (line : string) : option string :=
  Some (default "" file +:+ line).

(** ** The outside world *)

Inductive level : Type := Info | Warn.

(** What the program does to the outside. The three sinks and the ledger
    append record the mailbox entry being processed ([entry], a ghost field:
    the program itself does not pass it on). *)
Inductive event : Type :=
| Chat (entry message : string)
| Spawn (entry task model : string)
| Mkdir (entry dir : string)
| WriteFile (entry path content : string)
| Mark (entry : string)
| Log (lv : level) (message : string).

Record world : Type := World {
  ledger : option string;        (* [.processed] of the transcript directory *)
  dirs : gset string;            (* directories that exist on the inbox side *)
  files : gmap string string;    (* files written on the inbox side *)
  trace : list event;            (* everything done so far, oldest first *)
  calls : nat                    (* outside calls made so far *)
}.

(** The host: whether [api.runtime?.tools?.invoke] is there, and which of
    the outside calls (tool invocations, [mkdirSync], [writeFileSync]) throw,
    by their rank among all outside calls. *)
Record host : Type := Host {
  has_invoke : bool;
  failure : nat → option string
}.

(** The plugin configuration, as far as the pipeline reads it. *)
Record config : Type := Config {
  contacts : gmap string string;
  inboxDir : option string;
  summaryModel : option string
}.

(** A computation on the world that may throw. *)
Definition M (A : Type) : Type := world → res A * world.

Definition ret {A} (a : A) : M A := λ w, (Ok a, w).

Definition bind {A B} (m : M A) (k : A → M B) : M B := λ w,
  match m w with
  | (Ok a, w') => k a w'
  | (Throw e, w') => (Throw e, w')
  end.

(** The same for code that throws but touches nothing. *)
Definition bind_res {A B} (r : res A) (k : A → res B) : res B :=
  match r with
  | Ok a => k a
  | Throw e => Throw e
  end.

Notation "'let*' x ':=' m 'in' k" := (bind m (λ x, k))
  (at level 10, x name, m at level 100, k at level 200).
Notation "'let?' x ':=' r 'in' k" := (bind_res r (λ x, k))
  (at level 10, x name, r at level 100, k at level 200).

Definition lift {A} (r : res A) : M A := λ w, (r, w).

(** [try { m } catch (err) { h(err.message) }] *)
Definition try_catch (m : M unit) (h : string → M unit) : M unit := λ w,
  match m w with
  | (Ok a, w') => (Ok a, w')
  | (Throw e, w') => h e w'
  end.

Definition emit (e : event) : M unit := λ w,
  (Ok tt, World (ledger w) (dirs w) (files w) (trace w ++ [e]) (calls w)).

Definition log (lv : level) (message : string) : M unit := emit (Log lv message).

(** An outside call: it is recorded, counted, and throws when the host says
    so. *)
Definition outside (api : host) (e : event) : M unit := λ w,
  let w' := World (ledger w) (dirs w) (files w) (trace w ++ [e]) (S (calls w)) in
  match failure api (calls w) with
  | Some message => (Throw message, w')
  | None => (Ok tt, w')
  end.

(** [markProcessed(transcriptDir, path)]: the world has the one ledger, that
    of the transcript directory; appending to it does not fail. *)
Definition markProcessed (path : string) : M unit := λ w,
  (Ok tt, World (appendFile (ledger w) (path +:+ nl))
                (dirs w) (files w) (trace w ++ [Mark path]) (calls w)).

Definition existsSync (dir : string) : M bool := λ w,
  (Ok (bool_decide (dir ∈ dirs w)), w).

Definition mkdirSync (api : host) (entry dir : string) : M unit :=
  let* _ := outside api (Mkdir entry dir) in
  λ w, (Ok tt, World (ledger w) ({[dir]} ∪ dirs w) (files w) (trace w) (calls w)).

Definition writeFileSync (api : host) (entry path content : string) : M unit :=
  let* _ := outside api (WriteFile entry path content) in
  λ w, (Ok tt, World (ledger w) (dirs w) (<[path:=content]> (files w)) (trace w)
                (calls w)).

(** ** The mailbox on disk *)

(** What [JSON.parse(readFileSync(path))] yields for a file: the parsed
    value, or the error thrown (unreadable file, text that is not JSON). *)
Definition raw : Type := res json.

(** What [readdirSync(datePath)] yields for an entry of the transcript
    directory: the files in the order the file system lists them, or the
    error thrown (the entry is not a directory). *)
Definition bucket : Type := res (list (string * raw)).

(** The transcript directory: absent ([None]), or what [readdirSync] yields
    for it. *)
Definition mailbox : Type := option (res (list (string * bucket))).

Fixpoint lookup_name {A} (name : string) (l : list (string * A)) : option A :=
  match l with
  | [] => None
  | (n, a) :: l => if String.eqb name n then Some a else lookup_name name l
  end.

Definition readdir (l : list (string * bucket)) (name : string) : bucket :=
  default (Throw "ENOENT: no such file or directory") (lookup_name name l).

(** [readdirSync(transcriptDir).sort().reverse()] *)
Definition dateDirs (l : list (string * bucket)) : list string :=
  reverse (merge_sort String.le (l.*1)).

Section Pipeline.

(** The parameters of the run-time: the home directory, and how the engine
    reads a string as a number ([None] for [NaN]). *)
Context (homedir : string) (StringToNumber : string → option Z).

Definition to_number (v : json) : option Z :=
  match v with
  | JNum n => Some n
  | JBool b => Some (if b then 1 else 0)
  | JNull => Some 0
  | JStr _ | JArr _ | JObj _ | JFun _ => StringToNumber (Js.to_string v)
  end.

(** *** The normaliser *)

(** [data?.data?.user_id ?? data?.user_id ?? ""] *)
Definition userPhone (data : json) : json :=
  Js.coalesce (Js.opt_get "user_id" (Js.opt_get "data" (Some data)))
    (Js.coalesce (Js.opt_get "user_id" (Some data)) (JStr "")).

(** [data?.data?.metadata?.call_duration_secs ?? 0] *)
Definition callDuration (data : json) : json :=
  Js.coalesce
    (Js.opt_get "call_duration_secs"
       (Js.opt_get "metadata" (Js.opt_get "data" (Some data))))
    (JNum 0).

(** [data?.data?.conversation_id ?? data?.conversation_id ?? "unknown"] *)
Definition conversationId (data : json) : json :=
  Js.coalesce (Js.opt_get "conversation_id" (Js.opt_get "data" (Some data)))
    (Js.coalesce (Js.opt_get "conversation_id" (Some data)) (JStr "unknown")).

(** [data?.data?.transcript ?? data?.transcript ?? []] *)
Definition transcript (data : json) : json :=
  Js.coalesce (Js.opt_get "transcript" (Js.opt_get "data" (Some data)))
    (Js.coalesce (Js.opt_get "transcript" (Some data)) (JArr [])).

(** The role of a turn after
    [if (role === "agent") role = "Alfred"; else if (role === "user") role = callerName]. *)
Definition speaker (callerName role : json) : json :=
  match role with
  | JStr r =>
      if String.eqb r "agent" then JStr "Alfred"
      else if String.eqb r "user" then callerName
      else role
  | _ => role
  end.

(** The receiver of [.replace] and [.trim] has to be a string. *)
Definition as_text (method : string) (m : json) : res string :=
  match m with
  | JStr s => Ok s
  | _ => Throw ("(t.message ?? ...)." +:+ method +:+ " is not a function")
  end.

(** One round of the loop over the turns: the line it pushes, if any. *)
Definition line_of (callerName t : json) : res (option string) :=
  let? r := Js.get_strict "role" t in
  let role := speaker callerName (Js.coalesce r (JStr "?")) in
  let? m := Js.get_strict "message" t in
  let? text := as_text "replace" (Js.coalesce m (JStr "")) in
  let msg := Str.trim (Str.strip_tags text) in
  if negb (Str.is_empty msg) && negb (String.eqb (Str.toLowerCase msg) "none")
  then Ok (Some (Js.to_string role +:+ ": " +:+ msg))
  else Ok None.

Fixpoint lines_of (callerName : json) (turns : list json) : res (list string) :=
  match turns with
  | [] => Ok []
  | t :: turns =>
      let? l := line_of callerName t in
      let? ls := lines_of callerName turns in
      Ok (option_list l ++ ls)
  end.

(** The dialogue of a payload: [lines] as the loop leaves it. *)
Definition dialogue (callerName data : json) : res (list string) :=
  let? turns := Js.iterate (transcript data) in
  lines_of callerName turns.

(** [callDuration ? `${Math.floor(callDuration / 60)}m${callDuration % 60}s`
                 : "unknown duration"] *)
Definition durationStr (callDuration : json) : string :=
  if Js.truthy callDuration then
    match to_number callDuration with
    | Some n => Str.of_Z (n / 60) +:+ "m" +:+ Str.of_Z (Z.rem n 60) +:+ "s"
    | None => "NaNmNaNs"
    end
  else "unknown duration".

(** [filePath.split("/").pop() ?? ""] *)
Definition fileName (filePath : string) : string :=
  default "" (last (Str.split "/" filePath)).

(** [timeMatch ? `${timeMatch[1]}:${timeMatch[2]}` : "unknown"] *)
Definition timeStr (filePath : string) : string :=
  match Str.time_prefix (fileName filePath) with
  | Some (hh, mm) => hh +:+ ":" +:+ mm
  | None => "unknown"
  end.

(** [filePath.split("/").slice(-2, -1)[0] ?? "unknown"] *)
Definition dateStr (filePath : string) : string :=
  match reverse (Str.split "/" filePath) with
  | _ :: d :: _ => d
  | _ => "unknown"
  end.

(** *** The three sinks *)

(** 1. The chat notifier: [tools.invoke("message", {action: "send", message})]. *)
Definition chatMessage (callerName conversationId : json)
    (timeStr durationStr transcriptText : string) : string :=
  "📞 *Voice call with " +:+ Js.to_string callerName +:+ "* (" +:+ timeStr +:+ ", "
    +:+ durationStr +:+ ")" +:+ nl
  +:+ "Conversation: " +:+ bt +:+ Js.to_string conversationId +:+ bt +:+ nl +:+ nl
  +:+ bt +:+ bt +:+ bt +:+ transcriptText +:+ bt +:+ bt +:+ bt.

Definition notify (api : host) (entry message : string) : M unit :=
  try_catch
    (if has_invoke api then outside api (Chat entry message) else ret tt)
    (λ e, log Warn ("[alfred-talk] Notification failed: " +:+ e)).

(** 2. The summariser: [tools.invoke("sessions_spawn", {task, model, ...})]. *)
Definition summaryTask (callerName : json) (durationStr transcriptText : string) : string :=
  "Summarize this phone call in 2-3 sentences. "
  +:+ "The call was between Alfred (voice agent) and " +:+ Js.to_string callerName
  +:+ " (" +:+ durationStr +:+ "). "
  +:+ "Cover: what was discussed, any action items or decisions. "
  +:+ "Reply with ONLY the summary — no preamble." +:+ nl +:+ nl
  +:+ "Transcript:" +:+ nl +:+ transcriptText.

Definition summarize (api : host) (cfg : config) (entry task : string) : M unit :=
  try_catch
    (if has_invoke api then
       outside api
         (Spawn entry task (default "anthropic/claude-haiku-4-5" (summaryModel cfg)))
     else ret tt)
    (λ e, log Warn ("[alfred-talk] Summary failed: " +:+ e)).

(** 3. The inbox writer. *)

(** [callerName.toLowerCase().replace(/[^a-z0-9]/g, "-")]: the method is
    there on strings only. *)
Definition callerSlug (callerName : json) : res string :=
  match callerName with
  | JStr s => Ok (Str.dashes (Str.toLowerCase s))
  | _ => Throw "callerName.toLowerCase is not a function"
  end.

(** [`voice-${dateStr}-${timeSlug}-${callerSlug}.md`], with
    [timeSlug = timeStr.replace(":", "")] *)
Definition inboxFilename (dateStr timeStr callerSlug : string) : string :=
  "voice-" +:+ dateStr +:+ "-" +:+ Str.replace_first ":" "" timeStr +:+ "-"
    +:+ callerSlug +:+ ".md".

Definition frontmatter (callerName userPhone conversationId : json)
    (dateStr timeStr durationStr : string) : string :=
  "---" +:+ nl +:+ "type: voice-transcript" +:+ nl +:+ "date: " +:+ dateStr +:+ nl
  +:+ "time: " +:+ dq +:+ timeStr +:+ dq +:+ nl
  +:+ "caller: " +:+ dq +:+ Js.to_string callerName +:+ dq +:+ nl
  +:+ "phone: " +:+ dq +:+ Js.to_string userPhone +:+ dq +:+ nl
  +:+ "duration: " +:+ dq +:+ durationStr +:+ dq +:+ nl
  +:+ "conversation_id: " +:+ dq +:+ Js.to_string conversationId +:+ dq +:+ nl
  +:+ "---" +:+ nl.

Definition body (callerName userPhone : json)
    (dateStr timeStr durationStr transcriptText : string) : string :=
  nl +:+ "# Voice Call — " +:+ Js.to_string callerName +:+ " (" +:+ dateStr +:+ " "
    +:+ timeStr +:+ ")" +:+ nl +:+ nl
  +:+ "Duration: " +:+ durationStr +:+ " | Caller: " +:+ Js.to_string callerName
    +:+ " (" +:+ Js.to_string userPhone +:+ ")" +:+ nl +:+ nl
  +:+ transcriptText +:+ nl.

(** The guarded part:
    [if (!existsSync(resolvedInbox)) mkdirSync(resolvedInbox, ...);
     writeFileSync(inboxPath, ...); logger.info(...)]. *)
Definition writeInbox (api : host) (entry resolvedInbox inboxFilename content : string)
    : M unit :=
  try_catch
    (let* there := existsSync resolvedInbox in
     let* _ := if there then ret tt else mkdirSync api entry resolvedInbox in
     let* _ := writeFileSync api entry (join resolvedInbox inboxFilename) content in
     log Info ("[alfred-talk] Wrote to vault inbox: " +:+ inboxFilename))
    (λ e, log Warn ("[alfred-talk] Inbox write failed: " +:+ e)).

(** [if (inboxDir) { ... }]: the file name is worked out before the guarded
    part is entered. *)
Definition inbox (api : host) (cfg : config) (filePath : string)
    (callerName userPhone conversationId : json)
    (dateStr timeStr durationStr transcriptText : string) : M unit :=
  match inboxDir cfg with
  | Some inboxDir =>
      if Str.is_empty inboxDir then ret tt
      else
        let resolvedInbox := Str.replace_first "~" homedir inboxDir in
        let* slug := lift (callerSlug callerName) in
        writeInbox api filePath resolvedInbox (inboxFilename dateStr timeStr slug)
          (frontmatter callerName userPhone conversationId dateStr timeStr durationStr
           +:+ body callerName userPhone dateStr timeStr durationStr transcriptText)
  | None => ret tt
  end.

(** *** [processTranscript] *)

Definition processTranscript (api : host) (cfg : config) (filePath : string)
    (content : raw) : M unit :=
  let* data := lift content in
  let userPhone := userPhone data in
  let callerName := resolveCallerName userPhone (contacts cfg) in
  let callDuration := callDuration data in
  let conversationId := conversationId data in
  let* lines := lift (dialogue callerName data) in
  match lines with
  | [] => markProcessed filePath
  | _ =>
      let transcriptText := Str.join nl lines in
      let durationStr := durationStr callDuration in
      let timeStr := timeStr filePath in
      let dateStr := dateStr filePath in
      let* _ := notify api filePath
                  (chatMessage callerName conversationId timeStr durationStr
                     transcriptText) in
      let* _ := summarize api cfg filePath
                  (summaryTask callerName durationStr transcriptText) in
      let* _ := inbox api cfg filePath callerName userPhone conversationId
                  dateStr timeStr durationStr transcriptText in
      let* _ := markProcessed filePath in
      log Info ("[alfred-talk] Processed: " +:+ Js.to_string conversationId +:+ " ("
                +:+ Js.to_string callerName +:+ ", " +:+ durationStr +:+ ")")
  end.

(** *** [scanAndProcessTranscripts] *)

Fixpoint for_each {A} (step : A → M unit) (l : list A) : M unit :=
  match l with
  | [] => ret tt
  | x :: l => let* _ := step x in for_each step l
  end.

(** The body of the loop over the files of a bucket. *)
Definition scan_file (api : host) (cfg : config) (processed : gset string)
    (datePath : string) (f : string * raw) : M unit :=
  let filePath := join datePath f.1 in
  if bool_decide (filePath ∈ processed) then ret tt
  else
    try_catch (processTranscript api cfg filePath f.2)
      (λ e, log Warn ("[alfred-talk] Failed to process " +:+ f.1 +:+ ": " +:+ e)).

(** [readdirSync(datePath).filter((f) => f.endsWith(".json"))] *)
Definition jsonFiles (entries : list (string * raw)) : list (string * raw) :=
  filter (λ f, Str.endsWith ".json" f.1 = true) entries.

(** The body of the loop over the date directories. *)
Definition scan_dir (api : host) (cfg : config) (transcriptDir : string)
    (processed : gset string) (l : list (string * bucket)) (dateDir : string) : M unit :=
  let datePath := join transcriptDir dateDir in
  if Str.startsWith "." dateDir then ret tt
  else
    match readdir l dateDir with
    | Throw _ => ret tt
    | Ok entries => for_each (scan_file api cfg processed datePath) (jsonFiles entries)
    end.

Definition scanAndProcessTranscripts (api : host) (cfg : config)
    (transcriptDir : string) (mb : mailbox) : M unit :=
  match mb with
  | None => ret tt
  | Some listing => λ w,
      let processed := loadProcessed (ledger w) in
      (let* l := lift listing in
       for_each (scan_dir api cfg transcriptDir processed l) (dateDirs l)) w
  end.

(** One tick of the watcher:
    [try { await scanAndProcessTranscripts(...) } catch (err) { logger.warn(...) }]. *)
Definition tick (api : host) (cfg : config) (transcriptDir : string) (mb : mailbox)
    : M unit :=
  try_catch (scanAndProcessTranscripts api cfg transcriptDir mb)
    (λ e, log Warn ("[alfred-talk] Transcript scan error: " +:+ e)).

(** *** [getTranscript] *)

(** What the query hands to [text(...)]: a plain message, or the object
    given to [JSON.stringify]. *)
Inductive reply : Type :=
| Message (t : string)
| Found (conversationId : string) (caller : json) (transcript : string).

(** [`[${m}:${String(s).padStart(2, "0")}]`] for
    [m = Math.floor(ts / 60)] and [s = Math.floor(ts % 60)] *)
Definition stamp (ts : json) : string :=
  match to_number ts with
  | Some n =>
      "[" +:+ Str.of_Z (n / 60) +:+ ":" +:+ Str.padStart2 (Str.of_Z (Z.rem n 60)) +:+ "]"
  | None => "[NaN:NaN]"
  end.

Definition stamped_line (contacts : gmap string string) (data t : json)
    : res (option string) :=
  let? r := Js.get_strict "role" t in
  let role := Js.coalesce r (JStr "?") in
  let role := speaker (resolveCallerName (userPhone data) contacts) role in
  let? ts := Js.get_strict "time_in_call_secs" t in
  let? m := Js.get_strict "message" t in
  let? text := as_text "trim" (Js.coalesce m (JStr "")) in
  let msg := Str.trim text in
  if negb (Str.is_empty msg)
  then Ok (Some (stamp (Js.coalesce ts (JNum 0)) +:+ " " +:+ Js.to_string role
                 +:+ ": " +:+ msg))
  else Ok None.

Fixpoint stamped_lines (contacts : gmap string string) (data : json)
    (turns : list json) : res (list string) :=
  match turns with
  | [] => Ok []
  | t :: turns =>
      let? l := stamped_line contacts data t in
      let? ls := stamped_lines contacts data turns in
      Ok (option_list l ++ ls)
  end.

(** The body of [if (file.includes(conversationId) && file.endsWith(".json"))]. *)
Definition render (contacts : gmap string string) (conversationId : string)
    (content : raw) : res reply :=
  let? data := content in
  let? turns := Js.iterate (transcript data) in
  let? lines := stamped_lines contacts data turns in
  Ok (Found conversationId (resolveCallerName (userPhone data) contacts)
        (Str.join nl lines)).

Definition matches (conversationId : string) (f : string * raw) : bool :=
  Str.includes conversationId f.1 && Str.endsWith ".json" f.1.

(** The loop over the date directories: the first matching file of a
    directory decides; whatever is thrown while listing, reading or rendering
    moves the search on to the next directory. *)
Fixpoint search (contacts : gmap string string) (conversationId : string)
    (l : list (string * bucket)) (names : list string) : reply :=
  match names with
  | [] => Message ("Transcript not found: " +:+ conversationId)
  | dateDir :: names =>
      let next := search contacts conversationId l names in
      if Str.startsWith "." dateDir then next
      else
        match readdir l dateDir with
        | Throw _ => next
        | Ok entries =>
            match List.find (matches conversationId) entries with
            | None => next
            | Some f =>
                match render contacts conversationId f.2 with
                | Ok r => r
                | Throw _ => next
                end
            end
        end
  end.

Definition getTranscript (mb : mailbox) (conversationId : string)
    (contacts : gmap string string) : res reply :=
  match mb with
  | None => Ok (Message "Transcript directory not found.")
  | Some listing =>
      let? l := listing in
      Ok (search contacts conversationId l (dateDirs l))
  end.

End Pipeline.

(** ** Vocabulary of the statements *)

(** A turn, as the provider writes it. *)
Definition turn (role message : string) : json :=
  JObj [("role", JStr role); ("message", JStr message)].

(** The same call in the two shapes: wrapped in [data], and flat. *)
Definition call_fields (phone id : string) (secs : Z) (turns : list json)
    : list (string * json) :=
  [("conversation_id", JStr id); ("user_id", JStr phone);
   ("metadata", JObj [("call_duration_secs", JNum secs)]);
   ("transcript", JArr turns)].

Definition nested_call (phone id : string) (secs : Z) (turns : list json) : json :=
  JObj [("type", JStr "post_call_transcription");
        ("data", JObj (call_fields phone id secs turns))].

Definition flat_call (phone id : string) (secs : Z) (turns : list json) : json :=
  JObj (call_fields phone id secs turns).

(** The entries a run has marked processed, in the order it did so. *)
Definition marked (tr : list event) : list string :=
  omap (λ e, match e with Mark entry => Some entry | _ => None end) tr.

Definition fresh : world := World None ∅ ∅ [] 0.

(** [has c s]: the character occurs in the string. *)
Fixpoint has (c : ascii) (s : string) : bool :=
  match s with
  | "" => false
  | String d r => Ascii.eqb d c || has c r
  end.

(** *** The normaliser, in the words of the specification *)

(** A turn with a role string and a message text; a role that is missing
    or [null] reads ["?"], a message that is missing or [null] is empty. *)
Definition reads_as (t : json) (rm : string * string) : Prop :=
  t ≠ JNull
  ∧ Js.coalesce (Js.get "role" t) (JStr "?") = JStr rm.1
  ∧ Js.coalesce (Js.get "message" t) (JStr "") = JStr rm.2.

(** The speaker label: the voice agent's name for ["agent"], the caller's
    for ["user"], the role itself otherwise. *)
Definition label (callerName : json) (role : string) : string :=
  if decide (role = "agent") then "Alfred"
  else if decide (role = "user") then Js.to_string callerName
  else role.

(** A message is dropped when nothing is left of it, or the token "none"
    in any casing. *)
Definition dropped (msg : string) : Prop :=
  msg = "" ∨ Str.toLowerCase msg = "none".

Definition kept_line (callerName : json) (rm : string * string) : option string :=
  let msg := Str.trim (Str.strip_tags rm.2) in
  if decide (dropped msg) then None
  else Some (label callerName rm.1 +:+ ": " +:+ msg).

(** *** The inbox file, in the words of the specification *)








(** *** Ledger files as [markProcessed] writes them *)

(** The file holding the given paths, one a line. *)
Fixpoint ledger_of (paths : list string) : string :=
  match paths with
  | [] => ""
  | p :: paths => p +:+ nl +:+ ledger_of paths
  end.

(** A path that survives the round trip through the ledger: not empty, on
    one line, without blanks at either end. *)
Definition clean (p : string) : Prop :=
  p ≠ "" ∧ has "010" p = false ∧ Str.trimStart p = p ∧ Str.trimEnd p = p.

(** The ledger of the world holds exactly the given clean paths. *)
Definition holds (w : world) (paths : list string) : Prop :=
  default "" (ledger w) = ledger_of paths ∧ Forall clean paths.

(** *** Names as the file system and the naming contract have them *)

(** A name holds no path separator and no line break. *)
Definition plain (s : string) : Prop :=
  has "/" s = false ∧ has "010" s = false.

(** The files of a date directory are plain names listed once. *)
Definition tidy_bucket (b : bucket) : Prop :=
  match b with
  | Ok entries => NoDup entries.*1 ∧ Forall plain entries.*1
  | Throw _ => True
  end.

(** The transcript directory is on one line and does not start with a
    blank; the names listed in it and in its date directories are plain
    and listed once. *)
Definition tidy (transcriptDir : string) (l : list (string * bucket)) : Prop :=
  (has "010" transcriptDir = false ∧ Str.trimStart transcriptDir = transcriptDir)
  ∧ (NoDup l.*1 ∧ Forall plain l.*1)
  ∧ Forall (λ db, tidy_bucket db.2) l.

(** *** Reading a trace *)

(** The events of the three sinks. *)
Definition is_sink (e : event) : bool :=
  match e with
  | Chat _ _ | Spawn _ _ _ | Mkdir _ _ | WriteFile _ _ _ => true
  | Mark _ | Log _ _ => false
  end.

Definition is_log (e : event) : bool :=
  match e with Log _ _ => true | _ => false end.

Definition is_warning (e : event) : bool :=
  match e with Log Warn _ => true | _ => false end.

(** The entry an event was emitted for, if it records one. *)
Definition entry_of (e : event) : option string :=
  match e with
  | Chat entry _ | Spawn entry _ _ | Mkdir entry _ | WriteFile entry _ _ | Mark entry =>
      Some entry
  | Log _ _ => None
  end.

(** The events of the inbox writer. *)
Definition is_inbox (e : event) : bool :=
  match e with Mkdir _ _ | WriteFile _ _ _ => true | _ => false end.

(** The number of warnings logged. *)
Definition warnings (tr : list event) : nat :=
  length (filter (λ e, is_warning e = true) tr).

(** The number of outside calls that throw among those of rank [from] up to,
    not including, [to]. *)
Definition failures (api : host) (from to : nat) : nat :=
  length (filter (λ n, is_Some (failure api n)) (seq from (to - from))).

(** What a guarded step may do: it leaves the ledger alone, adds events and
    outside calls, marks nothing and logs one warning for every outside call
    that threw. *)
Definition extends (api : host) (w w' : world) (delta : list event) : Prop :=
  ledger w' = ledger w
  ∧ trace w' = trace w ++ delta
  ∧ (calls w ≤ calls w')%nat
  ∧ marked delta = []
  ∧ warnings delta = failures api (calls w) (calls w').

(** A step that stays away from the inbox side. *)
Definition quiet (w w' : world) (delta : list event) : Prop :=
  dirs w' = dirs w ∧ files w' = files w ∧ Forall (λ e, is_inbox e = false) delta.

(** *** How an entry fares *)

(** [if (inboxDir)] *)
Definition inbox_on (cfg : config) : bool :=
  match inboxDir cfg with
  | Some d => negb (Str.is_empty d)
  | None => false
  end.


(** An entry is rejected (reading, parsing or the normaliser throws), empty
    (no line is left of its dialogue), aborted (the inbox file name cannot be
    worked out), or delivered to the sinks. *)
Inductive verdict : Type :=
| Rejected (message : string)
| Empty
| Aborted (message : string)
| Delivered.

Definition verdict_of (cfg : config) (content : raw) : verdict :=
  match content with
  | Throw e => Rejected e
  | Ok data =>
      let callerName := resolveCallerName (userPhone data) (contacts cfg) in
      match dialogue callerName data with
      | Throw e => Rejected e
      | Ok [] => Empty
      | Ok (_ :: _) =>
          if inbox_on cfg then
            match callerSlug callerName with
            | Throw e => Aborted e
            | Ok _ => Delivered
            end
          else Delivered
      end
  end.

(** Whether processing runs to its end, and whether it reaches the sinks. *)
Definition runs_through (v : verdict) : bool :=
  match v with Empty | Delivered => true | Rejected _ | Aborted _ => false end.

Definition dispatches (v : verdict) : bool :=
  match v with Delivered | Aborted _ => true | Rejected _ | Empty => false end.

(** *** The work list of a scan *)

(** The files a scan looks at in one date directory, each with the path of
    the directory; none for a hidden directory or one that cannot be listed. *)
Definition entries_of (transcriptDir : string) (l : list (string * bucket))
    (dateDir : string) : list (string * (string * raw)) :=
  if Str.startsWith "." dateDir then []
  else
    match readdir l dateDir with
    | Throw _ => []
    | Ok entries => (λ f, (join transcriptDir dateDir, f)) <$> jsonFiles entries
    end.

(** All of them, in the order of the scan. *)
Definition visible (transcriptDir : string) (l : list (string * bucket))
    : list (string * (string * raw)) :=
  dateDirs l ≫= entries_of transcriptDir l.

(** One round of the loop of a scan, on an entry of its work list. *)
Definition scan1 (homedir : string) (StringToNumber : string → option Z)
    (api : host) (cfg : config) (processed : gset string)
    (x : string * (string * raw)) : M unit :=
  scan_file homedir StringToNumber api cfg processed x.1 x.2.

(** The path of an entry of the work list. *)
Definition path_of (x : string * (string * raw)) : string := join x.1 x.2.1.

(** An entry is pending when the loaded ledger does not hold its path. *)
Definition pending (processed : gset string) (x : string * (string * raw)) : Prop :=
  path_of x ∉ processed.

(** Processing the entry runs to its end (and marks it), or throws. *)
Definition completes (cfg : config) (x : string * (string * raw)) : Prop :=
  verdict_of cfg x.2.2 = Empty ∨ verdict_of cfg x.2.2 = Delivered.

Definition throws (cfg : config) (x : string * (string * raw)) (e : string) : Prop :=
  verdict_of cfg x.2.2 = Rejected e ∨ verdict_of cfg x.2.2 = Aborted e.

(** The warning the scan logs for a file whose processing threw. *)
Definition failed_to_process (file e : string) : event :=
  Log Warn ("[alfred-talk] Failed to process " +:+ file +:+ ": " +:+ e).

(** The paths a scan is to mark: those of the pending entries whose
    processing runs to its end, in the order of the work list. *)
Definition marks_of (cfg : config) (processed : gset string)
    (todo : list (string * (string * raw))) : list string :=
  omap (λ x, if decide (pending processed x)
             then if runs_through (verdict_of cfg x.2.2) then Some (path_of x) else None
             else None) todo.

(** What a stretch of a scan does to the world: the events [delta] are
    added, the ledger grows by the lines of the marks among them, these marks
    are the ones due for the stretch [todo] of the work list, every sink
    event belongs to a pending entry of the stretch that reached the sinks,
    and every pending entry that threw has its warning. *)
Definition scanned (cfg : config) (processed : gset string)
    (todo : list (string * (string * raw))) (w w' : world) (delta : list event) : Prop :=
  trace w' = trace w ++ delta
  ∧ ledger w' = foldl (λ led p, appendFile led (p +:+ nl)) (ledger w) (marked delta)
  ∧ marked delta = marks_of cfg processed todo
  ∧ (∀ e, e ∈ delta → is_sink e = true →
       ∃ x, x ∈ todo ∧ pending processed x ∧ entry_of e = Some (path_of x)
            ∧ dispatches (verdict_of cfg x.2.2) = true)
  ∧ (∀ x e, x ∈ todo → pending processed x → throws cfg x e →
       failed_to_process x.2.1 e ∈ delta).

(** The order in which [listTranscripts] takes the files of a date
    directory: [readdirSync(datePath).filter(...).sort().reverse()]. *)
Definition listing_order (entries : list (string * raw)) : list string :=
  reverse (merge_sort String.le ((jsonFiles entries).*1)).

(** *** Consecutive ticks *)

(** The events added between two worlds. *)
Definition news (w w' : world) : list event :=
  drop (length (trace w)) (trace w').

(** Ticks in succession, each with the host as it behaves at that time:
    the events of each tick, and the world at the end. *)
Fixpoint ticks (homedir : string) (StringToNumber : string → option Z)
    (apis : list host) (cfg : config) (transcriptDir : string) (mb : mailbox)
    (w : world) : list (list event) * world :=
  match apis with
  | [] => ([], w)
  | api :: apis =>
      let w1 := (tick homedir StringToNumber api cfg transcriptDir mb w).2 in
      let (deltas, w') := ticks homedir StringToNumber apis cfg transcriptDir mb w1 in
      (news w w1 :: deltas, w')
  end.

(** *** Sample data *)

(** A call from a number that reads as the name of a member every object
    inherits. *)
Definition inherited_name_call : json :=
  nested_call "constructor" "conv_1" 125 [turn "agent" "hello"].

(** A host whose tools are there and whose every outside call throws. *)
Definition all_down : host := Host true (λ _, Some "service unavailable").

(** A host whose tools are there and work. *)
Definition all_up : host := Host true (λ _, None).

(** A mailbox with one day of calls: a file that is not JSON, a call with
    a dialogue, and a call whose only turn is empty. *)
Definition sample_day : list (string * bucket) :=
  [("2024-03-01",
    Ok [("09-15-00_bad.json", Throw "Unexpected token h in JSON at position 0");
        ("10-00-00_abc.json",
         Ok (nested_call "+34612345678" "abc" 125 [turn "user" "lunch on Sunday"]));
        ("11-30-00_hangup.json",
         Ok (nested_call "+34612345678" "hangup" 2 [turn "user" " "]))])].

(** A mailbox with that call. *)
Definition inherited_name_day : list (string * bucket) :=
  [("2024-03-01", Ok [("14-30-00_conv_1.json", Ok inherited_name_call)])].

(** ** Further vocabulary *)

(** A string of blanks and line breaks only. *)
Fixpoint blank (s : string) : bool :=
  match s with
  | "" => true
  | String c r => Str.is_space c && blank r
  end.

(** [/<[^>]+>/.test(s)]: somewhere a ["<"] is followed by one or more
    characters other than [">"] and then by a [">"]. *)
Fixpoint has_tag (s : string) : bool :=
  match s with
  | "" => false
  | String c r =>
      (Ascii.eqb c "<" && match Str.gt_index r with Some (S _) => true | _ => false end)
      || has_tag r
  end.

(** The events of the host's tools: the chat message and the summary
    request. *)
Definition is_tool (e : event) : bool :=
  match e with Chat _ _ | Spawn _ _ _ => true | _ => false end.

(** A computation that only adds events to the trace, none of them among
    [bad], and that leaves the inbox side alone when [still] is set. *)
Definition spares {A} (bad : event → bool) (still : bool) (m : M A) : Prop :=
  ∀ w, ∃ delta,
    trace (m w).2 = trace w ++ delta
    ∧ Forall (λ e, bad e = false) delta
    ∧ (still = true → dirs (m w).2 = dirs w ∧ files (m w).2 = files w).

(** ** More of the string methods *)

Module StrExt.

(** [s.slice(n)] *)
Fixpoint skip (n : nat) (s : string) : string :=
  match n, s with
  | S k, String _ r => skip k r
  | _, _ => s
  end.

(** [s.slice(0, n)] *)
Fixpoint keep (n : nat) (s : string) : string :=
  match n, s with
  | S k, String c r => String c (keep k r)
  | _, _ => ""
  end.

(** [s.replace(p, by)] for a pattern string: the first occurrence only
    (the replacement holds no ["$"]). *)
Fixpoint replace_str (p by_ : string) (s : string) : string :=
  if String.prefix p s then by_ +:+ skip (String.length p) s
  else
    match s with
    | "" => ""
    | String c r => String c (replace_str p by_ r)
    end.

(** [s.replace(/-/g, ":")] *)
Definition colon_char (c : ascii) : ascii :=
  if Ascii.eqb c "-" then ":"%char else c.

Definition colons : string → string := Str.map colon_char.

(** [s.indexOf(c)] for one character; [None] is [-1]. *)
Fixpoint indexOf (c : ascii) (s : string) : option nat :=
  match s with
  | "" => None
  | String d r => if Ascii.eqb d c then Some O else S <$> indexOf c r
  end.

(** [s.slice(1, -1)] *)
Fixpoint drop_last (s : string) : string :=
  match s with
  | "" | String _ "" => ""
  | String c r => String c (drop_last r)
  end.

Definition slice_1_m1 (s : string) : string :=
  match s with
  | "" => ""
  | String _ r => drop_last r
  end.

End StrExt.

(** ** [listTranscripts] *)

Module Entry.

(** One object of the array given to [JSON.stringify]. *)
Record item : Type := Make {
  timestamp : string;
  conversationId : string;
  caller : json;
  processed : bool
}.

End Entry.

(** What [JSON.parse(readFileSync(join(datePath, file)))] yields for a name
    of the listing. *)
Definition read (entries : list (string * raw)) (file : string) : raw :=
  default (Throw "ENOENT: no such file or directory") (lookup_name file entries).

(** The object pushed for one file: time and identifier are cut out of the
    file name, the caller is peeked at in the file (and stays "unknown" when
    that throws), the flag tells whether the ledger holds the path. *)
Definition listed (processed : gset string) (contacts : gmap string string)
    (dateDir datePath file : string) (content : raw) : Entry.item :=
  let filePath := join datePath file in
  let stem := StrExt.replace_str ".json" "" file in
  let parts := Str.split "_" stem in
  let timeStr := StrExt.colons (default "" (head parts)) in
  let convId := Str.join "_" (tail parts) in
  let caller :=
    match content with
    | Ok d => resolveCallerName (userPhone d) contacts
    | Throw _ => JStr "unknown"
    end in
  Entry.Make (dateDir +:+ "T" +:+ timeStr) convId caller
    (bool_decide (filePath ∈ processed)).

(** The loop over the files of a date directory, with its [break]:
    [files] as the loop leaves it. *)
Fixpoint list_files (limit : Z) (item : string → Entry.item) (names : list string)
    (files : list Entry.item) : list Entry.item :=
  match names with
  | [] => files
  | file :: names =>
      let files := files ++ [item file] in
      if limit <=? Z.of_nat (length files) then files
      else list_files limit item names files
  end.

(** The loop over the date directories: a hidden directory is skipped, one
    that cannot be listed is skipped by the [catch], and the loop is left
    once [files] has reached the limit. *)
Fixpoint list_dirs (limit : Z) (processed : gset string)
    (contacts : gmap string string) (transcriptDir : string)
    (l : list (string * bucket)) (names : list string) (files : list Entry.item)
    : list Entry.item :=
  match names with
  | [] => files
  | dateDir :: names =>
      let next := list_dirs limit processed contacts transcriptDir l names in
      if Str.startsWith "." dateDir then next files
      else
        let datePath := join transcriptDir dateDir in
        match readdir l dateDir with
        | Throw _ => next files
        | Ok entries =>
            let files :=
              list_files limit
                (λ file, listed processed contacts dateDir datePath file
                           (read entries file))
                (listing_order entries) files in
            if limit <=? Z.of_nat (length files) then files else next files
        end
  end.

(** [a.slice(0, n)]: a negative [n] counts from the end. *)
Definition slice0 {A} (n : Z) (a : list A) : list A :=
  if 0 <=? n then take (Z.to_nat n) a else take (length a - Z.to_nat (- n)) a.

(** [listTranscripts(transcriptDir, limit, contacts)]: the array handed to
    [JSON.stringify] (the literal ["[]"] for a missing transcript directory
    is the empty array). The ledger is that of the transcript directory. *)
Definition listTranscripts (ledger : option string) (transcriptDir : string)
    (mb : mailbox) (limit : Z) (contacts : gmap string string) : res (list Entry.item) :=
  let processed := loadProcessed ledger in
  match mb with
  | None => Ok []
  | Some listing =>
      let? l := listing in
      Ok (slice0 limit (list_dirs limit processed contacts transcriptDir l (dateDirs l) []))
  end.

(** *** The listing, in the words of its contract *)

(** The files of one date directory as the listing takes them: none for a
    hidden directory or one that cannot be listed, else the [.json] files,
    last name first, each with what reading it yields. *)
Definition shelf_of (l : list (string * bucket)) (dateDir : string)
    : list (string * (string * raw)) :=
  if Str.startsWith "." dateDir then []
  else
    match readdir l dateDir with
    | Throw _ => []
    | Ok entries => (λ file, (dateDir, (file, read entries file))) <$> listing_order entries
    end.

(** All files, newest directory first. *)
Definition shelf (l : list (string * bucket)) : list (string * (string * raw)) :=
  dateDirs l ≫= shelf_of l.

(** [x] comes before [y] in a listing that is newest first: a later
    directory, or the same directory and a later file name. *)
Definition newer (x y : string * (string * raw)) : Prop :=
  (x.1 ≠ y.1 ∧ String.le y.1 x.1) ∨ (x.1 = y.1 ∧ String.le y.2.1 x.2.1).

(** The object listed for a file of the shelf. *)
Definition listed_of (ledger : option string) (transcriptDir : string)
    (contacts : gmap string string) (x : string * (string * raw)) : Entry.item :=
  listed (loadProcessed ledger) contacts x.1 (join transcriptDir x.1) x.2.1 x.2.2.

(** ** The secrets file of a Zo Computer *)

(** An object used as a record of strings: its own properties, in the
    order [Object.entries] lists them (the array indices first, ascending,
    then the other keys in the order of their creation). *)
Module Obj.

Definition record : Type := list (string * string).

(** The number a key stands for when it is an array index: the decimal
    numeral, without leading zero, of a number below [2^32 - 1]. *)
Fixpoint digits (acc : N) (s : string) : option N :=
  match s with
  | "" => Some acc
  | String c r =>
      if Str.is_digit c then digits (10 * acc + N.of_nat (nat_of_ascii c - 48)) r
      else None
  end.

Definition index (k : string) : option N :=
  match k with
  | "" => None
  | String "0" "" => Some 0%N
  | String "0" _ => None
  | _ =>
      match digits 0 k with
      | Some n => if (n <? 4294967295)%N then Some n else None
      | None => None
      end
  end.

(** [o.k] for a property of its own (of the names the program asks for,
    none is inherited). *)
Definition own (k : string) (o : record) : option string := lookup_name k o.

Fixpoint update (k v : string) (o : record) : record :=
  match o with
  | [] => []
  | (k', v') :: o => if String.eqb k k' then (k', v) :: o else (k', v') :: update k v o
  end.

Fixpoint insert_index (n : N) (k v : string) (o : record) : record :=
  match o with
  | [] => [(k, v)]
  | (k', v') :: o' =>
      match index k' with
      | Some n' =>
          if (n <? n')%N then (k, v) :: o else (k', v') :: insert_index n k v o'
      | None => (k, v) :: o
      end
  end.

(** [o[k] = v] for a string [v]: a property that is there keeps its place;
    a new one goes among the array indices or to the end; the key
    ["__proto__"] reaches the setter of [Object.prototype], which ignores
    a string. *)
Definition set (k v : string) (o : record) : record :=
  if String.eqb k "__proto__" then o
  else
    match lookup_name k o with
    | Some _ => update k v o
    | None =>
        match index k with
        | Some n => insert_index n k v o
        | None => o ++ [(k, v)]
        end
    end.

End Obj.

(** The file [/root/.zo_secrets]: absent, or what [readFileSync] yields. *)
Definition secrets_file : Type := option (res string).

(** [isZoComputer()] *)
Definition isZoComputer (file : secrets_file) : bool :=
  match file with Some _ => true | None => false end.

(** The body of the loop over the lines. *)
Definition secret_of_line (secrets : Obj.record) (line : string) : Obj.record :=
  let trimmed := Str.trim line in
  if Str.is_empty trimmed || Str.startsWith "#" trimmed then secrets
  else
    match StrExt.indexOf "=" trimmed with
    | Some (S i) =>
        let key := Str.trim (StrExt.keep (S i) trimmed) in
        let val := Str.trim (StrExt.skip (S (S i)) trimmed) in
        let val :=
          if (Str.startsWith dq val && Str.endsWith dq val)
             || (Str.startsWith "'" val && Str.endsWith "'" val)
          then StrExt.slice_1_m1 val else val in
        Obj.set key val secrets
    | _ => secrets
    end.

(** [loadZoSecrets()] *)
Definition loadZoSecrets (file : secrets_file) : Obj.record :=
  match file with
  | None => []
  | Some (Throw _) => []
  | Some (Ok content) => foldl secret_of_line [] (Str.split "010" content)
  end.

(** [saveZoSecret(key, value)]: what is handed to [writeFileSync], if
    anything. *)
Definition saveZoSecret (key value : string) (file : secrets_file) : option string :=
  if isZoComputer file then
    let secrets := Obj.set key value (loadZoSecrets file) in
    Some (Str.join nl ((λ kv, kv.1 +:+ "=" +:+ dq +:+ kv.2 +:+ dq) <$> secrets) +:+ nl)
  else None.

(** A key that survives the round trip through the file: clean, as a path
    of the ledger is, without ["="], not a comment, and not ["__proto__"]. *)
Definition key_ok (k : string) : Prop :=
  clean k ∧ has "=" k = false ∧ Str.startsWith "#" k = false ∧ k ≠ "__proto__".

(** The line [saveZoSecret] writes for a secret. *)
Definition secret_line (kv : string * string) : string :=
  kv.1 +:+ "=" +:+ dq +:+ kv.2 +:+ dq.

(** Secrets that survive the round trip: every key is listed once and is
    as [key_ok] says, every value is on one line. *)
Definition tidy_secrets (o : Obj.record) : Prop :=
  NoDup o.*1 ∧ Forall (λ kv, key_ok kv.1 ∧ has "010" kv.2 = false) o.

(** ** Paths of the plugin *)

(** [join(homedir(), ".openclaw", "alfred-talk")] and what lies below it. *)
Definition DATA_DIR (homedir : string) : string :=
  join (join homedir ".openclaw") "alfred-talk".

Definition TRANSCRIPT_DIR_DEFAULT (homedir : string) : string :=
  join (DATA_DIR homedir) "transcripts".

Definition VENV_DIR (homedir : string) : string := join (DATA_DIR homedir) "venv".

(** [getTranscriptDir(cfg)]:
    [d ? d.replace("~", homedir()) : TRANSCRIPT_DIR_DEFAULT] for
    [d = cfg?.transcripts?.dir], a string when it is there. *)
Definition getTranscriptDir (homedir : string) (dir : option string) : string :=
  match dir with
  | Some d =>
      if Str.is_empty d then TRANSCRIPT_DIR_DEFAULT homedir
      else Str.replace_first "~" homedir d
  | None => TRANSCRIPT_DIR_DEFAULT homedir
  end.

(** ** Outbound calls *)

(** [!s] for a string that may be missing. *)
Definition falsy (o : option string) : bool :=
  match o with
  | Some s => Str.is_empty s
  | None => true
  end.

(** [a ?? b] *)
Definition or_else {A} (a b : option A) : option A :=
  match a with
  | Some _ => a
  | None => b
  end.

Module Call.

(** What the call reads of its surroundings: the credentials of the plugin
    configuration (strings, as the setup command writes them; [None] for a
    missing or [null] entry), the contacts, the environment of the process
    and the secrets file. *)
Record setup : Type := Setup {
  apiKey : option string;
  agentId : option string;
  phoneNumberId : option string;
  contacts : gmap string string;
  env : string → option string;
  secrets : secrets_file
}.

(** The request posted to the provider: the key of the header and the
    fields of the body. *)
Record request : Type := Request {
  xi_api_key : string;
  agent_id : string;
  agent_phone_number_id : option string;
  to_number : string;
  prompt : string;
  first_message : string
}.

(** What comes back: [fetch] rejects, the provider refuses ([!resp.ok],
    with what [resp.text()] yields), or it answers (with what [resp.json()]
    yields). *)
Inductive response : Type :=
| Unreachable (message : string)
| Refused (status : Z) (errText : res string)
| Answered (result : res json).

(** What is handed to [text(...)]: a message, or the object
    [{status: "call_initiated", to, contactName, task,
      conversationId: result.conversation_id, ...result}]
    given to [JSON.stringify]. *)
Inductive answer : Type :=
| Plain (t : string)
| Initiated (to : string) (contactName : json) (task : string) (result : json).

(** What the call does to the outside: the request, and the line logged
    for the provider's answer. *)
Inductive effect : Type :=
| Post (r : request)
| Logged (contactName to : string) (result : json).

(** The prompt of the voice agent. *)
Definition agentPrompt (contactName to task : string) (context : option string) : string :=
  Str.join nl
    (["You are making a phone call to " +:+ contactName +:+ " (" +:+ to +:+ ").";
      "Your objective: " +:+ task]
     ++ (if falsy context then []
         else [nl +:+ "Relevant context:" +:+ nl +:+ default "" context])
     ++ [nl +:+ "Keep the conversation natural and warm. Be concise. "
         +:+ "When you've accomplished the objective, wrap up politely."]).

(** [contactName.split(" ")[0]]: the method is there on strings only. *)
Definition first_word (contactName : json) : res string :=
  match contactName with
  | JStr s => Ok (default "" (head (Str.split " " s)))
  | _ => Throw "contactName.split is not a function"
  end.

(** [firstMessage ||
     `Hello${contactName !== to ? `, ${contactName.split(" ")[0]}` : ""}! This is Alfred calling.`]
    for a string [to]. *)
Definition opening (contactName : json) (to : string) (firstMessage : option string)
    : res string :=
  if falsy firstMessage then
    let differs :=
      match contactName with
      | JStr s => negb (String.eqb s to)
      | _ => true
      end in
    let? who :=
      if differs then let? w := first_word contactName in Ok (", " +:+ w)
      else Ok "" in
    Ok ("Hello" +:+ who +:+ "! This is Alfred calling.")
  else Ok (default "" firstMessage).

(** The guarded part, from [fetch] on. *)
Definition place (net : request → response) (r : request) (contactName : json)
    (task : string) : answer * list effect :=
  match net r with
  | Unreachable e => (Plain ("Failed to initiate call: " +:+ e), [Post r])
  | Refused status (Ok errText) =>
      (Plain ("ElevenLabs API error (" +:+ Str.of_Z status +:+ "): " +:+ errText),
       [Post r])
  | Refused _ (Throw e) => (Plain ("Failed to initiate call: " +:+ e), [Post r])
  | Answered (Throw e) => (Plain ("Failed to initiate call: " +:+ e), [Post r])
  | Answered (Ok result) =>
      let events := [Post r; Logged (Js.to_string contactName) (to_number r) result] in
      match Js.get_strict "conversation_id" result with
      | Throw e => (Plain ("Failed to initiate call: " +:+ e), events)
      | Ok _ => (Initiated (to_number r) contactName task result, events)
      end
  end.

End Call.

(** [makeOutboundCall(api, cfg, params)], for the [to] and [task] that
    [execute], its one caller, has found to be there and not empty. *)
Definition makeOutboundCall (s : Call.setup) (net : Call.request → Call.response)
    (to task : string) (firstMessage context : option string)
    : res Call.answer * list Call.effect :=
  let zoSec := loadZoSecrets (Call.secrets s) in
  let apiKey :=
    or_else (or_else (Call.apiKey s) (Call.env s "ELEVENLABS_API_KEY"))
      (Obj.own "ELEVENLABS_API_KEY" zoSec) in
  let agentId :=
    or_else (or_else (Call.agentId s) (Call.env s "ELEVENLABS_AGENT_ID"))
      (Obj.own "ELEVENLABS_AGENT_ID" zoSec) in
  let phoneNumberId :=
    or_else (or_else (Call.phoneNumberId s) (Call.env s "ELEVENLABS_PHONE_NUMBER_ID"))
      (Obj.own "ELEVENLABS_PHONE_NUMBER_ID" zoSec) in
  let refusal :=
    (Ok (Call.Plain
           "Error: elevenlabs.apiKey and elevenlabs.agentId must be configured."), []) in
  match apiKey, agentId with
  | Some key, Some agent =>
      if Str.is_empty key || Str.is_empty agent then refusal
      else
        let contactName := resolveCallerName (JStr to) (Call.contacts s) in
        let agentPrompt :=
          Call.agentPrompt (Js.to_string contactName) to task context in
        match Call.opening contactName to firstMessage with
        | Throw e => (Throw e, [])
        | Ok opening =>
            let r := Call.Request key agent phoneNumberId to agentPrompt opening in
            let (reply, events) := Call.place net r contactName task in
            (Ok reply, events)
        end
  | _, _ => refusal
  end.

(** ** The tool *)

(** The answer of [getTranscript]. *)
Definition transcript_reply : Type := reply.

Definition res_map {A B} (f : A → B) (r : res A) : res B :=
  match r with
  | Ok a => Ok (f a)
  | Throw e => Throw e
  end.

Module Tool.

(** The parameters of the tool, typed as its schema declares them. *)
Record params : Type := Params {
  action : option string;
  to : option string;
  task : option string;
  firstMessage : option string;
  context : option string;
  conversationId : option string;
  limit : option Z
}.

(** What [execute] reads besides: the configuration of calls, the
    configured transcript directory with its ledger and its content, and the
    webhook process ([None] for [null], else whether it was killed). *)
Record surroundings : Type := Surroundings {
  setup : Call.setup;
  dir : option string;
  ledger : option string;
  mb : mailbox;
  webhookProcess : option bool
}.

(** What is handed back: a text, or the value whose JSON text it is. *)
Inductive result : Type :=
| Text (t : string)
| Called (r : Call.answer)
| Listed (items : list Entry.item)
| Fetched (r : transcript_reply)
| Status (webhookServer transcriptDir : string) (processedCount : nat).

End Tool.

(** [params.action === name] *)
Definition action_is (p : Tool.params) (name : string) : bool :=
  match Tool.action p with
  | Some a => String.eqb a name
  | None => false
  end.

(** [execute(_id, params)] of the tool [alfred_talk]. *)
Definition execute (homedir : string) (StringToNumber : string → option Z)
    (s : Tool.surroundings) (net : Call.request → Call.response) (p : Tool.params)
    : res Tool.result * list Call.effect :=
  let transcriptDir := getTranscriptDir homedir (Tool.dir s) in
  let contacts := Call.contacts (Tool.setup s) in
  if action_is p "call" then
    if falsy (Tool.to p) || falsy (Tool.task p) then
      (Ok (Tool.Text "Error: 'to' and 'task' are required for call action."), [])
    else
      let (r, events) :=
        makeOutboundCall (Tool.setup s) net (default "" (Tool.to p))
          (default "" (Tool.task p)) (Tool.firstMessage p) (Tool.context p) in
      (res_map Tool.Called r, events)
  else if action_is p "list_transcripts" then
    (res_map Tool.Listed
       (listTranscripts (Tool.ledger s) transcriptDir (Tool.mb s)
          (default 10 (Tool.limit p)) contacts), [])
  else if action_is p "get_transcript" then
    if falsy (Tool.conversationId p) then
      (Ok (Tool.Text "Error: 'conversationId' required."), [])
    else
      (res_map Tool.Fetched
         (getTranscript StringToNumber (Tool.mb s)
            (default "" (Tool.conversationId p)) contacts), [])
  else if action_is p "status" then
    let running :=
      match Tool.webhookProcess s with
      | Some killed => negb killed
      | None => false
      end in
    (Ok (Tool.Status (if running then "running" else "stopped") transcriptDir
           (size (loadProcessed (Tool.ledger s)))), [])
  else
    (Ok (Tool.Text ("Unknown action: " +:+ default "undefined" (Tool.action p))), []).

(** The events of a call other than the request. *)
Definition is_post (e : Call.effect) : bool :=
  match e with Call.Post _ => true | Call.Logged _ _ _ => false end.

(** At most one request is among the events, at their head; it goes to
    [to] and carries a key and an agent identifier that are not empty. *)
Definition one_request (to : string) (events : list Call.effect) : Prop :=
  events = []
  ∨ ∃ r tail, events = Call.Post r :: tail
              ∧ Forall (λ e, is_post e = false) tail
              ∧ Call.to_number r = to
              ∧ Call.xi_api_key r ≠ "" ∧ Call.agent_id r ≠ "".

(** ** The Python environment of the webhook server *)

Module Env.

(** What [spawnSync] hands back, as far as it is read: the exit status
    ([None] for [null]), the two output streams and the signal. *)
Record outcome : Type := Outcome {
  status : option Z;
  stdout : option string;
  stderr : option string;
  signal : option string
}.

(** The machine the setup runs on. The program sees it through
    [existsSync] and [spawnSync] only: [present n path] is what
    [existsSync(path)] yields once [n] commands have been run, [run n cmd]
    what the command [cmd], run as the next after [n] others, hands back. *)
Record machine : Type := Machine {
  present : nat → string → bool;
  run : nat → list string → outcome
}.

(** What the setup does: commands, and lines of the log. *)
Inductive step : Type :=
| Run (cmd : list string)
| LogInfo (message : string)
| LogError (message : string).

(** [a || b] on strings *)
Definition or_text (a b : string) : string := if Str.is_empty a then b else a.

(** [buf?.toString().trim() || ""] *)
Definition text_of (buf : option string) : string :=
  match buf with
  | Some s => Str.trim s
  | None => ""
  end.

(** [`exit code ${status}`] *)
Definition exit_code (o : outcome) : string :=
  "exit code " +:+ match status o with Some n => Str.of_Z n | None => "null" end.

Definition succeeded (o : outcome) : bool :=
  match status o with
  | Some n => n =? 0
  | None => false
  end.

End Env.

(** [findVenvPython()] and [findVenvPip()], once [n] commands have been
    run: the first of the usual places that is there. *)
Definition python_places (homedir : string) : list string :=
  [join (join (VENV_DIR homedir) "bin") "python3";
   join (join (VENV_DIR homedir) "bin") "python";
   join (join (VENV_DIR homedir) "Scripts") "python.exe"].

Definition pip_places (homedir : string) : list string :=
  [join (join (VENV_DIR homedir) "bin") "pip";
   join (join (VENV_DIR homedir) "bin") "pip3";
   join (join (VENV_DIR homedir) "Scripts") "pip.exe"].

Definition findVenvPython (homedir : string) (m : Env.machine) (n : nat)
    : option string :=
  List.find (Env.present m n) (python_places homedir).

Definition findVenvPip (homedir : string) (m : Env.machine) (n : nat) : option string :=
  List.find (Env.present m n) (pip_places homedir).

(** The commands of the setup. *)
Definition import_test (python : string) : list string :=
  [python; "-c"; "import fastapi; print('ok')"].

Definition python_version : list string := ["python3"; "--version"].

Definition remove_venv (homedir : string) : list string :=
  ["rm"; "-rf"; VENV_DIR homedir].

Definition create_venv (homedir : string) : list string :=
  ["python3"; "-m"; "venv"; VENV_DIR homedir].

Definition pip_install (pip reqFile : string) : list string :=
  [pip; "install"; "-r"; reqFile].

(** The last part of [ensurePythonEnv]: the dependencies are installed when
    the requirements file is there. [n] commands have been run so far. *)
Definition install_dependencies (dirname : string) (m : Env.machine) (n : nat)
    (pythonBin pipBin : string) : res string * list Env.step :=
  let reqFile := join (join dirname "webhook-server") "requirements.txt" in
  if Env.present m n reqFile then
    let pipResult := Env.run m n (pip_install pipBin reqFile) in
    let before :=
      [Env.LogInfo "[alfred-talk] Installing Python dependencies...";
       Env.Run (pip_install pipBin reqFile)] in
    if Env.succeeded pipResult then
      (Ok pythonBin, before ++ [Env.LogInfo "[alfred-talk] Python dependencies installed"])
    else
      let err :=
        Env.or_text (Env.text_of (Env.stderr pipResult))
          (Env.or_text (Env.text_of (Env.stdout pipResult)) (Env.exit_code pipResult)) in
      (Throw ("pip install failed: " +:+ err),
       before ++ [Env.LogError ("[alfred-talk] pip install failed: " +:+ err)])
  else (Ok pythonBin, []).

(** The part from the fresh environment on. *)
Definition create_environment (homedir dirname : string) (m : Env.machine) (n : nat)
    : res string * list Env.step :=
  let venvResult := Env.run m n (create_venv homedir) in
  if Env.succeeded venvResult then
    match findVenvPython homedir m (S n), findVenvPip homedir m (S n) with
    | Some pythonBin, Some pipBin =>
        let (r, steps) := install_dependencies dirname m (S n) pythonBin pipBin in
        (r, [Env.Run (create_venv homedir);
             Env.LogInfo "[alfred-talk] Python venv created"] ++ steps)
    | _, _ =>
        (Throw "python3-venv not installed. Run: apt install python3-venv",
         [Env.Run (create_venv homedir);
          Env.LogError
            "[alfred-talk] venv directory created but no python binary inside.";
          Env.LogError
            "[alfred-talk] This means python3-venv is not installed on your system.";
          Env.LogError
            ("[alfred-talk] Fix: apt install python3-venv (Debian/Ubuntu) "
             +:+ "or dnf install python3-devel (Fedora)");
          Env.Run (remove_venv homedir)])
    end
  else
    let signal :=
      match Env.signal venvResult with
      | Some s => s
      | None => ""
      end in
    let err :=
      Env.or_text (Env.text_of (Env.stderr venvResult))
        (Env.or_text (Env.text_of (Env.stdout venvResult))
           (Env.or_text signal (Env.exit_code venvResult))) in
    (Throw ("venv creation failed: " +:+ err),
     [Env.Run (create_venv homedir);
      Env.LogError ("[alfred-talk] Failed to create venv: " +:+ err)]
     ++ (if Str.includes "ensurepip" err || Str.includes "No module named" err then
           [Env.LogError
              ("[alfred-talk] Fix: apt install python3-venv (Debian/Ubuntu) "
               +:+ "or dnf install python3-pip (Fedora)")]
         else [])).

(** The part after the look at the existing environment: [n] commands
    have been run, [existing] tells whether an interpreter was found. *)
Definition rebuild_environment (homedir dirname : string) (m : Env.machine) (n : nat)
    (existing : bool) : res string * list Env.step :=
  let pythonCheck := Env.run m n python_version in
  if Env.succeeded pythonCheck then
    let found :=
      Env.LogInfo
        ("[alfred-talk] Found "
         +:+ match Env.stdout pythonCheck with
             | Some s => Str.trim s
             | None => "undefined"
             end) in
    if existing || Env.present m (S n) (VENV_DIR homedir) then
      let (r, steps) := create_environment homedir dirname m (S (S n)) in
      (r, [Env.Run python_version; found; Env.Run (remove_venv homedir);
           Env.LogInfo "[alfred-talk] Removed broken/incomplete venv"] ++ steps)
    else
      let (r, steps) := create_environment homedir dirname m (S n) in
      (r, [Env.Run python_version; found] ++ steps)
  else
    (Throw "python3 not found. Install Python 3.10+ and try again.",
     [Env.Run python_version;
      Env.LogError
        "[alfred-talk] python3 not found. Install Python 3.10+ and try again."]).

(** [ensurePythonEnv(logger)]: the interpreter it returns or the error it
    throws, with what it has done. [dirname] is the directory of the
    plugin. *)
Definition ensurePythonEnv (homedir dirname : string) (m : Env.machine)
    : res string * list Env.step :=
  match findVenvPython homedir m 0 with
  | Some existingPython =>
      if Env.succeeded (Env.run m 0 (import_test existingPython)) then
        (Ok existingPython, [Env.Run (import_test existingPython)])
      else
        let (r, steps) := rebuild_environment homedir dirname m 1 true in
        (r, [Env.Run (import_test existingPython);
             Env.LogInfo
               "[alfred-talk] Venv exists but dependencies missing, reinstalling..."]
            ++ steps)
  | None =>
      let (r, steps) := rebuild_environment homedir dirname m 0 false in
      (r, [Env.LogInfo "[alfred-talk] First run — setting up Python environment..."]
          ++ steps)
  end.

(** The commands among the steps, in their order. *)
Definition commands (steps : list Env.step) : list (list string) :=
  omap (λ s, match s with Env.Run cmd => Some cmd | _ => None end) steps.

(** *** Sample machines *)

(** A machine without an environment on which every command succeeds:
    interpreter and [pip] are there once two commands have been run. *)
Definition bare_machine : Env.machine :=
  Env.Machine
    (λ n path,
       (2 <=? n)%nat
       && (String.eqb path "/home/u/.openclaw/alfred-talk/venv/bin/python3"
           || String.eqb path "/home/u/.openclaw/alfred-talk/venv/bin/pip"))
    (λ _ _, Env.Outcome (Some 0) (Some "Python 3.12.1") None None).

(** A machine with an environment whose interpreter fails the import
    test; every other command succeeds. *)
Definition stale_machine : Env.machine :=
  Env.Machine
    (λ _ path,
       String.eqb path "/home/u/.openclaw/alfred-talk/venv/bin/python3"
       || String.eqb path "/home/u/.openclaw/alfred-talk/venv/bin/pip")
    (λ n _, Env.Outcome (Some (if (n =? 0)%nat then 1 else 0)) (Some "") None None).

(** *** The dialogue of [getTranscript], in the words of its contract *)



(** * Properties *)

Local Close Scope Z_scope.

(** ** Caller-name resolution *)

(** A directory may bind a number to the empty name; [||] then falls through
    to the number itself, so the bound name is not what comes back. *)
Lemma resolveCallerName_empty_name :
  let contacts : gmap string string := {[ "+19995550000" := "" ]} in
  contacts !! "+19995550000" = Some ""
  ∧ resolveCallerName (JStr "+19995550000") contacts = JStr "+19995550000"
  ∧ resolveCallerName (JStr "+19995550000") contacts ≠ JStr "".
Proof. cbv zeta. split; [reflexivity | split; [reflexivity | discriminate]]. Qed.

Lemma truthy_JStr s : Js.truthy (JStr s) = true ↔ s ≠ "".
Proof. destruct s; simpl; split; congruence. Qed.

Lemma member_own (contacts : gmap string string) (key name : string) :
  contacts !! key = Some name → Js.member contacts key = Some (JStr name).
Proof. unfold Js.member. by intros ->. Qed.

Lemma member_none (contacts : gmap string string) (key : string) :
  contacts !! key = None → Js.inherited key = None → Js.member contacts key = None.
Proof. unfold Js.member. by intros -> ->. Qed.

(** What an object inherits is never empty, null or zero. *)
Lemma inherited_truthy (key : string) (v : json) :
  Js.inherited key = Some v → Js.truthy v = true ∧ ∀ name, v ≠ JStr name.
Proof.
  unfold Js.inherited. repeat case_match; intros [= <-]; by split.
Qed.

(** An unbound number that reads as the name of an inherited member
    resolves to that member, which is no string. *)
Lemma resolveCallerName_inherited (phone : string) (contacts : gmap string string)
    (v : json) :
  contacts !! phone = None → Js.inherited phone = Some v →
  resolveCallerName (JStr phone) contacts = v.
Proof.
  intros Hnone Hv. unfold resolveCallerName, Js.member. cbn [Js.to_string].
  rewrite Hnone, Hv. by destruct (inherited_truthy phone v Hv) as [-> _].
Qed.

(** C8, as the code has it: caller-name resolution returns the directory's
    display name when the number is bound to a non-empty name; when the
    number is bound to the empty name, or is unbound and is not the name of a
    member every object inherits, it returns the raw number when that is
    non-empty and ["Unknown caller"] when it is empty. *)
Theorem resolveCallerName_cases (phone : string) (contacts : gmap string string) :
  (∀ name, contacts !! phone = Some name → name ≠ "" →
     resolveCallerName (JStr phone) contacts = JStr name)
  ∧ (contacts !! phone = Some ""
     ∨ (contacts !! phone = None ∧ Js.inherited phone = None) →
     (phone ≠ "" → resolveCallerName (JStr phone) contacts = JStr phone)
     ∧ (phone = "" → resolveCallerName (JStr phone) contacts = JStr "Unknown caller")).
Proof.
  unfold resolveCallerName; cbn [Js.to_string]. split.
  - intros name Hname Hne. rewrite (member_own _ _ _ Hname).
    apply truthy_JStr in Hne. by rewrite Hne.
  - intros [Hempty | [Hnone Hplain]];
      [rewrite (member_own _ _ _ Hempty) | rewrite (member_none _ _ Hnone Hplain)];
      cbn; (split; [intros Hne | intros ->; done]); by destruct phone.
Qed.

Lemma resolveCallerName_cases_witness :
  resolveCallerName (JStr "+34612345678") {[ "+34612345678" := "Mom" ]} = JStr "Mom"
  ∧ resolveCallerName (JStr "+19995550000") {[ "+34612345678" := "Mom" ]}
    = JStr "+19995550000"
  ∧ resolveCallerName (JStr "") {[ "+34612345678" := "Mom" ]} = JStr "Unknown caller".
Proof.
  split; [| split].
  - apply (resolveCallerName_cases "+34612345678" {[ "+34612345678" := "Mom" ]});
      [reflexivity | discriminate].
  - apply (resolveCallerName_cases "+19995550000" {[ "+34612345678" := "Mom" ]});
      [right; split; reflexivity | discriminate].
  - apply (resolveCallerName_cases "" {[ "+34612345678" := "Mom" ]});
      [right; split; reflexivity | reflexivity].
Defined.

(** ** Field extraction *)

(** Phone and conversation identifier fall back from the nested to the flat
    field. *)
Lemma opt_get_Some (k : string) (data : json) :
  Js.opt_get k (Some data) = Js.get k data.
Proof. by destruct data. Qed.

Lemma userPhone_nested (data inner : json) (phone : string) :
  Js.get "data" data = Some inner → Js.get "user_id" inner = Some (JStr phone) →
  userPhone data = JStr phone.
Proof.
  intros Hd Hp. unfold userPhone. rewrite opt_get_Some, Hd.
  destruct inner; try discriminate. cbn [Js.opt_get]. by rewrite Hp.
Qed.

Lemma userPhone_flat (data : json) (phone : string) :
  Js.get "data" data = None → Js.get "user_id" data = Some (JStr phone) →
  userPhone data = JStr phone.
Proof.
  intros Hd Hp. unfold userPhone. by rewrite !opt_get_Some, Hd, Hp.
Qed.

(** The duration is read in the nested shape only: a payload without a
    [data] member has duration zero, whatever else it holds. *)
Lemma callDuration_needs_data (data : json) :
  Js.get "data" data = None → callDuration data = JNum 0.
Proof.
  intros Hd. unfold callDuration. by rewrite opt_get_Some, Hd.
Qed.

(** C6 fails on the code: of the three fields, the duration has no
    fallback to the flat shape. The same call, 125 seconds long, wrapped in
    [data] yields 125 and flat yields 0 (rendered "unknown duration"), while
    phone and conversation identifier are found in both shapes. *)
Theorem callDuration_flat_ignored :
  let nested := nested_call "+34612345678" "conv_1" 125 [turn "user" "hello"] in
  let flat := flat_call "+34612345678" "conv_1" 125 [turn "user" "hello"] in
  (userPhone nested = JStr "+34612345678" ∧ userPhone flat = JStr "+34612345678")
  ∧ (conversationId nested = JStr "conv_1" ∧ conversationId flat = JStr "conv_1")
  ∧ (callDuration nested = JNum 125 ∧ callDuration flat = JNum 0)
  ∧ (∀ num, durationStr num (callDuration nested) = "2m5s"
            ∧ durationStr num (callDuration flat) = "unknown duration").
Proof. cbv zeta. repeat split; reflexivity. Qed.

(** ** The order of a scan *)

(** The date directories are visited newest first. *)
Lemma dateDirs_descending (l : list (string * bucket)) :
  Sorted (flip String.le) (dateDirs l) ∧ dateDirs l ≡ₚ l.*1.
Proof.
  split.
  - apply Sorted_reverse, Sorted_merge_sort; apply _.
  - unfold dateDirs. by rewrite reverse_Permutation, merge_sort_Permutation.
Qed.

(** C5 fails on the code: the scan sorts the date directories but takes
    the files of a directory as [readdirSync] lists them (by name, ascending,
    on the usual file systems), where [listTranscripts] sorts and reverses
    them. Two unprocessed calls of one day, at 10:00 and at 11:00: the
    earlier one is processed first. *)
Theorem scan_takes_files_in_listing_order (homedir : string)
    (StringToNumber : string → option Z) (api : host) :
  let earlier :=
    ("10-00-00_abc.json", Ok (nested_call "+1" "abc" 60 [turn "user" "first"])) in
  let later :=
    ("11-00-00_xyz.json", Ok (nested_call "+1" "xyz" 60 [turn "user" "second"])) in
  let mb : mailbox := Some (Ok [("2024-03-01", Ok [earlier; later])]) in
  marked (trace (scanAndProcessTranscripts homedir StringToNumber api
                   (Config ∅ None None) "/t" mb fresh).2)
  = ["/t/2024-03-01/10-00-00_abc.json"; "/t/2024-03-01/11-00-00_xyz.json"]
  ∧ listing_order [earlier; later] = ["11-00-00_xyz.json"; "10-00-00_abc.json"].
Proof.
  cbv zeta. split; [| reflexivity].
  destruct api as [[] fails]; [| reflexivity].
  vm_compute.
  destruct (fails 0), (fails 1), (fails 2), (fails 3); reflexivity.
Qed.

(** ** Fetching one transcript *)

(** Where no listed file has the identifier in its name, the answer is the
    not-found message. *)
Lemma search_not_found (StringToNumber : string → option Z)
    (contacts : gmap string string) (id : string) (l : list (string * bucket))
    (names : list string) :
  (∀ d entries f, d ∈ names → readdir l d = Ok entries → f ∈ entries →
     matches id f = false) →
  search StringToNumber contacts id l names = Message ("Transcript not found: " +:+ id).
Proof.
  induction names as [|d names IH]; intros Hnone; [done|].
  cbn [search]. rewrite IH by (intros; eapply Hnone; eauto; by right).
  destruct (Str.startsWith "." d); [done|].
  destruct (readdir l d) as [entries|] eqn:Hread; [|done].
  destruct (List.find (matches id) entries) as [f|] eqn:Hfind; [|done].
  apply List.find_some in Hfind as [Hin Hmatch].
  rewrite (Hnone d entries f) in Hmatch; [done | by left | done |].
  by apply list_elem_of_In.
Qed.

(** C10 fails on the code: a file is chosen when its name contains the
    queried identifier anywhere ([file.includes(conversationId)]), and the
    first such file of the newest directory is returned. With calls [abc123]
    and [abc] on the same day, the query for [abc] returns the dialogue of
    [abc123] under the label [abc]; a query for [json] matches every file. *)
Theorem getTranscript_matches_substring (StringToNumber : string → option Z) :
  let other := ("10-00-00_abc123.json",
                Ok (nested_call "+1" "abc123" 60 [turn "agent" "this is call abc123"])) in
  let exact := ("11-00-00_abc.json",
                Ok (nested_call "+2" "abc" 60 [turn "agent" "this is call abc"])) in
  let mb : mailbox := Some (Ok [("2024-03-01", Ok [other; exact])]) in
  getTranscript StringToNumber mb "abc" ∅
    = Ok (Found "abc" (JStr "+1") "[0:00] Alfred: this is call abc123")
  ∧ getTranscript StringToNumber mb "json" ∅
    = Ok (Found "json" (JStr "+1") "[0:00] Alfred: this is call abc123")
  ∧ render StringToNumber ∅ "abc" exact.2
    = Ok (Found "abc" (JStr "+2") "[0:00] Alfred: this is call abc").
Proof. cbv zeta. repeat split; reflexivity. Qed.

(** ** Strings: the facts used below *)

Lemma app_cons (c : ascii) (a s : string) : String c a +:+ s = String c (a +:+ s).
Proof. reflexivity. Qed.

Lemma app_empty_l (s : string) : "" +:+ s = s.
Proof. reflexivity. Qed.

Lemma app_empty_r (s : string) : s +:+ "" = s.
Proof. induction s as [|c s IH]; [done|]. by rewrite app_cons, IH. Qed.

Lemma app_assoc_s (a b c : string) : (a +:+ b) +:+ c = a +:+ (b +:+ c).
Proof. induction a as [|x a IH]; [done|]. by rewrite !app_cons, IH. Qed.

Lemma has_app (c : ascii) (a b : string) : has c (a +:+ b) = has c a || has c b.
Proof.
  induction a as [|d a IH]; [done|].
  rewrite app_cons. cbn. by rewrite IH, orb_assoc.
Qed.

(** *** Tags *)

Lemma gt_index_closing (tag rest : string) :
  has ">" tag = false →
  Str.gt_index (tag +:+ ">" +:+ rest) = Some (String.length tag).
Proof.
  induction tag as [|c tag IH]; [done|].
  cbn [has]. intros [Hc Htag]%orb_false_elim.
  rewrite app_cons. cbn [Str.gt_index String.length].
  by rewrite Hc, IH.
Qed.

Lemma strip_go_skip (s rest : string) :
  Str.strip_go (String.length s) (s +:+ rest) = Str.strip_go 0 rest.
Proof. induction s as [|c s IH]; [done|]. by rewrite app_cons. Qed.

Lemma strip_go_keeps (a rest : string) :
  has "<" a = false → Str.strip_go 0 (a +:+ rest) = a +:+ Str.strip_go 0 rest.
Proof.
  induction a as [|c a IH]; [done|].
  cbn [has]. intros [Hc Ha]%orb_false_elim.
  rewrite !app_cons. cbn [Str.strip_go]. by rewrite Hc, IH.
Qed.

(** Text without a ["<"] is left as it is. *)
Lemma strip_tags_plain (s : string) : has "<" s = false → Str.strip_tags s = s.
Proof.
  intros H. unfold Str.strip_tags.
  rewrite <- (app_empty_r s) at 1. rewrite strip_go_keeps by done.
  apply app_empty_r.
Qed.

(** A tag, ["<"] then a non-empty body without [">"] then [">"], is removed
    with everything between its brackets. *)
Lemma strip_tags_tag (a tag rest : string) :
  has "<" a = false → tag ≠ "" → has ">" tag = false →
  Str.strip_tags (a +:+ "<" +:+ tag +:+ ">" +:+ rest) = a +:+ Str.strip_tags rest.
Proof.
  intros Ha Hne Htag. unfold Str.strip_tags.
  rewrite strip_go_keeps by done. f_equal.
  rewrite app_cons, app_empty_l. cbn [Str.strip_go]. cbn [Ascii.eqb Bool.eqb].
  rewrite (gt_index_closing tag rest) by done.
  destruct tag as [|c tag]; [done|]. cbn [String.length].
  rewrite <- app_assoc_s.
  replace (S (S (String.length tag)))
    with (String.length (String c tag +:+ ">")).
  - apply strip_go_skip.
  - clear. cbn [String.length]. rewrite app_cons. cbn [String.length]. f_equal.
    induction tag as [|d tag IH]; [done|]. rewrite app_cons. cbn [String.length].
    by rewrite IH.
Qed.

(** ** The normaliser *)

Lemma is_empty_true (s : string) : Str.is_empty s = true ↔ s = "".
Proof. by destruct s. Qed.

Lemma speaker_label (callerName : json) (role : string) :
  Js.to_string (speaker callerName (JStr role)) = label callerName role.
Proof.
  unfold speaker, label.
  destruct (String.eqb_spec role "agent") as [->|Hagent]; [done|].
  rewrite decide_False by done.
  destruct (String.eqb_spec role "user") as [->|Huser]; [done|].
  by rewrite decide_False.
Qed.

Lemma line_of_turn (callerName t : json) (rm : string * string) :
  reads_as t rm → line_of callerName t = Ok (kept_line callerName rm).
Proof.
  intros (Hnull & Hrole & Hmsg).
  assert (Hget : ∀ k, Js.get_strict k t = Ok (Js.get k t)) by (by destruct t).
  unfold line_of, kept_line. rewrite !Hget. cbn [bind_res].
  rewrite Hrole, Hmsg. cbn [as_text bind_res].
  set (msg := Str.trim (Str.strip_tags rm.2)).
  rewrite speaker_label. unfold dropped.
  destruct (String.eqb_spec (Str.toLowerCase msg) "none") as [Hnone|Hnone];
    destruct (Str.is_empty msg) eqn:Hemp; cbn [negb andb].
  - rewrite decide_True; [done | by right].
  - rewrite decide_True; [done | by right].
  - rewrite decide_True; [done | left; by apply is_empty_true].
  - rewrite decide_False; [done|]. intros [->|?]; [done | by apply Hnone].
Qed.

(** C7: a turn with a role string and a message text (either may be
    missing: the role then reads "?", the message is empty) contributes the
    line [label: text], where the text is the message with its tags stripped
    and then trimmed, and the label is ["Alfred"] for the role ["agent"], the
    caller's name for ["user"] and the role itself otherwise; it contributes
    nothing when the text is empty or reads "none" in any casing. The lines
    come in the order of the turns. Stripping removes a tag [<...>] with a
    non-empty body together with what is between its brackets. *)
Theorem turns_normalised (callerName : json) (turns : list json)
    (rms : list (string * string)) :
  Forall2 reads_as turns rms →
  lines_of callerName turns = Ok (omap (kept_line callerName) rms)
  ∧ (∀ a tag rest, has "<" a = false → tag ≠ "" → has ">" tag = false →
       Str.strip_tags (a +:+ "<" +:+ tag +:+ ">" +:+ rest) = a +:+ Str.strip_tags rest).
Proof.
  intros Hturns. split; [| apply strip_tags_tag].
  induction Hturns as [|t rm turns rms Ht _ IH]; [done|].
  cbn [lines_of omap list_omap]. rewrite (line_of_turn _ _ _ Ht), IH. cbn [bind_res].
  by destruct (kept_line callerName rm).
Qed.

Lemma turns_normalised_witness :
  lines_of (JStr "Mom")
    [turn "agent" "Hello <break time=1s/>there "; turn "user" " None ";
     turn "user" "<b></b>"; turn "user" "lunch on Sunday"; turn "operator" "bye";
     JObj [("message", JStr "who is this?")]; JObj [("role", JStr "user")]]
  = Ok ["Alfred: Hello there"; "Mom: lunch on Sunday"; "operator: bye";
        "?: who is this?"].
Proof.
  refine (proj1 (turns_normalised (JStr "Mom") _
    [("agent", "Hello <break time=1s/>there "); ("user", " None ");
     ("user", "<b></b>"); ("user", "lunch on Sunday"); ("operator", "bye");
     ("?", "who is this?"); ("user", "")] _)).
  repeat constructor; discriminate.
Defined.

(** ** Splitting and trimming *)

Lemma split_nonempty (sep : ascii) (s : string) : Str.split sep s ≠ [].
Proof.
  induction s as [|c s IH]; [done|]. cbn [Str.split].
  destruct (Ascii.eqb c sep); [done|]. by destruct (Str.split sep s).
Qed.

Lemma split_cons (sep c : ascii) (s : string) :
  Ascii.eqb c sep = false →
  ∃ piece pieces, Str.split sep s = piece :: pieces
                  ∧ Str.split sep (String c s) = String c piece :: pieces.
Proof.
  intros Hc. cbn [Str.split]. rewrite Hc.
  destruct (Str.split sep s) as [|piece pieces] eqn:E; [by apply split_nonempty in E|].
  eauto.
Qed.

Lemma split_app (sep : ascii) (a b : string) :
  Str.split sep (a +:+ String sep b) = Str.split sep a ++ Str.split sep b.
Proof.
  induction a as [|c a IH].
  - rewrite app_empty_l. cbn [Str.split]. by rewrite Ascii.eqb_refl.
  - rewrite app_cons. destruct (Ascii.eqb c sep) eqn:Hc.
    + cbn [Str.split]. by rewrite Hc, IH.
    + destruct (split_cons sep c a Hc) as (piece & pieces & Ha & ->).
      cbn [Str.split]. rewrite Hc, IH, Ha. done.
Qed.

Lemma split_plain (sep : ascii) (s : string) :
  has sep s = false → Str.split sep s = [s].
Proof.
  induction s as [|c s IH]; [done|].
  cbn [has]. intros [Hc Hs]%orb_false_elim.
  cbn [Str.split]. by rewrite Hc, IH.
Qed.

Lemma trimEnd_blank_suffix (s t : string) :
  Str.trimEnd t = "" → Str.trimEnd (s +:+ t) = Str.trimEnd s.
Proof.
  intros Ht. induction s as [|c s IH]; [done|].
  rewrite app_cons. cbn [Str.trimEnd]. by rewrite IH.
Qed.

Lemma trimEnd_prefix (a b : string) :
  Str.trimEnd b ≠ "" → Str.trimEnd (a +:+ b) = a +:+ Str.trimEnd b.
Proof.
  intros Hb. induction a as [|c a IH]; [done|].
  rewrite !app_cons. cbn [Str.trimEnd]. rewrite IH.
  destruct (a +:+ Str.trimEnd b) eqn:E.
  - destruct a; [by rewrite app_empty_l in E | by rewrite app_cons in E].
  - cbn [Str.is_empty]. by rewrite andb_false_r.
Qed.

Lemma trimStart_prefix (a b : string) :
  a ≠ "" → Str.trimStart a = a → Str.trimStart (a +:+ b) = a +:+ b.
Proof.
  destruct a as [|c a]; [done|]. intros _. rewrite app_cons. cbn [Str.trimStart].
  destruct (Str.is_space c); [|done].
  intros H. exfalso.
  assert (Hlen : ∀ s, String.length (Str.trimStart s) ≤ String.length s).
  { clear. induction s as [|c s IH]; [done|]. cbn [Str.trimStart].
    destruct (Str.is_space c); cbn [String.length]; lia. }
  specialize (Hlen a). rewrite H in Hlen. cbn [String.length] in Hlen. lia.
Qed.

(** ** The ledger round trip: what [markProcessed] wrote, [loadProcessed]
    reads back *)

Lemma concat_cons2 (sep p q : string) (r : list string) :
  String.concat sep (p :: q :: r) = p +:+ sep +:+ String.concat sep (q :: r).
Proof. reflexivity. Qed.

Lemma app_nonempty_l (a b : string) : a ≠ "" → a +:+ b ≠ "".
Proof. by destruct a. Qed.

Lemma concat_nonempty (sep p : string) (r : list string) :
  p ≠ "" → String.concat sep (p :: r) ≠ "".
Proof.
  intros Hp. destruct r as [|q r]; [done|].
  rewrite concat_cons2. by apply app_nonempty_l.
Qed.

Lemma trimEnd_ledger_of (p : string) (ps : list string) :
  Forall clean (p :: ps) →
  Str.trimEnd (ledger_of (p :: ps)) = String.concat nl (p :: ps).
Proof.
  revert p. induction ps as [|q r IH]; intros p Hclean.
  - apply Forall_cons_1 in Hclean as [(_ & _ & _ & Hend) _].
    cbn [ledger_of String.concat]. by rewrite trimEnd_blank_suffix.
  - apply Forall_cons_1 in Hclean as [_ Hrest].
    change (ledger_of (p :: q :: r)) with (p +:+ nl +:+ ledger_of (q :: r)).
    rewrite concat_cons2, <- !app_assoc_s.
    rewrite trimEnd_prefix; rewrite (IH q Hrest); [done|].
    apply concat_nonempty. by apply Forall_cons_1 in Hrest as [(? & _) _].
Qed.

Lemma split_concat (p : string) (ps : list string) :
  Forall clean (p :: ps) → Str.split "010" (String.concat nl (p :: ps)) = p :: ps.
Proof.
  revert p. induction ps as [|q r IH]; intros p Hclean;
    apply Forall_cons_1 in Hclean as [(_ & Hnl & _) Hrest].
  - by apply split_plain.
  - rewrite concat_cons2. unfold nl at 1. rewrite app_cons, app_empty_l.
    by rewrite split_app, split_plain, IH.
Qed.

Lemma filter_nonempty (ps : list string) :
  Forall clean ps → filter (λ s, s ≠ "") ps = ps.
Proof.
  induction 1 as [|p ps [Hp _] _ IH]; [done|].
  by rewrite filter_cons_True, IH.
Qed.

Lemma loadProcessed_default (led : option string) :
  loadProcessed led = loadProcessed (Some (default "" led)).
Proof. by destruct led. Qed.

Lemma loadProcessed_ledger_of (ps : list string) :
  Forall clean ps → loadProcessed (Some (ledger_of ps)) = list_to_set ps.
Proof.
  intros Hclean. destruct ps as [|p ps]; [done|].
  unfold loadProcessed, Str.trim.
  assert (Hstart : Str.trimStart (ledger_of (p :: ps)) = ledger_of (p :: ps)).
  { apply Forall_cons_1 in Hclean as [(Hp & _ & Hs & _) _].
    by apply trimStart_prefix. }
  by rewrite Hstart, trimEnd_ledger_of, split_concat, filter_nonempty.
Qed.

Lemma loadProcessed_holds (w : world) (ps : list string) :
  holds w ps → loadProcessed (ledger w) = list_to_set ps.
Proof.
  intros [Hled Hclean].
  by rewrite loadProcessed_default, Hled, loadProcessed_ledger_of.
Qed.

Lemma ledger_of_snoc (ps : list string) (p : string) :
  ledger_of (ps ++ [p]) = ledger_of ps +:+ p +:+ nl.
Proof.
  induction ps as [|q ps IH]; cbn [ledger_of app].
  - by rewrite app_empty_r.
  - by rewrite IH, !app_assoc_s.
Qed.

(** ** Paths of mailbox entries *)

Lemma join_eq (a b : string) : join a b = a +:+ String "/" b.
Proof. unfold join. by rewrite app_cons, app_empty_l. Qed.

Lemma path_pieces (t d f : string) :
  has "/" d = false → has "/" f = false →
  reverse (Str.split "/" (join (join t d) f)) = f :: d :: reverse (Str.split "/" t).
Proof.
  intros Hd Hf. rewrite !join_eq, app_assoc_s, app_cons.
  rewrite !split_app, (split_plain _ d Hd), (split_plain _ f Hf).
  by rewrite !reverse_app.
Qed.

Lemma fileName_join (t d f : string) :
  has "/" d = false → has "/" f = false → fileName (join (join t d) f) = f.
Proof.
  intros Hd Hf. unfold fileName.
  rewrite <- (reverse_involutive (Str.split _ _)), path_pieces by done.
  by rewrite reverse_cons, last_snoc.
Qed.

Lemma dateStr_join (t d f : string) :
  has "/" d = false → has "/" f = false → dateStr (join (join t d) f) = d.
Proof. intros Hd Hf. unfold dateStr. by rewrite path_pieces. Qed.

Lemma join_inj (t d f d' f' : string) :
  has "/" d = false → has "/" f = false → has "/" d' = false → has "/" f' = false →
  join (join t d) f = join (join t d') f' → d = d' ∧ f = f'.
Proof.
  intros Hd Hf Hd' Hf' E. split.
  - rewrite <- (dateStr_join t d f), <- (dateStr_join t d' f') by done. by rewrite E.
  - rewrite <- (fileName_join t d f), <- (fileName_join t d' f') by done. by rewrite E.
Qed.

Lemma endsWith_app (p s : string) :
  Str.endsWith p s = true → ∃ g, s = g +:+ p.
Proof.
  induction s as [|c s IH]; cbn [Str.endsWith].
  - rewrite orb_false_r. intros ->%String.eqb_eq. by exists "".
  - intros [->%String.eqb_eq | H]%orb_true_iff; [by exists ""|].
    destruct (IH H) as [g ->]. by exists (String c g).
Qed.

Lemma clean_path (t d f : string) :
  has "010" t = false → Str.trimStart t = t → plain d → plain f →
  Str.endsWith ".json" f = true → clean (join (join t d) f).
Proof.
  intros Ht Hstart [_ Hd] [_ Hf] [g ->]%endsWith_app.
  rewrite !join_eq. repeat split.
  - destruct t; [done | by rewrite app_cons].
  - rewrite has_app in Hf. apply orb_false_elim in Hf as [Hg _].
    rewrite !has_app. cbn [has]. rewrite !has_app. by rewrite Ht, Hd, Hg.
  - destruct t as [|c t]; [done|].
    rewrite app_assoc_s. by apply (trimStart_prefix (String c t)).
  - rewrite <- app_cons, <- app_assoc_s. by rewrite trimEnd_prefix.
Qed.

(** ** Counting warnings and failed calls *)

Lemma warnings_app (d1 d2 : list event) : warnings (d1 ++ d2) = warnings d1 + warnings d2.
Proof. unfold warnings. by rewrite filter_app, length_app. Qed.

Lemma marked_app (d1 d2 : list event) : marked (d1 ++ d2) = marked d1 ++ marked d2.
Proof. apply omap_app. Qed.

Lemma failures_none (api : host) (n : nat) : failures api n n = 0.
Proof. unfold failures. by rewrite Nat.sub_diag. Qed.

Lemma failures_one (api : host) (n : nat) :
  failures api n (S n) = match failure api n with Some _ => 1 | None => 0 end.
Proof.
  unfold failures. replace (S n - n) with 1 by lia. cbn [seq].
  destruct (failure api n) eqn:E.
  - rewrite filter_cons_True; [done | by rewrite E].
  - rewrite filter_cons_False; [done | rewrite E; by intros []].
Qed.

Lemma failures_split (api : host) (a b c : nat) :
  a ≤ b → b ≤ c → failures api a c = failures api a b + failures api b c.
Proof.
  intros Hab Hbc. unfold failures.
  replace (c - a) with ((b - a) + (c - b)) by lia.
  rewrite seq_app, filter_app, length_app.
  by replace (a + (b - a)) with b by lia.
Qed.

Lemma failures_two (api : host) (n : nat) :
  failures api n (S (S n)) = failures api n (S n) + failures api (S n) (S (S n)).
Proof. apply failures_split; lia. Qed.

Lemma extends_refl (api : host) (w : world) : extends api w w [].
Proof.
  repeat split; [by rewrite app_nil_r | done | by rewrite failures_none].
Qed.

Lemma extends_trans (api : host) (w1 w2 w3 : world) (d1 d2 : list event) :
  extends api w1 w2 d1 → extends api w2 w3 d2 → extends api w1 w3 (d1 ++ d2).
Proof.
  intros (Hl1 & Ht1 & Hc1 & Hm1 & Hw1) (Hl2 & Ht2 & Hc2 & Hm2 & Hw2).
  repeat split.
  - congruence.
  - by rewrite Ht2, Ht1, app_assoc.
  - lia.
  - by rewrite marked_app, Hm1, Hm2.
  - rewrite warnings_app, Hw1, Hw2. symmetry. by apply failures_split.
Qed.

(** ** The sinks, one at a time *)

(** Closes the goals left by running a sink on a world: the cases of the
    host's answers are split, the new world is read off, then the
    bookkeeping of [extends] is checked. *)
Ltac sink_cases :=
  repeat (cbn [calls ledger dirs files trace];
          match goal with
          | |- context [failure ?api ?n] =>
              let E := fresh "E" in destruct (failure api n) eqn:E
          end).

Ltac extends_now :=
  split; [reflexivity | split; [cbn; rewrite <- ?app_assoc; reflexivity |
  split; [cbn; lia | split; [reflexivity |
  cbn [calls]; rewrite ?failures_two, ?failures_one, ?failures_none;
  repeat match goal with E : failure _ _ = _ |- _ => rewrite E; clear E end;
  reflexivity]]]].

Ltac tagged_now :=
  repeat (apply Forall_cons; split; [first [by left | by right]|]); by apply Forall_nil.

Ltac quiet_now :=
  split; [done | split; [done|]];
  repeat (apply Forall_cons; split; [done|]); by apply Forall_nil.

Section SinkSteps.

Context (api : host).

Lemma notify_extends (entry message : string) (w : world) :
  ∃ w' delta, notify api entry message w = (Ok (), w')
    ∧ extends api w w' delta
    ∧ quiet w w' delta
    ∧ (has_invoke api = true → Chat entry message ∈ delta)
    ∧ Forall (λ e, entry_of e = Some entry ∨ is_log e = true) delta.
Proof.
  unfold notify, try_catch, outside, log, emit, ret.
  destruct (has_invoke api); sink_cases;
    [| | exists w, []; split; [done|]; split; [apply extends_refl | done]];
    (eexists _, _; split; [reflexivity|]; split; [extends_now|]);
    cbn; (split; [quiet_now|]); (split; [intros _; left | tagged_now]).
Qed.

Lemma summarize_extends (cfg : config) (entry task : string) (w : world) :
  ∃ w' delta, summarize api cfg entry task w = (Ok (), w')
    ∧ extends api w w' delta
    ∧ quiet w w' delta
    ∧ (has_invoke api = true → ∃ model, Spawn entry task model ∈ delta)
    ∧ Forall (λ e, entry_of e = Some entry ∨ is_log e = true) delta.
Proof.
  unfold summarize, try_catch, outside, log, emit, ret.
  destruct (has_invoke api); sink_cases;
    [| | exists w, []; split; [done|]; split; [apply extends_refl | done]];
    (eexists _, _; split; [reflexivity|]; split; [extends_now|]);
    cbn; (split; [quiet_now|]); (split; [intros _; eexists; left | tagged_now]).
Qed.

Lemma writeInbox_extends (entry dir name content : string) (w : world) :
  ∃ w' delta, writeInbox api entry dir name content w = (Ok (), w')
    ∧ extends api w w' delta
    ∧ ((∃ d, Mkdir entry d ∈ delta) ∨ (∃ p c, WriteFile entry p c ∈ delta))
    ∧ Forall (λ e, entry_of e = Some entry ∨ is_log e = true) delta.
Proof.
  unfold writeInbox, try_catch, existsSync, mkdirSync, writeFileSync, bind,
    outside, log, emit, ret.
  destruct (bool_decide (dir ∈ dirs w)); cbn [calls]; sink_cases;
    (eexists _, _; split; [reflexivity|]; split; [extends_now|]);
    cbn; (split; [first [left; eexists; by left | right; eexists _, _; by left]
                 | tagged_now]).
Qed.


End SinkSteps.

Section Sinks.

Context (homedir : string) (StringToNumber : string → option Z).
Context (api : host).

Lemma inbox_extends (cfg : config) (entry : string)
    (callerName userPhone conversationId : json)
    (dateStr timeStr durationStr transcriptText : string) (w : world) :
  (inbox_on cfg = true → ∃ name, callerName = JStr name) →
  ∃ w' delta,
    inbox homedir api cfg entry callerName userPhone conversationId
      dateStr timeStr durationStr transcriptText w = (Ok (), w')
    ∧ extends api w w' delta
    ∧ (inbox_on cfg = true →
       (∃ d, Mkdir entry d ∈ delta) ∨ (∃ p c, WriteFile entry p c ∈ delta))
    ∧ Forall (λ e, entry_of e = Some entry ∨ is_log e = true) delta.
Proof.
  unfold inbox, inbox_on. intros Hname.
  destruct (inboxDir cfg) as [d|];
    [destruct (Str.is_empty d) |];
    try (exists w, []; split; [done|]; split; [apply extends_refl | done]).
  destruct Hname as [name ->]; [done|].
  unfold bind, lift. cbn [callerSlug].
  match goal with
  | |- context [writeInbox api ?e ?d ?n ?c w] =>
      destruct (writeInbox_extends api e d n c w) as (w' & delta & -> & ? & ? & ?)
  end.
  by exists w', delta.
Qed.

Lemma inbox_aborts (cfg : config) (entry : string)
    (callerName userPhone conversationId : json)
    (dateStr timeStr durationStr transcriptText e : string) (w : world) :
  inbox_on cfg = true → callerSlug callerName = Throw e →
  inbox homedir api cfg entry callerName userPhone conversationId
    dateStr timeStr durationStr transcriptText w = (Throw e, w).
Proof.
  unfold inbox, inbox_on. intros Hon Hslug.
  destruct (inboxDir cfg) as [d|]; [|done]. destruct (Str.is_empty d); [done|].
  unfold bind, lift. by rewrite Hslug.
Qed.

(** ** [processTranscript], by the verdict on the entry *)

Lemma verdict_rejected (cfg : config) (content : raw) (e : string) :
  verdict_of cfg content = Rejected e →
  content = Throw e
  ∨ ∃ data, content = Ok data
      ∧ dialogue (resolveCallerName (userPhone data) (contacts cfg)) data = Throw e.
Proof.
  unfold verdict_of. destruct content as [data|e']; [|intros [= ->]; by left].
  destruct (dialogue _ data) as [[|l ls]|e'] eqn:E; try done.
  - destruct (inbox_on cfg); [destruct (callerSlug _)|]; done.
  - intros [= ->]. right. by exists data.
Qed.

Lemma processTranscript_rejected (cfg : config) (filePath : string)
    (content : raw) (e : string) (w : world) :
  verdict_of cfg content = Rejected e →
  processTranscript homedir StringToNumber api cfg filePath content w = (Throw e, w).
Proof.
  intros [-> | (data & -> & Hd)]%verdict_rejected; [done|].
  unfold processTranscript, bind, lift. by rewrite Hd.
Qed.

Lemma processTranscript_empty (cfg : config) (filePath : string)
    (content : raw) (w : world) :
  verdict_of cfg content = Empty →
  processTranscript homedir StringToNumber api cfg filePath content w
  = markProcessed filePath w.
Proof.
  unfold verdict_of. destruct content as [data|e']; [|done].
  destruct (dialogue _ data) as [[|l ls]|e'] eqn:E; try done.
  - intros _. unfold processTranscript, bind, lift. by rewrite E.
  - destruct (inbox_on cfg); [destruct (callerSlug _)|]; done.
Qed.

Lemma processTranscript_delivered (cfg : config) (filePath : string)
    (content : raw) (w : world) :
  verdict_of cfg content = Delivered →
  ∃ w' delta,
    processTranscript homedir StringToNumber api cfg filePath content w = (Ok (), w')
    ∧ ledger w' = appendFile (ledger w) (filePath +:+ nl)
    ∧ trace w' = trace w ++ delta
    ∧ (calls w ≤ calls w')%nat
    ∧ marked delta = [filePath]
    ∧ warnings delta = failures api (calls w) (calls w')
    ∧ (has_invoke api = true →
       (∃ m, Chat filePath m ∈ delta) ∧ (∃ t model, Spawn filePath t model ∈ delta))
    ∧ (inbox_on cfg = true →
       (∃ d, Mkdir filePath d ∈ delta) ∨ (∃ p c, WriteFile filePath p c ∈ delta))
    ∧ Forall (λ e, entry_of e = Some filePath ∨ is_log e = true) delta
    ∧ (∃ sinks logged, delta = sinks ++ [Mark filePath; Log Info logged]).
Proof.
  unfold verdict_of. destruct content as [data|e']; [|done].
  destruct (dialogue _ data) as [[|l ls]|e'] eqn:E; try done.
  intros Hv.
  assert (Hname : inbox_on cfg = true →
            ∃ name, resolveCallerName (userPhone data) (contacts cfg) = JStr name).
  { intros Hon. rewrite Hon in Hv.
    destruct (resolveCallerName _ _); try done. by eexists. }
  clear Hv. unfold processTranscript, bind at 1 2, lift. rewrite E.
  unfold bind.
  match goal with
  | |- context [notify api ?p ?m w] =>
      destruct (notify_extends api p m w) as (w1 & d1 & -> & X1 & _ & C1 & T1)
  end.
  match goal with
  | |- context [summarize api ?c ?p ?t w1] =>
      destruct (summarize_extends api c p t w1) as (w2 & d2 & -> & X2 & _ & C2 & T2)
  end.
  match goal with
  | |- context [inbox homedir api ?c ?p ?a1 ?a2 ?a3 ?a4 ?a5 ?a6 ?a7 w2] =>
      destruct (inbox_extends c p a1 a2 a3 a4 a5 a6 a7 w2 Hname)
        as (w3 & d3 & -> & X3 & C3 & T3)
  end.
  pose proof (extends_trans _ _ _ _ _ _ (extends_trans _ _ _ _ _ _ X1 X2) X3)
    as (Hl & Ht & Hc & Hm & Hw).
  eexists _, (((d1 ++ d2) ++ d3) ++ [Mark filePath; Log Info _]).
  split; [reflexivity|]. cbn [ledger trace calls markProcessed log emit].
  split; [by rewrite Hl|].
  split; [rewrite Ht; by rewrite <- !app_assoc|].
  split; [done|].
  split; [by rewrite marked_app, Hm|].
  split; [rewrite warnings_app, Hw; change (warnings [Mark _; Log Info _]) with 0; lia|].
  split; [|split; [|split]].
  - intros H. destruct (C2 H) as [model ?]. specialize (C1 H).
    split; [eexists | eexists _, model]; rewrite !elem_of_app; eauto.
  - intros Hon. destruct (C3 Hon) as [[d ?] | (p & c & ?)];
      [left; exists d | right; exists p, c]; rewrite !elem_of_app; eauto.
  - rewrite !Forall_app. repeat split; try done. tagged_now.
  - by eexists _, _.
Qed.

Lemma processTranscript_aborted (cfg : config) (filePath : string)
    (content : raw) (e : string) (w : world) :
  verdict_of cfg content = Aborted e →
  ∃ w' delta,
    processTranscript homedir StringToNumber api cfg filePath content w = (Throw e, w')
    ∧ extends api w w' delta
    ∧ (has_invoke api = true →
       (∃ m, Chat filePath m ∈ delta) ∧ (∃ t model, Spawn filePath t model ∈ delta))
    ∧ Forall (λ e, entry_of e = Some filePath ∨ is_log e = true) delta.
Proof.
  unfold verdict_of. destruct content as [data|e']; [|done].
  destruct (dialogue _ data) as [[|l ls]|e'] eqn:E; try done.
  destruct (inbox_on cfg) eqn:Hon; [|done].
  destruct (callerSlug _) as [|e'] eqn:Hslug; [done|]. intros [= ->].
  unfold processTranscript, bind at 1 2, lift. rewrite E.
  unfold bind.
  match goal with
  | |- context [notify api ?p ?m w] =>
      destruct (notify_extends api p m w) as (w1 & d1 & -> & X1 & _ & C1 & T1)
  end.
  match goal with
  | |- context [summarize api ?c ?p ?t w1] =>
      destruct (summarize_extends api c p t w1) as (w2 & d2 & -> & X2 & _ & C2 & T2)
  end.
  rewrite (inbox_aborts _ _ _ _ _ _ _ _ _ e w2 Hon Hslug).
  exists w2, (d1 ++ d2). split; [done|]. split; [by eapply extends_trans|].
  split.
  - intros H. destruct (C2 H) as [model ?]. specialize (C1 H).
    split; [eexists | eexists _, model]; rewrite !elem_of_app; eauto.
  - by rewrite Forall_app.
Qed.

End Sinks.

(** ** A scan as one loop over its work list *)

Section Scan.

Context (homedir : string) (StringToNumber : string → option Z).
Context (api : host) (cfg : config).

Lemma for_each_app {A} (step : A → M unit) (l1 l2 : list A) (w : world) :
  for_each step (l1 ++ l2) w =
    match for_each step l1 w with
    | (Ok _, w') => for_each step l2 w'
    | (Throw e, w') => (Throw e, w')
    end.
Proof.
  revert w. induction l1 as [|x l1 IH]; intros w; [done|].
  cbn [for_each app]. unfold bind.
  destruct (step x w) as [[[]|e] w1]; [apply IH | done].
Qed.

Lemma for_each_fmap {A B} (h : A → B) (step : B → M unit) (l : list A) (w : world) :
  for_each step (h <$> l) w = for_each (λ a, step (h a)) l w.
Proof.
  revert w. induction l as [|x l IH]; intros w; [done|].
  cbn [for_each fmap list_fmap]. unfold bind.
  destruct (step (h x) w) as [[[]|e] w1]; [apply IH | done].
Qed.

Lemma scan_dir_entries (transcriptDir : string) (processed : gset string)
    (l : list (string * bucket)) (dateDir : string) (w : world) :
  scan_dir homedir StringToNumber api cfg transcriptDir processed l dateDir w
  = for_each (scan1 homedir StringToNumber api cfg processed)
      (entries_of transcriptDir l dateDir) w.
Proof.
  unfold scan_dir, entries_of.
  destruct (Str.startsWith "." dateDir); [done|].
  destruct (readdir l dateDir) as [entries|e]; [|done].
  by rewrite for_each_fmap.
Qed.

Lemma scan_work_list (transcriptDir : string) (l : list (string * bucket)) (w : world) :
  scanAndProcessTranscripts homedir StringToNumber api cfg transcriptDir (Some (Ok l)) w
  = for_each (scan1 homedir StringToNumber api cfg (loadProcessed (ledger w)))
      (visible transcriptDir l) w.
Proof.
  unfold scanAndProcessTranscripts, visible, bind, lift.
  generalize (loadProcessed (ledger w)) as processed. intros processed.
  generalize (dateDirs l) as ds. intros ds. revert w.
  induction ds as [|d ds IH]; intros w; [done|].
  cbn [for_each mbind list_bind]. rewrite for_each_app, <- scan_dir_entries.
  unfold bind.
  destruct (scan_dir _ _ _ _ _ _ _ _ w) as [[[]|e] w1]; [apply IH | done].
Qed.

Lemma ledger_of_app (ps qs : list string) :
  ledger_of (ps ++ qs) = ledger_of ps +:+ ledger_of qs.
Proof.
  induction ps as [|p ps IH]; [done|].
  cbn [ledger_of app]. by rewrite IH, !app_assoc_s.
Qed.

Lemma ledger_after_marks (led : option string) (ps : list string) :
  default "" (foldl (λ led p, appendFile led (p +:+ nl)) led ps)
  = default "" led +:+ ledger_of ps.
Proof.
  revert led. induction ps as [|p ps IH]; intros led; cbn [foldl ledger_of].
  - by rewrite app_empty_r.
  - rewrite IH. unfold appendFile. cbn [default from_option id]. by rewrite !app_assoc_s.
Qed.

Lemma sink_of_tagged (entry : string) (delta : list event) (e : event) :
  Forall (λ e, entry_of e = Some entry ∨ is_log e = true) delta →
  e ∈ delta → is_sink e = true → entry_of e = Some entry.
Proof.
  intros Hall He Hsink. rewrite Forall_forall in Hall.
  destruct (Hall e He) as [|Hlog]; [done|]. by destruct e.
Qed.

(** One round of the loop. *)
Lemma scan1_scanned (processed : gset string) (x : string * (string * raw)) (w : world) :
  ∃ w' delta, scan1 homedir StringToNumber api cfg processed x w = (Ok (), w')
              ∧ scanned cfg processed [x] w w' delta.
Proof.
  unfold scan1, scan_file, scanned, marks_of. cbn [omap list_omap].
  change (join x.1 x.2.1) with (path_of x). unfold pending at 1 2.
  destruct (decide (path_of x ∉ processed)) as [Hpend|Hdone].
  2:{ rewrite bool_decide_true by (by apply dec_stable).
      exists w, []. split; [done|]. rewrite app_nil_r. cbn [marked omap list_omap foldl].
      repeat split; try done.
      - intros e He. by apply elem_of_nil in He.
      - intros y e ->%list_elem_of_singleton Hy. by destruct Hdone. }
  rewrite bool_decide_false by done. unfold try_catch.
  destruct (verdict_of cfg x.2.2) as [e| |e|] eqn:Hv; cbn [runs_through].
  - rewrite processTranscript_rejected with (e := e) by done.
    eexists _, [failed_to_process x.2.1 e]. split; [reflexivity|]. cbn.
    repeat split; try done.
    + intros e' ->%list_elem_of_singleton. done.
    + intros y e' ->%list_elem_of_singleton _ [Hy|Hy]; rewrite Hv in Hy;
        simplify_eq. by left.
  - rewrite processTranscript_empty by done.
    eexists _, [Mark (path_of x)]. split; [reflexivity|]. cbn.
    repeat split; try done.
    + intros e' ->%list_elem_of_singleton. done.
    + intros y e' ->%list_elem_of_singleton _ [Hy|Hy]; rewrite Hv in Hy; done.
  - destruct (processTranscript_aborted homedir StringToNumber api cfg
                (path_of x) _ e w Hv) as (w1 & d1 & -> & (Hl & Ht & _ & Hm & _) & _ & Htag).
    eexists _, (d1 ++ [failed_to_process x.2.1 e]). split; [reflexivity|].
    cbn [trace ledger log emit].
    rewrite marked_app, Hm, Ht, Hl, <- app_assoc. cbn.
    repeat split; try done.
    + intros e' [He' | ->%list_elem_of_singleton]%elem_of_app Hsink; [|done].
      exists x. rewrite Hv. repeat split; try done; [by left|].
      by eapply sink_of_tagged.
    + intros y e' ->%list_elem_of_singleton _ [Hy|Hy]; rewrite Hv in Hy;
        simplify_eq. apply elem_of_app. right. by left.
  - destruct (processTranscript_delivered homedir StringToNumber api cfg
                (path_of x) _ w Hv)
      as (w1 & d1 & -> & Hl & Ht & _ & Hm & _ & _ & _ & Htag & _).
    exists w1, d1. split; [done|]. rewrite Hm, Hl. cbn.
    repeat split; try done.
    + intros e' He' Hsink. exists x. rewrite Hv. repeat split; try done; [by left|].
      by eapply sink_of_tagged.
    + intros y e' ->%list_elem_of_singleton _ [Hy|Hy]; rewrite Hv in Hy; done.
Qed.

Lemma scanned_app (processed : gset string) (t1 t2 : list (string * (string * raw)))
    (w1 w2 w3 : world) (d1 d2 : list event) :
  scanned cfg processed t1 w1 w2 d1 → scanned cfg processed t2 w2 w3 d2 →
  scanned cfg processed (t1 ++ t2) w1 w3 (d1 ++ d2).
Proof.
  intros (Ht1 & Hl1 & Hm1 & Hs1 & Hf1) (Ht2 & Hl2 & Hm2 & Hs2 & Hf2).
  unfold scanned, marks_of in *. repeat split.
  - by rewrite Ht2, Ht1, app_assoc.
  - by rewrite Hl2, Hl1, marked_app, foldl_app.
  - by rewrite marked_app, omap_app, Hm1, Hm2.
  - intros e [He|He]%elem_of_app Hsink;
      [destruct (Hs1 e He Hsink) as (x & ? & ?) | destruct (Hs2 e He Hsink) as (x & ? & ?)];
      exists x; (split; [|done]); apply elem_of_app; auto.
  - intros x e [Hx|Hx]%elem_of_app Hp Hthrow; apply elem_of_app; eauto.
Qed.

(** The whole loop. *)
Lemma for_each_scanned (processed : gset string)
    (todo : list (string * (string * raw))) (w : world) :
  ∃ w' delta,
    for_each (scan1 homedir StringToNumber api cfg processed) todo w = (Ok (), w')
    ∧ scanned cfg processed todo w w' delta.
Proof.
  revert w. induction todo as [|x todo IH]; intros w.
  - exists w, []. split; [done|]. unfold scanned. rewrite app_nil_r. cbn.
    repeat split; try done.
    + intros e He. by apply elem_of_nil in He.
    + intros x e Hx. by apply elem_of_nil in Hx.
  - destruct (scan1_scanned processed x w) as (w1 & d1 & E1 & S1).
    destruct (IH w1) as (w2 & d2 & E2 & S2).
    exists w2, (d1 ++ d2). split.
    + cbn [for_each]. unfold bind. by rewrite E1.
    + by apply (scanned_app processed [x] todo w w1 w2).
Qed.

End Scan.

(** ** The work list of a tidy mailbox *)

Lemma lookup_name_elem {A} (name : string) (l : list (string * A)) (a : A) :
  lookup_name name l = Some a → (name, a) ∈ l.
Proof.
  induction l as [|[n b] l IH]; [done|]. cbn [lookup_name].
  destruct (String.eqb_spec name n) as [->|Hne].
  - intros [= ->]. by left.
  - intros H. right. by apply IH.
Qed.

Lemma elem_lookup_name {A} (name : string) (l : list (string * A)) (a : A) :
  NoDup l.*1 → (name, a) ∈ l → lookup_name name l = Some a.
Proof.
  induction l as [|[n b] l IH]; intros Hnd Hin; [by apply elem_of_nil in Hin|].
  cbn [fmap list_fmap fst] in Hnd. apply NoDup_cons in Hnd as [Hn Hnd].
  cbn [lookup_name]. apply elem_of_cons in Hin as [[= <- <-] | Hin].
  - by rewrite String.eqb_refl.
  - destruct (String.eqb_spec name n) as [->|Hne]; [|by apply IH].
    destruct Hn. apply list_elem_of_fmap. by exists (n, a).
Qed.

Lemma readdir_elem (l : list (string * bucket)) (d : string)
    (entries : list (string * raw)) :
  readdir l d = Ok entries → (d, Ok entries) ∈ l.
Proof.
  unfold readdir. destruct (lookup_name d l) as [b|] eqn:E; [|done].
  cbn. intros ->. by apply lookup_name_elem.
Qed.

Lemma elem_dateDirs (l : list (string * bucket)) (d : string) :
  d ∈ dateDirs l ↔ d ∈ l.*1.
Proof. by rewrite (proj2 (dateDirs_descending l)). Qed.

Lemma jsonFiles_elem (entries : list (string * raw)) (f : string * raw) :
  f ∈ jsonFiles entries ↔ Str.endsWith ".json" f.1 = true ∧ f ∈ entries.
Proof. unfold jsonFiles. by rewrite list_elem_of_filter. Qed.

(** What it takes to be on the work list. *)
Lemma visible_elem (t : string) (l : list (string * bucket)) (x : string * (string * raw)) :
  x ∈ visible t l ↔
  ∃ d entries, x.1 = join t d ∧ d ∈ l.*1 ∧ Str.startsWith "." d = false
               ∧ readdir l d = Ok entries ∧ x.2 ∈ entries
               ∧ Str.endsWith ".json" x.2.1 = true.
Proof.
  unfold visible. rewrite list_elem_of_bind. split.
  - intros (d & Hx & Hd%elem_dateDirs). unfold entries_of in Hx.
    destruct (Str.startsWith "." d) eqn:Hdot; [by apply elem_of_nil in Hx|].
    destruct (readdir l d) as [entries|] eqn:Hread; [|by apply elem_of_nil in Hx].
    apply list_elem_of_fmap in Hx as (f & -> & [Hjson Hf]%jsonFiles_elem).
    by exists d, entries.
  - intros (d & entries & Hx & Hd & Hdot & Hread & Hf & Hjson).
    exists d. split; [|by apply elem_dateDirs].
    unfold entries_of. rewrite Hdot, Hread. apply list_elem_of_fmap.
    exists x.2. split; [| by apply jsonFiles_elem].
    destruct x as [x1 x2]. cbn in *. by rewrite Hx.
Qed.

Section Tidy.

Context (t : string) (l : list (string * bucket)) (Htidy : tidy t l).

Lemma tidy_files (d : string) (entries : list (string * raw)) :
  (d, Ok entries) ∈ l → NoDup entries.*1 ∧ Forall plain entries.*1.
Proof.
  intros Hin. destruct Htidy as (_ & _ & Hall).
  rewrite Forall_forall in Hall. apply (Hall _ Hin).
Qed.

Lemma visible_plain (x : string * (string * raw)) :
  x ∈ visible t l →
  ∃ d entries, x.1 = join t d ∧ plain d ∧ plain x.2.1
               ∧ (d, Ok entries) ∈ l ∧ x.2 ∈ entries
               ∧ Str.endsWith ".json" x.2.1 = true.
Proof.
  intros (d & entries & Hx & Hd & _ & Hread%readdir_elem & Hf & Hjson)%visible_elem.
  exists d, entries. split; [done|]. split; [|split; [|done]].
  - destruct Htidy as (_ & [_ Hplain] & _). rewrite Forall_forall in Hplain.
    by apply Hplain.
  - destruct (tidy_files d entries Hread) as [_ Hplain].
    rewrite Forall_forall in Hplain. apply Hplain, list_elem_of_fmap. by exists x.2.
Qed.

Lemma visible_clean (x : string * (string * raw)) :
  x ∈ visible t l → clean (path_of x).
Proof.
  intros (d & entries & Hx & Hd & Hf & _ & _ & Hjson)%visible_plain.
  unfold path_of. rewrite Hx.
  destruct Htidy as ([Hnl Hstart] & _). by apply clean_path.
Qed.

Lemma pair_unique {A} (k : string) (a b : A) (m : list (string * A)) :
  NoDup m.*1 → (k, a) ∈ m → (k, b) ∈ m → a = b.
Proof.
  intros Hnd Ha%(elem_lookup_name _ _ _ Hnd) Hb%(elem_lookup_name _ _ _ Hnd).
  congruence.
Qed.

(** On the work list, the path tells the entry. *)
Lemma visible_inj (x y : string * (string * raw)) :
  x ∈ visible t l → y ∈ visible t l → path_of x = path_of y → x = y.
Proof.
  intros (d & entries & Hx & [Hd _] & [Hf _] & Hl & Hin & _)%visible_plain
         (d' & entries' & Hy & [Hd' _] & [Hf' _] & Hl' & Hin' & _)%visible_plain.
  unfold path_of. rewrite Hx, Hy. intros [-> Hfile]%join_inj; try done.
  destruct Htidy as (_ & [Hnd _] & _).
  assert (Ok entries = Ok entries') as [= <-] by (by eapply pair_unique).
  destruct (tidy_files _ _ Hl) as [Hndf _].
  destruct x as [x1 [xf xc]], y as [y1 [yf yc]]. cbn in *. subst.
  f_equal. f_equal. by eapply pair_unique.
Qed.

End Tidy.

(** ** A scan of a tidy mailbox over a ledger that holds clean paths *)

Lemma elem_marks_of (cfg : config) (processed : gset string)
    (todo : list (string * (string * raw))) (p : string) :
  p ∈ marks_of cfg processed todo ↔
  ∃ x, x ∈ todo ∧ pending processed x ∧ completes cfg x ∧ p = path_of x.
Proof.
  unfold marks_of, completes. rewrite list_elem_of_omap. split.
  - intros (x & Hx & Hp). exists x.
    destruct (decide (pending processed x)); [|done].
    destruct (verdict_of cfg x.2.2); cbn in Hp; simplify_eq; auto.
  - intros (x & Hx & Hp & Hc & ->). exists x. split; [done|].
    rewrite decide_True by done. by destruct Hc as [-> | ->].
Qed.

Lemma news_app (w w' : world) (delta : list event) :
  trace w' = trace w ++ delta → news w w' = delta.
Proof. unfold news. intros ->. by rewrite drop_app_length. Qed.

Section TidyScan.

Context (homedir : string) (StringToNumber : string → option Z).
Context (cfg : config) (t : string) (l : list (string * bucket)).
Context (Htidy : tidy t l).

Lemma tick_tidy (api : host) (w : world) (ps : list string) :
  holds w ps →
  ∃ w' delta,
    tick homedir StringToNumber api cfg t (Some (Ok l)) w = (Ok (), w')
    ∧ scanAndProcessTranscripts homedir StringToNumber api cfg t (Some (Ok l)) w
      = (Ok (), w')
    ∧ scanned cfg (list_to_set ps) (visible t l) w w' delta
    ∧ holds w' (ps ++ marked delta).
Proof.
  intros Hholds. unfold tick, try_catch. rewrite scan_work_list.
  rewrite (loadProcessed_holds w ps Hholds).
  destruct (for_each_scanned homedir StringToNumber api cfg (list_to_set ps)
              (visible t l) w) as (w' & delta & -> & Hs).
  exists w', delta. split; [done|]. split; [done|]. split; [done|]. split.
  - destruct Hs as (_ & -> & _). destruct Hholds as [Hled _].
    by rewrite ledger_after_marks, Hled, ledger_of_app.
  - destruct Hs as (_ & _ & -> & _). destruct Hholds as [_ Hclean].
    apply Forall_app. split; [done|]. apply Forall_forall.
    intros p (x & Hx & _ & _ & ->)%elem_marks_of. by apply (visible_clean t l).
Qed.

(** After a tick, every entry of the work list that can be processed to its
    end is in the ledger. *)
Lemma tick_completes (api : host) (w w' : world) (ps : list string)
    (delta : list event) (x : string * (string * raw)) :
  scanned cfg (list_to_set ps) (visible t l) w w' delta →
  x ∈ visible t l → completes cfg x →
  path_of x ∈ (list_to_set (ps ++ marked delta) : gset string).
Proof.
  intros (_ & _ & Hm & _) Hx Hc. rewrite Hm.
  rewrite elem_of_list_to_set, elem_of_app.
  destruct (decide (path_of x ∈ ps)) as [|Hnot]; [by left|]. right.
  apply elem_marks_of. exists x. repeat split; try done.
  unfold pending. by rewrite elem_of_list_to_set.
Qed.

End TidyScan.

(** ** Dispatch *)

(** C1 fails on the code: the inbox file name is worked out from the
    caller's name outside the guarded part of the inbox writer, while the
    three sinks themselves are guarded. A call from a number that is not in
    the contacts and reads "constructor" has for caller's name what every
    object inherits under that name, a function; with an inbox configured,
    [toLowerCase] throws on it once the chat message and the summary request
    are out. Whatever the host does and whatever was done before, processing
    throws and the entry is not marked, though its dialogue has a line and
    its JSON parses; the same call from a number the contacts know is
    marked. *)
Theorem inherited_name_not_marked (homedir : string)
    (StringToNumber : string → option Z) (api : host) (w : world) :
  let cfg := Config ∅ (Some "/vault/inbox") None in
  let known := Config {[ "constructor" := "Mom" ]} (Some "/vault/inbox") None in
  let path := "/t/2024-03-01/14-30-00_conv_1.json" in
  let run cfg :=
    processTranscript homedir StringToNumber api cfg path (Ok inherited_name_call) w in
  userPhone inherited_name_call = JStr "constructor"
  ∧ dialogue (resolveCallerName (userPhone inherited_name_call) (contacts cfg))
      inherited_name_call = Ok ["Alfred: hello"]
  ∧ fst (run cfg) = Throw "callerName.toLowerCase is not a function"
  ∧ ledger (snd (run cfg)) = ledger w
  ∧ marked (news w (snd (run cfg))) = []
  ∧ (has_invoke api = true →
     (∃ m, Chat path m ∈ news w (snd (run cfg)))
     ∧ (∃ task model, Spawn path task model ∈ news w (snd (run cfg))))
  ∧ fst (run known) = Ok ()
  ∧ marked (news w (snd (run known))) = [path].
Proof.
  cbv zeta. split; [reflexivity|]. split; [reflexivity|].
  assert (Hv : verdict_of (Config ∅ (Some "/vault/inbox") None)
                 (Ok inherited_name_call)
               = Aborted "callerName.toLowerCase is not a function")
    by (vm_compute; reflexivity).
  assert (Hv' : verdict_of (Config {[ "constructor" := "Mom" ]}
                              (Some "/vault/inbox") None)
                  (Ok inherited_name_call) = Delivered)
    by (vm_compute; reflexivity).
  destruct (processTranscript_aborted homedir StringToNumber api _
              "/t/2024-03-01/14-30-00_conv_1.json" _ _ w Hv)
    as (w1 & d1 & -> & (Hl & Ht & _ & Hm & _) & Hsinks & _).
  destruct (processTranscript_delivered homedir StringToNumber api _
              "/t/2024-03-01/14-30-00_conv_1.json" _ w Hv')
    as (w2 & d2 & -> & _ & Ht2 & _ & Hm2 & _).
  cbn [fst snd]. rewrite (news_app _ _ _ Ht), (news_app _ _ _ Ht2).
  do 4 (split; [done|]). by split.
Qed.

(** Where the contacts do not bind the number to a name, a number that does
    not read as the name of an inherited member resolves to a string. *)
Lemma resolveCallerName_string (phone : string) (contacts : gmap string string) :
  (contacts !! phone = None → Js.inherited phone = None) →
  ∃ name, resolveCallerName (JStr phone) contacts = JStr name.
Proof.
  intros Hplain. unfold resolveCallerName, Js.member. cbn [Js.to_string].
  destruct (contacts !! phone) as [n|]; [destruct (Js.truthy (JStr n))|];
    [| |rewrite Hplain by done]; destruct (Js.truthy (JStr phone)); eauto.
Qed.




(** ** The inbox file *)




(** *** Replacing the first occurrence *)

Lemma substitute_plain (matched before after by_ : string) :
  has "$" by_ = false → Str.substitute matched before after by_ = by_.
Proof.
  induction by_ as [|c r IH]; [done|]. cbn [has Str.substitute].
  intros [Hc Hr]%orb_false_elim. by rewrite Hc, IH.
Qed.

Lemma replace_from_app (before : string) (c : ascii) (by_ pre post : string) :
  has c pre = false →
  Str.replace_from before c by_ (pre +:+ String c post)
  = pre +:+ Str.substitute (String c "") (before +:+ pre) post by_ +:+ post.
Proof.
  revert before. induction pre as [|d pre IH]; intros before; cbn [has].
  - intros _. rewrite !app_empty_l, app_empty_r. cbn [Str.replace_from].
    by rewrite Ascii.eqb_refl.
  - intros [Hd Hpre]%orb_false_elim. rewrite !app_cons. cbn [Str.replace_from].
    rewrite Hd, IH by done. by rewrite app_assoc_s.
Qed.

Lemma replace_from_none (before : string) (c : ascii) (by_ s : string) :
  has c s = false → Str.replace_from before c by_ s = s.
Proof.
  revert before. induction s as [|d s IH]; intros before; [done|].
  cbn [has Str.replace_from]. intros [Hd Hs]%orb_false_elim. by rewrite Hd, IH.
Qed.

(** The first occurrence of the character gives way to the replacement, as
    it is when it holds no dollar sign; the rest stays. *)
Lemma replace_first_app (c : ascii) (by_ pre post : string) :
  has c pre = false → has "$" by_ = false →
  Str.replace_first c by_ (pre +:+ String c post) = pre +:+ by_ +:+ post.
Proof.
  intros Hpre Hby. unfold Str.replace_first.
  by rewrite replace_from_app, substitute_plain.
Qed.

Lemma replace_first_none (c : ascii) (by_ s : string) :
  has c s = false → Str.replace_first c by_ s = s.
Proof. apply replace_from_none. Qed.


(** *** The name of the inbox file *)







(** ** Whole scans *)

Lemma elem_marked (p : string) (delta : list event) :
  p ∈ marked delta ↔ Mark p ∈ delta.
Proof.
  unfold marked. rewrite list_elem_of_omap. split.
  - intros (e & He & Hp). destruct e; simplify_eq. done.
  - intros H. by exists (Mark p).
Qed.


(** ** Failing entries *)


Lemma completes_of_run (homedir : string) (StringToNumber : string → option Z)
    (api : host) (cfg : config) (x : string * (string * raw)) (w : world) :
  (processTranscript homedir StringToNumber api cfg (path_of x) x.2.2 w).1 = Ok () →
  completes cfg x.
Proof.
  unfold completes. destruct (verdict_of cfg x.2.2) as [e'| |e'|] eqn:Hv; auto.
  - by rewrite (processTranscript_rejected homedir StringToNumber api cfg _ _ e' w Hv).
  - destruct (processTranscript_aborted homedir StringToNumber api cfg (path_of x)
                _ e' w Hv) as (w' & d & -> & _). done.
Qed.


Section Ticks.

Context (homedir : string) (StringToNumber : string → option Z).
Context (cfg : config) (t : string) (l : list (string * bucket)).
Context (Htidy : tidy t l).



End Ticks.


(** ** Scanning twice *)

Lemma event_kinds (e : event) :
  is_sink e = true ∨ (∃ p, e = Mark p) ∨ is_log e = true.
Proof. destruct e; eauto. Qed.

(** A scan of a pending entry that is aborted: the sinks of the host are
    called, the warning is logged, and the ledger is left alone. *)
Lemma scan1_aborted (homedir : string) (StringToNumber : string → option Z)
    (api : host) (cfg : config) (processed : gset string)
    (x : string * (string * raw)) (e : string) (w : world) :
  pending processed x → verdict_of cfg x.2.2 = Aborted e →
  ∃ w' delta,
    scan1 homedir StringToNumber api cfg processed x w = (Ok (), w')
    ∧ trace w' = trace w ++ delta
    ∧ ledger w' = ledger w
    ∧ marked delta = []
    ∧ (has_invoke api = true →
       (∃ m, Chat (path_of x) m ∈ delta)
       ∧ (∃ task model, Spawn (path_of x) task model ∈ delta)).
Proof.
  intros Hpend Hv. unfold scan1, scan_file.
  change (join x.1 x.2.1) with (path_of x).
  rewrite bool_decide_false by done. unfold try_catch.
  destruct (processTranscript_aborted homedir StringToNumber api cfg (path_of x)
              _ e w Hv) as (w1 & d1 & -> & (Hl & Ht & _ & Hm & _) & Hsinks & _).
  eexists _, (d1 ++ [failed_to_process x.2.1 e]). split; [reflexivity|].
  cbn [trace ledger log emit]. rewrite Ht, Hl, marked_app, Hm, <- app_assoc.
  repeat split; try done;
    destruct (Hsinks H) as [[m ?] (task & model & ?)];
    [exists m | exists task, model]; apply elem_of_app; by left.
Qed.

Lemma inherited_name_tick (homedir : string) (StringToNumber : string → option Z)
    (answers : nat → option string) (w : world) :
  let cfg := Config ∅ (Some "/vault/inbox") None in
  let path := "/t/2024-03-01/14-30-00_conv_1.json" in
  ledger w = None →
  ∃ w' delta,
    tick homedir StringToNumber (Host true answers) cfg "/t"
      (Some (Ok inherited_name_day)) w = (Ok (), w')
    ∧ trace w' = trace w ++ delta
    ∧ ledger w' = None
    ∧ marked delta = []
    ∧ (∃ m, Chat path m ∈ delta) ∧ (∃ task model, Spawn path task model ∈ delta).
Proof.
  cbv zeta. intros Hledger. unfold tick, try_catch. rewrite scan_work_list, Hledger.
  change (visible "/t" inherited_name_day)
    with [("/t/2024-03-01", ("14-30-00_conv_1.json", Ok inherited_name_call))].
  cbn [for_each]. unfold bind.
  destruct (scan1_aborted homedir StringToNumber (Host true answers)
              (Config ∅ (Some "/vault/inbox") None) (loadProcessed None)
              ("/t/2024-03-01", ("14-30-00_conv_1.json", Ok inherited_name_call))
              "callerName.toLowerCase is not a function" w)
    as (w' & delta & -> & Ht & Hl & Hm & Hsinks);
    [unfold pending; set_solver | vm_compute; reflexivity |].
  exists w', delta. rewrite Hl. repeat split; try done; by apply Hsinks.
Qed.

(** C2 fails on the code, by the defect shown for C1: the entry of a call
    from a number that reads "constructor", with an inbox configured, throws
    between the summariser and the ledger mark. It is never marked, so that
    the second of two ticks in succession over the same mailbox sends the
    chat message and the summary request again, whatever the host answers in
    either tick; the ledger is still missing afterwards. *)
Theorem inherited_name_rescanned (homedir : string)
    (StringToNumber : string → option Z) (answers1 answers2 : nat → option string) :
  let cfg := Config ∅ (Some "/vault/inbox") None in
  let path := "/t/2024-03-01/14-30-00_conv_1.json" in
  let outcome :=
    ticks homedir StringToNumber [Host true answers1; Host true answers2] cfg "/t"
      (Some (Ok inherited_name_day)) fresh in
  ∃ first second,
    fst outcome = [first; second]
    ∧ ((∃ m, Chat path m ∈ first) ∧ (∃ task model, Spawn path task model ∈ first))
    ∧ ((∃ m, Chat path m ∈ second) ∧ (∃ task model, Spawn path task model ∈ second))
    ∧ (marked first = [] ∧ marked second = [])
    ∧ ledger (snd outcome) = None.
Proof.
  cbv zeta. cbn [ticks].
  destruct (inherited_name_tick homedir StringToNumber answers1 fresh eq_refl)
    as (w1 & d1 & -> & Ht1 & Hl1 & Hm1 & Hsinks1).
  cbn [snd].
  destruct (inherited_name_tick homedir StringToNumber answers2 w1 Hl1)
    as (w2 & d2 & -> & Ht2 & Hl2 & Hm2 & Hsinks2).
  cbn [fst snd]. rewrite (news_app _ _ _ Ht1), (news_app _ _ _ Ht2).
  by exists d1, d2.
Qed.

(** ** The sample mailbox *)

Lemma holds_fresh : holds fresh [].
Proof. by split. Qed.

Lemma sample_day_tidy : tidy "/t" sample_day.
Proof.
  unfold tidy, sample_day. split; [by split|]. split.
  - split; [apply NoDup_singleton | by repeat constructor].
  - apply Forall_singleton. cbn. split; [|by repeat constructor].
    by apply (bool_decide_unpack _).
Qed.

Lemma sample_day_visible :
  visible "/t" sample_day
  = (λ f, ("/t/2024-03-01", f)) <$>
      [("09-15-00_bad.json", Throw "Unexpected token h in JSON at position 0");
       ("10-00-00_abc.json",
        Ok (nested_call "+34612345678" "abc" 125 [turn "user" "lunch on Sunday"]));
       ("11-30-00_hangup.json",
        Ok (nested_call "+34612345678" "hangup" 2 [turn "user" " "]))].
Proof. reflexivity. Qed.



(** * Further properties of the code *)

(** ** The ledger *)

Lemma blank_trimStart (s : string) : blank s = true → Str.trimStart s = "".
Proof.
  induction s as [|c s IH]; [done|]. cbn [blank Str.trimStart].
  intros [-> Hs]%andb_true_iff. by apply IH.
Qed.

(** X2: a ledger file that is missing, empty, or holds blanks and line
    breaks only reads as the empty set. *)
Theorem blank_ledger_is_empty (led : option string) :
  blank (default "" led) = true → loadProcessed led = ∅.
Proof.
  rewrite loadProcessed_default. intros H. unfold loadProcessed, Str.trim.
  by rewrite (blank_trimStart _ H).
Qed.

Lemma blank_ledger_is_empty_witness :
  loadProcessed (Some (nl +:+ "  " +:+ nl)) = ∅ ∧ loadProcessed None = ∅.
Proof.
  split; [apply (blank_ledger_is_empty (Some (nl +:+ "  " +:+ nl))); reflexivity|].
  apply (blank_ledger_is_empty None). reflexivity.
Defined.

(** X1: what [markProcessed] appends, [loadProcessed] reads back. On a
    ledger of clean paths, marking a clean path adds exactly that path to
    the set a reload yields, and leaves a ledger of clean paths. *)
Theorem marked_path_is_loaded (w : world) (ps : list string) (p : string) :
  holds w ps → clean p →
  let w' := snd (markProcessed p w) in
  holds w' (ps ++ [p])
  ∧ loadProcessed (ledger w') = {[p]} ∪ loadProcessed (ledger w).
Proof.
  intros Hholds Hp. cbv zeta.
  assert (Hholds' : holds (snd (markProcessed p w)) (ps ++ [p])).
  { destruct Hholds as [Hled Hclean]. split.
    - cbn. by rewrite Hled, ledger_of_snoc.
    - apply Forall_app. split; [done|]. by apply Forall_singleton. }
  split; [done|].
  rewrite (loadProcessed_holds _ _ Hholds'), (loadProcessed_holds _ _ Hholds).
  rewrite list_to_set_app_L. cbn [list_to_set].
  rewrite (right_id_L ∅ (∪) {[p]}). apply (comm_L (∪)).
Qed.

Lemma marked_path_is_loaded_witness :
  let p := "/t/2024-03-01/10-00-00_abc.json" in
  let w' := snd (markProcessed p fresh) in
  holds w' ([] ++ [p]) ∧ loadProcessed (ledger w') = {[p]} ∪ loadProcessed (ledger fresh).
Proof.
  cbv zeta. apply (marked_path_is_loaded fresh [] "/t/2024-03-01/10-00-00_abc.json").
  - apply holds_fresh.
  - by repeat split.
Defined.

(** ** What a tick does, whatever the mailbox and the host *)

Section AnyTick.

Context (homedir : string) (StringToNumber : string → option Z).
Context (api : host) (cfg : config) (t : string).

(** A scan of a transcript directory that can be listed. *)
Lemma scan_scanned (l : list (string * bucket)) (w : world) :
  ∃ w' delta,
    scanAndProcessTranscripts homedir StringToNumber api cfg t (Some (Ok l)) w
    = (Ok (), w')
    ∧ scanned cfg (loadProcessed (ledger w)) (visible t l) w w' delta.
Proof. rewrite scan_work_list. apply for_each_scanned. Qed.

(** A tick, by the state of the transcript directory. *)
Lemma tick_cases (mb : mailbox) (w : world) :
  ∃ w' delta,
    tick homedir StringToNumber api cfg t mb w = (Ok (), w')
    ∧ trace w' = trace w ++ delta
    ∧ ledger w' = foldl (λ led p, appendFile led (p +:+ nl)) (ledger w) (marked delta)
    ∧ dirs w' = dirs (scanAndProcessTranscripts homedir StringToNumber api cfg t mb w).2
    ∧ files w' = files (scanAndProcessTranscripts homedir StringToNumber api cfg t mb w).2
    ∧ match mb with
      | Some (Ok l) =>
          scanAndProcessTranscripts homedir StringToNumber api cfg t mb w = (Ok (), w')
          ∧ scanned cfg (loadProcessed (ledger w)) (visible t l) w w' delta
      | Some (Throw e) =>
          delta = [Log Warn ("[alfred-talk] Transcript scan error: " +:+ e)]
      | None => delta = []
      end.
Proof.
  unfold tick, try_catch. destruct mb as [[l|e]|].
  - destruct (scan_scanned l w) as (w' & delta & -> & Hs).
    exists w', delta. pose proof Hs as (Ht & Hl & _). cbn [snd].
    do 5 (split; [done|]). by split.
  - eexists _, _. cbn. by repeat split.
  - exists w, []. cbn. rewrite app_nil_r. by repeat split.
Qed.

End AnyTick.

(** X4: a tick only ever appends to the ledger: what was in the file
    stays, followed by one line for each entry marked during the tick, in
    the order of the marks; a tick that marks nothing leaves the file as it
    is, missing if it was missing. *)
Theorem ledger_only_grows (homedir : string) (StringToNumber : string → option Z)
    (api : host) (cfg : config) (t : string) (mb : mailbox) (w : world) :
  let w' := snd (tick homedir StringToNumber api cfg t mb w) in
  trace w' = trace w ++ news w w'
  ∧ ledger w' = foldl (λ led p, appendFile led (p +:+ nl)) (ledger w) (marked (news w w'))
  ∧ default "" (ledger w') = default "" (ledger w) +:+ ledger_of (marked (news w w')).
Proof.
  cbv zeta.
  destruct (tick_cases homedir StringToNumber api cfg t mb w)
    as (w' & delta & -> & Ht & Hl & _).
  cbn [snd]. rewrite (news_app _ _ _ Ht). split; [done|]. split; [done|].
  by rewrite Hl, ledger_after_marks.
Qed.

(** X5: every sink call and every ledger mark of a scan is for a file that
    the loaded ledger does not hold, whose name ends in [.json], and that
    sits in a listed directory whose name does not start with a dot. *)
Theorem scan_touches_pending_json_only (homedir : string)
    (StringToNumber : string → option Z) (api : host) (cfg : config) (t : string)
    (l : list (string * bucket)) (w : world) (e : event) (p : string) :
  let w' := snd (scanAndProcessTranscripts homedir StringToNumber api cfg t
                   (Some (Ok l)) w) in
  e ∈ news w w' → entry_of e = Some p →
  (p ∉ loadProcessed (ledger w))
  ∧ ∃ d f, p = join (join t d) f ∧ d ∈ l.*1 ∧ Str.startsWith "." d = false
           ∧ Str.endsWith ".json" f = true.
Proof.
  cbv zeta.
  destruct (scan_scanned homedir StringToNumber api cfg t l w)
    as (w' & delta & -> & Ht & _ & Hm & Hsinks & _).
  cbn [snd]. rewrite (news_app _ _ _ Ht). intros He Hp.
  assert (∃ x, x ∈ visible t l ∧ pending (loadProcessed (ledger w)) x ∧ p = path_of x)
    as (x & Hx & Hpend & ->).
  { destruct (event_kinds e) as [Hsink | [[q ->] | Hlog]].
    - destruct (Hsinks e He Hsink) as (x & Hx & Hpend & Hentry & _).
      exists x. repeat split; try done. congruence.
    - cbn in Hp. simplify_eq. apply elem_marked in He. rewrite Hm in He.
      apply elem_marks_of in He as (x & Hx & Hpend & _ & ->). by exists x.
    - by destruct e. }
  split; [done|].
  apply visible_elem in Hx as (d & entries & Hx & Hd & Hdot & _ & _ & Hjson).
  exists d, x.2.1. unfold path_of. by rewrite Hx.
Qed.

Lemma scan_touches_pending_json_only_witness :
  let p := "/t/2024-03-01/11-30-00_hangup.json" in
  (p ∉ loadProcessed (ledger fresh))
  ∧ ∃ d f, p = join (join "/t" d) f ∧ d ∈ sample_day.*1 ∧ Str.startsWith "." d = false
           ∧ Str.endsWith ".json" f = true.
Proof.
  cbv zeta.
  apply (scan_touches_pending_json_only "/home/u" (λ _, None) all_up
           (Config ∅ None None) "/t" sample_day fresh
           (Mark "/t/2024-03-01/11-30-00_hangup.json")).
  - vm_compute. set_solver.
  - reflexivity.
Defined.

(** ** Sinks that are not configured *)

Section Spares.

Context (bad : event → bool) (still : bool).

Lemma spares_ret {A} (a : A) : spares bad still (ret a).
Proof. intros w. exists []. by rewrite app_nil_r. Qed.

Lemma spares_lift {A} (r : res A) : spares bad still (lift r).
Proof. intros w. exists []. by rewrite app_nil_r. Qed.

Lemma spares_bind {A B} (m : M A) (k : A → M B) :
  spares bad still m → (∀ a, spares bad still (k a)) → spares bad still (bind m k).
Proof.
  intros Hm Hk w. unfold bind. destruct (Hm w) as (d1 & Ht1 & Hb1 & Hs1).
  destruct (m w) as [[a|e] w1]; cbn [snd] in *; [|by exists d1].
  destruct (Hk a w1) as (d2 & Ht2 & Hb2 & Hs2). exists (d1 ++ d2).
  split; [by rewrite Ht2, Ht1, app_assoc|]. split; [by apply Forall_app|].
  intros Hstill. destruct (Hs1 Hstill) as [<- <-]. by apply Hs2.
Qed.

Lemma spares_try_catch (m : M unit) (h : string → M unit) :
  spares bad still m → (∀ e, spares bad still (h e)) → spares bad still (try_catch m h).
Proof.
  intros Hm Hh w. unfold try_catch. destruct (Hm w) as (d1 & Ht1 & Hb1 & Hs1).
  destruct (m w) as [[a|e] w1]; cbn [snd] in *; [by exists d1|].
  destruct (Hh e w1) as (d2 & Ht2 & Hb2 & Hs2). exists (d1 ++ d2).
  split; [by rewrite Ht2, Ht1, app_assoc|]. split; [by apply Forall_app|].
  intros Hstill. destruct (Hs1 Hstill) as [<- <-]. by apply Hs2.
Qed.

Lemma spares_for_each {A} (step : A → M unit) (l : list A) :
  (∀ x, spares bad still (step x)) → spares bad still (for_each step l).
Proof.
  intros Hstep. induction l as [|x l IH]; [apply spares_ret|].
  cbn [for_each]. by apply spares_bind.
Qed.

Lemma spares_emit (e : event) : bad e = false → spares bad still (emit e).
Proof. intros He w. exists [e]. repeat split; [|done..]. by apply Forall_singleton. Qed.

Lemma spares_markProcessed (p : string) :
  bad (Mark p) = false → spares bad still (markProcessed p).
Proof. intros He w. exists [Mark p]. repeat split; [|done..]. by apply Forall_singleton. Qed.

Lemma spares_outside (api : host) (e : event) :
  bad e = false → spares bad still (outside api e).
Proof.
  intros He w. exists [e]. unfold outside.
  destruct (failure api (calls w)); (repeat split; [|done..]); by apply Forall_singleton.
Qed.

End Spares.

Section Unconfigured.

Context (homedir : string) (StringToNumber : string → option Z).
Context (api : host) (cfg : config).

(** Without [tools.invoke] the two tool sinks do nothing. *)
Lemma notify_spares_tools (entry message : string) (still : bool) :
  has_invoke api = false → spares is_tool still (notify api entry message).
Proof.
  intros H. unfold notify. rewrite H.
  apply spares_try_catch; [apply spares_ret | intros e; by apply spares_emit].
Qed.

Lemma summarize_spares_tools (entry task : string) (still : bool) :
  has_invoke api = false → spares is_tool still (summarize api cfg entry task).
Proof.
  intros H. unfold summarize. rewrite H.
  apply spares_try_catch; [apply spares_ret | intros e; by apply spares_emit].
Qed.

(** The inbox writer calls no tool. *)
Lemma inbox_spares_tools (entry : string) (callerName userPhone conversationId : json)
    (dateStr timeStr durationStr transcriptText : string) :
  spares is_tool false
    (inbox homedir api cfg entry callerName userPhone conversationId
       dateStr timeStr durationStr transcriptText).
Proof.
  unfold inbox. destruct (inboxDir cfg) as [d|]; [|apply spares_ret].
  destruct (Str.is_empty d); [apply spares_ret|].
  apply spares_bind; [apply spares_lift|]. intros slug. unfold writeInbox.
  apply spares_try_catch; [|intros e; by apply spares_emit].
  apply spares_bind; [intros w; exists []; by rewrite app_nil_r|]. intros there.
  apply spares_bind.
  { destruct there; [apply spares_ret|]. unfold mkdirSync.
    apply spares_bind; [by apply spares_outside|].
    intros _ w. exists []. by rewrite app_nil_r. }
  intros _. apply spares_bind; [|intros _; by apply spares_emit].
  unfold writeFileSync. apply spares_bind; [by apply spares_outside|].
  intros _ w. exists []. by rewrite app_nil_r.
Qed.




Lemma processTranscript_spares (bad : event → bool) (still : bool)
    (filePath : string) (content : raw) :
  (∀ p, bad (Mark p) = false) → (∀ lv m, bad (Log lv m) = false) →
  (∀ m, spares bad still (notify api filePath m)) →
  (∀ task, spares bad still (summarize api cfg filePath task)) →
  (∀ a1 a2 a3 a4 a5 a6 a7,
     spares bad still (inbox homedir api cfg filePath a1 a2 a3 a4 a5 a6 a7)) →
  spares bad still (processTranscript homedir StringToNumber api cfg filePath content).
Proof.
  intros Hmark Hlog Hnotify Hsummary Hinbox. unfold processTranscript.
  apply spares_bind; [apply spares_lift|]. intros data.
  apply spares_bind; [apply spares_lift|]. intros [|line lines].
  { by apply spares_markProcessed. }
  apply spares_bind; [apply Hnotify|]. intros _.
  apply spares_bind; [apply Hsummary|]. intros _.
  apply spares_bind; [apply Hinbox|]. intros _.
  apply spares_bind; [by apply spares_markProcessed|]. intros _.
  by apply spares_emit.
Qed.

Lemma tick_spares (bad : event → bool) (still : bool) (t : string) (mb : mailbox) :
  (∀ p, bad (Mark p) = false) → (∀ lv m, bad (Log lv m) = false) →
  (∀ p m, spares bad still (notify api p m)) →
  (∀ p task, spares bad still (summarize api cfg p task)) →
  (∀ p a1 a2 a3 a4 a5 a6 a7,
     spares bad still (inbox homedir api cfg p a1 a2 a3 a4 a5 a6 a7)) →
  spares bad still (tick homedir StringToNumber api cfg t mb).
Proof.
  intros Hmark Hlog Hnotify Hsummary Hinbox. unfold tick.
  apply spares_try_catch; [|intros e; by apply spares_emit].
  unfold scanAndProcessTranscripts. destruct mb as [listing|]; [|apply spares_ret].
  enough (H : ∀ processed,
            spares bad still
              (let* l := lift listing in
               for_each (scan_dir homedir StringToNumber api cfg t processed l)
                 (dateDirs l)))
    by (intros w; apply (H (loadProcessed (ledger w)) w)).
  intros processed. apply spares_bind; [apply spares_lift|]. intros l.
  apply spares_for_each. intros d. unfold scan_dir.
  destruct (Str.startsWith "." d); [apply spares_ret|].
  destruct (readdir l d) as [entries|]; [|apply spares_ret].
  apply spares_for_each. intros f. unfold scan_file.
  destruct (bool_decide _); [apply spares_ret|].
  apply spares_try_catch; [|intros e; by apply spares_emit].
  apply processTranscript_spares; auto.
Qed.

End Unconfigured.



(** X7: on a host without [tools.invoke], a tick sends no chat message and
    asks for no summary, whatever the mailbox holds. *)
Theorem no_tools_no_calls (homedir : string) (StringToNumber : string → option Z)
    (api : host) (cfg : config) (t : string) (mb : mailbox) (w : world) :
  has_invoke api = false →
  let w' := snd (tick homedir StringToNumber api cfg t mb w) in
  trace w' = trace w ++ news w w' ∧ Forall (λ e, is_tool e = false) (news w w').
Proof.
  intros Hoff. cbv zeta.
  destruct (tick_spares homedir StringToNumber api cfg is_tool false t mb) with (w := w)
    as (delta & Ht & Hbad & _); try done.
  - intros. by apply notify_spares_tools.
  - intros. by apply summarize_spares_tools.
  - intros. apply inbox_spares_tools.
  - by rewrite (news_app _ _ _ Ht).
Qed.

Lemma no_tools_no_calls_witness :
  let api := Host false (λ _, None) in
  let cfg := Config ∅ (Some "~/vault/inbox") None in
  let w' := snd (tick "/home/u" (λ _, None) api cfg "/t" (Some (Ok sample_day)) fresh) in
  trace w' = trace fresh ++ news fresh w' ∧ Forall (λ e, is_tool e = false) (news fresh w').
Proof.
  cbv zeta.
  apply (no_tools_no_calls "/home/u" (λ _, None) (Host false (λ _, None))
           (Config ∅ (Some "~/vault/inbox") None) "/t" (Some (Ok sample_day)) fresh).
  reflexivity.
Defined.

(** ** Tags *)

Lemma gt_index_strip_none (n : nat) (s : string) :
  Str.gt_index s = None → Str.gt_index (Str.strip_go n s) = None.
Proof.
  revert n. induction s as [|c r IH]; intros n; [done|].
  cbn [Str.gt_index]. destruct (Ascii.eqb c ">") eqn:Hc; [done|].
  destruct (Str.gt_index r) eqn:Hr; [done|]. intros _.
  destruct n as [|k]; cbn [Str.strip_go]; [|by apply IH].
  destruct (Ascii.eqb c "<"); rewrite ?Hr; cbn [Str.gt_index]; by rewrite Hc, IH.
Qed.

Lemma has_tag_strip_go (n : nat) (s : string) : has_tag (Str.strip_go n s) = false.
Proof.
  revert n. induction s as [|c r IH]; intros n; [by destruct n|].
  destruct n as [|k]; cbn [Str.strip_go]; [|by apply IH].
  destruct (Ascii.eqb c "<") eqn:Hc; [|cbn [has_tag]; by rewrite Hc, IH].
  destruct (Str.gt_index r) as [[|k]|] eqn:Hr; [| by apply IH |].
  - cbn [has_tag]. rewrite Hc, IH.
    destruct r as [|c' r']; [done|]. cbn [Str.gt_index] in Hr.
    destruct (Ascii.eqb c' ">") eqn:Hc'; [|by destruct (Str.gt_index r')].
    apply Ascii.eqb_eq in Hc' as ->. by cbn.
  - cbn [has_tag]. by rewrite Hc, IH, gt_index_strip_none.
Qed.

Lemma strip_go_no_tag (s : string) : has_tag s = false → Str.strip_go 0 s = s.
Proof.
  induction s as [|c r IH]; [done|]. cbn [has_tag Str.strip_go].
  intros [Hhere Hr]%orb_false_elim. rewrite (IH Hr).
  destruct (Ascii.eqb c "<"); [|done]. by destruct (Str.gt_index r) as [[|k]|].
Qed.

(** X8: what the tag stripper returns holds no tag any more, so stripping
    twice is stripping once; the texts it leaves as they are, are those
    without a tag. A tag is what [/<[^>]+>/] matches. *)
Theorem strip_tags_leaves_no_tag (s : string) :
  has_tag (Str.strip_tags s) = false
  ∧ Str.strip_tags (Str.strip_tags s) = Str.strip_tags s
  ∧ (Str.strip_tags s = s ↔ has_tag s = false).
Proof.
  unfold Str.strip_tags. split; [apply has_tag_strip_go|]. split.
  - apply strip_go_no_tag, has_tag_strip_go.
  - split; [intros <-; apply has_tag_strip_go | apply strip_go_no_tag].
Qed.

(** ** Fetching one transcript: what is not found *)

Section NotFound.

Context (StringToNumber : string → option Z).
Context (contacts : gmap string string) (id : string).

Lemma find_first_match (pre post : list (string * raw)) (f : string * raw) :
  Forall (λ g, matches id g = false) pre → matches id f = true →
  List.find (matches id) (pre ++ f :: post) = Some f.
Proof.
  intros Hpre Hf. induction Hpre as [|g pre Hg _ IH]; cbn [List.find app].
  - by rewrite Hf.
  - by rewrite Hg.
Qed.

(** Two listings under which every directory yields the same answer. *)
Lemma search_ext (l l' : list (string * bucket)) (names : list string) :
  (∀ d, d ∈ names → Str.startsWith "." d = false →
     match readdir l d, readdir l' d with
     | Ok entries, Ok entries' =>
         match List.find (matches id) entries, List.find (matches id) entries' with
         | Some f, Some f' => f = f'
         | Some f, None | None, Some f =>
             ∃ e, render StringToNumber contacts id f.2 = Throw e
         | None, None => True
         end
     | Ok entries, Throw _ | Throw _, Ok entries =>
         match List.find (matches id) entries with
         | Some f => ∃ e, render StringToNumber contacts id f.2 = Throw e
         | None => True
         end
     | Throw _, Throw _ => True
     end) →
  search StringToNumber contacts id l names = search StringToNumber contacts id l' names.
Proof.
  induction names as [|d names IH]; intros Hsame; [done|].
  cbn [search]. rewrite IH by (intros; apply Hsame; [by right | done]).
  destruct (Str.startsWith "." d) eqn:Hdot; [done|].
  specialize (Hsame d (list_elem_of_here _ _) Hdot).
  destruct (readdir l d) as [entries|], (readdir l' d) as [entries'|]; try done;
    repeat match goal with
    | H : context [List.find ?p ?l] |- _ => destruct (List.find p l)
    | H : ∃ e, _ = Throw e |- _ => destruct H as [? ->]
    end; by subst.
Qed.

Lemma lookup_name_app {A} (name : string) (l1 l2 : list (string * A)) :
  lookup_name name (l1 ++ l2)
  = match lookup_name name l1 with Some a => Some a | None => lookup_name name l2 end.
Proof.
  induction l1 as [|[n a] l1 IH]; [done|]. cbn [lookup_name app].
  by destruct (String.eqb name n).
Qed.

End NotFound.

(** X9: a matching file that cannot be read or rendered ends the search of
    its directory: the files listed after it are not looked at, so that the
    answer is the one an empty directory in its place would give, even when a
    later file of the directory matches and is sound. *)
Theorem unreadable_match_ends_directory (StringToNumber : string → option Z)
    (contacts : gmap string string) (id : string)
    (l1 l2 : list (string * bucket)) (d : string)
    (pre post : list (string * raw)) (f : string * raw) (e : string) :
  Forall (λ g, matches id g = false) pre → matches id f = true →
  render StringToNumber contacts id f.2 = Throw e →
  getTranscript StringToNumber (Some (Ok (l1 ++ (d, Ok (pre ++ f :: post)) :: l2)))
    id contacts
  = getTranscript StringToNumber (Some (Ok (l1 ++ (d, Ok []) :: l2))) id contacts.
Proof.
  intros Hpre Hf Hrender. cbn [getTranscript bind_res]. f_equal.
  replace (dateDirs (l1 ++ (d, Ok []) :: l2))
    with (dateDirs (l1 ++ (d, Ok (pre ++ f :: post)) :: l2))
    by (unfold dateDirs; by rewrite !fmap_app).
  apply search_ext. intros d' _ _. unfold readdir. rewrite !lookup_name_app.
  destruct (lookup_name d' l1) as [[entries|]|]; cbn.
  - by destruct (List.find _ entries).
  - done.
  - cbn [lookup_name]. destruct (String.eqb d' d).
    + cbn. rewrite find_first_match by done. by exists e.
    + destruct (lookup_name d' l2) as [[entries|]|]; cbn; [|done..].
      by destruct (List.find _ entries).
Qed.

Lemma unreadable_match_ends_directory_witness :
  let bad := ("10-00-00_abc.json", Throw "Unexpected end of JSON input") in
  let good := ("10-00-01_abc.json",
               Ok (nested_call "+1" "abc" 60 [turn "agent" "this is call abc"])) in
  getTranscript (λ _, None) (Some (Ok ([] ++ [("2024-03-01", Ok ([] ++ [bad; good]))])))
    "abc" ∅
  = getTranscript (λ _, None) (Some (Ok ([] ++ [("2024-03-01", Ok [])]))) "abc" ∅.
Proof.
  cbv zeta.
  apply (unreadable_match_ends_directory (λ _, None) ∅ "abc" [] [] "2024-03-01" []
           [("10-00-01_abc.json",
             Ok (nested_call "+1" "abc" 60 [turn "agent" "this is call abc"]))]
           ("10-00-00_abc.json", Throw "Unexpected end of JSON input")
           "Unexpected end of JSON input").
  - apply Forall_nil_2.
  - reflexivity.
  - reflexivity.
Defined.

(** X10: when no file of a listed directory that is not hidden has the
    queried identifier in its name and ends in [.json], the answer is the
    not-found message with the identifier. *)
Theorem getTranscript_not_found (StringToNumber : string → option Z)
    (contacts : gmap string string) (id : string) (l : list (string * bucket)) :
  (∀ d entries f, (d, Ok entries) ∈ l → Str.startsWith "." d = false → f ∈ entries →
     Str.includes id f.1 = false ∨ Str.endsWith ".json" f.1 = false) →
  getTranscript StringToNumber (Some (Ok l)) id contacts
  = Ok (Message ("Transcript not found: " +:+ id)).
Proof.
  intros Hnone. cbn [getTranscript bind_res]. f_equal.
  generalize (dateDirs l) as names. intros names.
  induction names as [|d names IH]; [done|]. cbn [search]. rewrite IH.
  destruct (Str.startsWith "." d) eqn:Hdot; [done|].
  destruct (readdir l d) as [entries|] eqn:Hread; [|done].
  destruct (List.find (matches id) entries) as [f|] eqn:Hfind; [|done].
  apply List.find_some in Hfind as [Hin Hmatch]. apply list_elem_of_In in Hin.
  apply readdir_elem in Hread. unfold matches in Hmatch.
  destruct (Hnone d entries f Hread Hdot Hin) as [H|H]; rewrite H in Hmatch;
    [done | by rewrite andb_false_r in Hmatch].
Qed.

Lemma getTranscript_not_found_witness :
  getTranscript (λ _, None) (Some (Ok sample_day)) "xyz" ∅
  = Ok (Message ("Transcript not found: " +:+ "xyz")).
Proof.
  apply (getTranscript_not_found (λ _, None) ∅ "xyz" sample_day).
  intros d entries f Hd _ Hf. left.
  unfold sample_day in Hd. apply list_elem_of_singleton in Hd. simplify_eq.
  repeat (apply elem_of_cons in Hf as [-> | Hf]); try reflexivity.
  by apply elem_of_nil in Hf.
Defined.

(** ** Time stamps *)

Lemma two_digits (r : Z) :
  (0 ≤ r < 60)%Z → String.length (Str.padStart2 (Str.of_Z r)) = 2.
Proof.
  intros Hr. rewrite <- (Z2Nat.id r) by lia.
  assert (Hn : Z.to_nat r < 60) by lia. revert Hn. generalize (Z.to_nat r) as n.
  intros n Hn. do 60 (destruct n as [|n]; [reflexivity|]). lia.
Qed.

(** X11: the time stamp of a turn at [n] seconds into the call, [n] not
    negative, reads [[m:ss]]: the whole minutes, then the remaining seconds
    on exactly two digits. *)
Theorem stamp_minutes_seconds (StringToNumber : string → option Z) (n : Z) :
  (0 ≤ n)%Z →
  ∃ ss, stamp StringToNumber (JNum n)
        = "[" +:+ Str.of_Z (n / 60) +:+ ":" +:+ ss +:+ "]"
        ∧ ss = Str.padStart2 (Str.of_Z (n mod 60))
        ∧ String.length ss = 2.
Proof.
  intros Hn. exists (Str.padStart2 (Str.of_Z (n mod 60))).
  split; [|split; [done|]].
  - unfold stamp. cbn [to_number]. by rewrite Z.rem_mod_nonneg by lia.
  - apply two_digits. by apply Z.mod_pos_bound.
Qed.

Lemma stamp_minutes_seconds_witness :
  ∃ ss, stamp (λ _, None) (JNum 125) = "[" +:+ Str.of_Z (125 / 60) +:+ ":" +:+ ss +:+ "]"
        ∧ ss = Str.padStart2 (Str.of_Z (125 mod 60))
        ∧ String.length ss = 2.
Proof. apply (stamp_minutes_seconds (λ _, None) 125). lia. Defined.

(** ** The listing of transcripts *)

Section Listing.

Context (ledger : option string) (t : string) (contacts : gmap string string).
Context (l : list (string * bucket)).

(** The inner loop below the limit: the room left is filled with the files
    of the directory, in their order. *)
Lemma list_files_room (limit : Z) (item : string → Entry.item) (names : list string)
    (files : list Entry.item) :
  (Z.of_nat (length files) < limit)%Z →
  list_files limit item names files
  = files ++ take (Z.to_nat limit - length files) (item <$> names).
Proof.
  revert files. induction names as [|x names IH]; intros files Hroom.
  - cbn [list_files fmap list_fmap]. by rewrite take_nil, app_nil_r.
  - cbn [list_files fmap list_fmap]. rewrite length_app. cbn [length].
    destruct (Z.leb_spec limit (Z.of_nat (length files + 1))) as [Hfull|Hmore].
    + replace (Z.to_nat limit - length files) with 1 by lia. done.
    + rewrite IH by (rewrite length_app; cbn [length]; lia).
      rewrite length_app. cbn [length].
      replace (Z.to_nat limit - length files)
        with (S (Z.to_nat limit - (length files + 1))) by lia.
      by rewrite <- app_assoc.
Qed.

Lemma shelf_of_items (d : string) :
  listed_of ledger t contacts <$> shelf_of l d
  = if Str.startsWith "." d then []
    else match readdir l d with
         | Throw _ => []
         | Ok entries =>
             (λ file, listed (loadProcessed ledger) contacts d (join t d) file
                        (read entries file)) <$> listing_order entries
         end.
Proof.
  unfold shelf_of. destruct (Str.startsWith "." d); [done|].
  destruct (readdir l d) as [entries|]; [|done]. by rewrite <- list_fmap_compose.
Qed.

(** The outer loop below the limit. *)
Lemma list_dirs_room (limit : Z) (names : list string) (files : list Entry.item) :
  (Z.of_nat (length files) < limit)%Z →
  list_dirs limit (loadProcessed ledger) contacts t l names files
  = files ++ take (Z.to_nat limit - length files)
               (listed_of ledger t contacts <$> (names ≫= shelf_of l)).
Proof.
  revert files. induction names as [|d names IH]; intros files Hroom.
  - cbn. by rewrite take_nil, app_nil_r.
  - cbn [list_dirs mbind list_bind]. rewrite fmap_app, shelf_of_items.
    destruct (Str.startsWith "." d); [by apply IH|].
    destruct (readdir l d) as [entries|]; [|by apply IH].
    rewrite list_files_room by done.
    set (items := _ <$> listing_order entries).
    set (room := Z.to_nat limit - length files).
    rewrite length_app, length_take.
    destruct (Z.leb_spec limit (Z.of_nat (length files + room `min` length items)))
      as [Hfull|Hmore].
    + by rewrite take_app_le by lia.
    + rewrite IH by (rewrite length_app, length_take; lia).
      rewrite length_app, length_take, <- app_assoc. f_equal.
      rewrite (take_ge items) by lia. rewrite take_app_ge by lia. f_equal. f_equal.
      rewrite Nat.min_r by lia. lia.
Qed.

(** With a limit of zero or less the loops are left after the first push
    or the first directory. *)
Lemma list_files_stop (limit : Z) (item : string → Entry.item) (names : list string) :
  (limit ≤ 0)%Z → length (list_files limit item names []) ≤ 1.
Proof.
  intros Hlimit. destruct names as [|x names]; cbn [list_files]; [cbn; lia|].
  destruct (Z.leb_spec limit (Z.of_nat (length ([] ++ [item x])))); cbn in *; lia.
Qed.

Lemma list_dirs_stop (limit : Z) (names : list string) :
  (limit ≤ 0)%Z →
  length (list_dirs limit (loadProcessed ledger) contacts t l names []) ≤ 1.
Proof.
  intros Hlimit. induction names as [|d names IH]; [cbn; lia|].
  cbn [list_dirs]. destruct (Str.startsWith "." d); [done|].
  destruct (readdir l d) as [entries|]; [|done].
  match goal with |- context [list_files ?a ?b ?c []] =>
    pose proof (list_files_stop a b c Hlimit) as Hlen;
    destruct (Z.leb_spec limit (Z.of_nat (length (list_files a b c [])))); [done | lia]
  end.
Qed.

(** The listing is the start of the shelf, as long as the limit says. *)
Lemma listTranscripts_take (limit : Z) :
  listTranscripts ledger t (Some (Ok l)) limit contacts
  = Ok (listed_of ledger t contacts <$> take (Z.to_nat limit) (shelf l)).
Proof.
  unfold listTranscripts. cbn [bind_res]. f_equal. unfold slice0.
  destruct (Z.leb_spec 0 limit) as [Hpos|Hneg].
  - destruct (decide (limit = 0%Z)) as [->|Hne]; [done|].
    rewrite list_dirs_room by (cbn; lia). cbn [app length].
    rewrite Nat.sub_0_r, take_take, Nat.min_id. by rewrite fmap_take.
  - pose proof (list_dirs_stop limit (dateDirs l)) as Hlen.
    replace (Z.to_nat limit) with 0 by lia.
    match goal with |- take ?n _ = _ => replace n with 0 by lia end. done.
Qed.

End Listing.


(** *** The shelf *)

Lemma listing_order_elem (entries : list (string * raw)) (file : string) :
  file ∈ listing_order entries
  ↔ Str.endsWith ".json" file = true ∧ file ∈ entries.*1.
Proof.
  unfold listing_order. rewrite elem_of_reverse, merge_sort_Permutation.
  rewrite list_elem_of_fmap. split.
  - intros (f & -> & [Hjson Hf]%jsonFiles_elem). split; [done|].
    apply list_elem_of_fmap. by exists f.
  - intros [Hjson (f & -> & Hf)%list_elem_of_fmap]. exists f. split; [done|].
    by apply jsonFiles_elem.
Qed.

Lemma listing_order_length (entries : list (string * raw)) :
  length (listing_order entries) = length (jsonFiles entries).
Proof.
  unfold listing_order. by rewrite length_reverse, merge_sort_Permutation, length_fmap.
Qed.

Lemma listing_order_descending (entries : list (string * raw)) :
  StronglySorted (flip String.le) (listing_order entries).
Proof.
  apply Sorted_StronglySorted; [apply _|].
  apply Sorted_reverse, Sorted_merge_sort; apply _.
Qed.

Lemma shelf_elem (l : list (string * bucket)) (x : string * (string * raw)) :
  x ∈ shelf l ↔
  ∃ entries, x.1 ∈ l.*1 ∧ Str.startsWith "." x.1 = false ∧ readdir l x.1 = Ok entries
             ∧ Str.endsWith ".json" x.2.1 = true ∧ x.2.1 ∈ entries.*1
             ∧ x.2.2 = read entries x.2.1.
Proof.
  unfold shelf. rewrite list_elem_of_bind. split.
  - intros (d & Hx & Hd%elem_dateDirs). unfold shelf_of in Hx.
    destruct (Str.startsWith "." d) eqn:Hdot; [by apply elem_of_nil in Hx|].
    destruct (readdir l d) as [entries|] eqn:Hread; [|by apply elem_of_nil in Hx].
    apply list_elem_of_fmap in Hx as (file & -> & [Hjson Hf]%listing_order_elem).
    by exists entries.
  - intros (entries & Hd & Hdot & Hread & Hjson & Hf & Hc). exists x.1.
    split; [|by apply elem_dateDirs]. unfold shelf_of. rewrite Hdot, Hread.
    apply list_elem_of_fmap. exists x.2.1. split; [|by apply listing_order_elem].
    destruct x as [d [file c]]. cbn in *. by rewrite Hc.
Qed.

Lemma shelf_of_length (t : string) (l : list (string * bucket)) (d : string) :
  length (shelf_of l d) = length (entries_of t l d).
Proof.
  unfold shelf_of, entries_of. destruct (Str.startsWith "." d); [done|].
  destruct (readdir l d) as [entries|]; [|done].
  by rewrite !length_fmap, listing_order_length.
Qed.

(** The shelf holds as many files as a scan looks at. *)
Lemma shelf_length (t : string) (l : list (string * bucket)) :
  length (shelf l) = length (visible t l).
Proof.
  unfold shelf, visible. induction (dateDirs l) as [|d ds IH]; [done|].
  cbn [mbind list_bind]. by rewrite !length_app, IH, (shelf_of_length t).
Qed.

Lemma shelf_of_newer (l : list (string * bucket)) (d : string) :
  StronglySorted newer (shelf_of l d) ∧ Forall (λ x, x.1 = d) (shelf_of l d).
Proof.
  unfold shelf_of. destruct (Str.startsWith "." d); [by split; constructor|].
  destruct (readdir l d) as [entries|]; [|by split; constructor]. split.
  - eapply StronglySorted_fmap; [|apply listing_order_descending].
    intros f g Hfg. by right.
  - apply Forall_fmap, Forall_true. done.
Qed.

(** The shelf is newest first. *)
Lemma shelf_newer (l : list (string * bucket)) :
  NoDup l.*1 → StronglySorted newer (shelf l).
Proof.
  intros Hnd. unfold shelf.
  destruct (dateDirs_descending l) as [Hsorted Hperm].
  assert (Hnd' : NoDup (dateDirs l)) by (by rewrite Hperm).
  apply Sorted_StronglySorted in Hsorted; [|apply _].
  clear Hperm Hnd. revert Hnd'.
  induction Hsorted as [|d ds Hds IH Hall]; intros Hnd'; [constructor|].
  apply NoDup_cons in Hnd' as [Hd Hnd']. cbn [mbind list_bind].
  destruct (shelf_of_newer l d) as [Hblock Hdir].
  apply StronglySorted_app_2; [|done | by apply IH].
  intros x y Hx (d' & Hy & Hd')%list_elem_of_bind. left.
  rewrite Forall_forall in Hdir. rewrite Forall_forall in Hall. rewrite (Hdir x Hx).
  destruct (shelf_of_newer l d') as [_ Hdir']. rewrite Forall_forall in Hdir'.
  rewrite (Hdir' y Hy). split; [by intros -> | by apply Hall].
Qed.

(** X12: the listing holds as many objects as the limit allows and the
    mailbox has [.json] files in listed directories that are not hidden, and
    none for a limit of zero or less. *)
Theorem listTranscripts_limit (ledger : option string) (t : string)
    (l : list (string * bucket)) (limit : Z) (contacts : gmap string string) :
  ∃ items,
    listTranscripts ledger t (Some (Ok l)) limit contacts = Ok items
    ∧ length items = Z.to_nat limit `min` length (visible t l).
Proof.
  eexists. split; [apply listTranscripts_take|].
  by rewrite length_fmap, length_take, (shelf_length t).
Qed.

(** X13: a shorter listing is the start of a longer one: the listing for
    the limit [k] is the first [k] objects of the listing for any limit
    [n] that is at least [k]. *)
Theorem listTranscripts_pages (ledger : option string) (t : string) (mb : mailbox)
    (k n : Z) (contacts : gmap string string) (items : list Entry.item) :
  (k ≤ n)%Z →
  listTranscripts ledger t mb n contacts = Ok items →
  listTranscripts ledger t mb k contacts = Ok (take (Z.to_nat k) items).
Proof.
  intros Hkn.
  destruct mb as [[l|e]|]; [| done | intros [= <-]; cbn; by rewrite take_nil].
  rewrite !listTranscripts_take. intros [= <-]. f_equal.
  rewrite <- fmap_take, take_take. do 2 f_equal. lia.
Qed.

Lemma listTranscripts_pages_witness :
  listTranscripts None "/t" (Some (Ok sample_day)) 1 ∅
  = Ok (take (Z.to_nat 1)
          [Entry.Make "2024-03-01T11:30:00" "hangup" (JStr "+34612345678") false;
           Entry.Make "2024-03-01T10:00:00" "abc" (JStr "+34612345678") false]).
Proof.
  apply (listTranscripts_pages None "/t" (Some (Ok sample_day)) 1 2 ∅); [lia|].
  reflexivity.
Defined.

(** X14: the listing is newest first and true to the mailbox. Its objects
    stand for files of the transcript directory, each for a [.json] file of a
    listed date directory that is not hidden, with what reading the file
    yields; a file of a later directory comes before one of an earlier
    directory, and within a directory the later name comes first; with a
    limit that covers the mailbox, every such file is there. Directory names
    are listed once. *)
Theorem listTranscripts_newest_first (ledger : option string) (t : string)
    (l : list (string * bucket)) (limit : Z) (contacts : gmap string string) :
  NoDup l.*1 →
  ∃ origin,
    listTranscripts ledger t (Some (Ok l)) limit contacts
    = Ok (listed_of ledger t contacts <$> origin)
    ∧ StronglySorted newer origin
    ∧ (∀ x, x ∈ origin →
         ∃ entries, x.1 ∈ l.*1 ∧ Str.startsWith "." x.1 = false
                    ∧ readdir l x.1 = Ok entries
                    ∧ Str.endsWith ".json" x.2.1 = true ∧ x.2.1 ∈ entries.*1
                    ∧ x.2.2 = read entries x.2.1)
    ∧ (length (visible t l) ≤ Z.to_nat limit →
       ∀ d entries file, d ∈ l.*1 → Str.startsWith "." d = false →
         readdir l d = Ok entries → Str.endsWith ".json" file = true →
         file ∈ entries.*1 → (d, (file, read entries file)) ∈ origin).
Proof.
  intros Hnd. exists (take (Z.to_nat limit) (shelf l)).
  split; [apply listTranscripts_take|]. split; [|split].
  - apply (StronglySorted_app_1_l _ _ (drop (Z.to_nat limit) (shelf l))).
    rewrite take_drop. by apply shelf_newer.
  - intros x Hx%elem_of_take. destruct Hx as (i & Hx%list_elem_of_lookup_2 & _).
    by apply shelf_elem.
  - intros Hall d entries file Hd Hdot Hread Hjson Hfile.
    rewrite take_ge by (by rewrite (shelf_length t)).
    apply shelf_elem. by exists entries.
Qed.

Lemma listTranscripts_newest_first_witness :
  ∃ origin,
    listTranscripts None "/t" (Some (Ok sample_day)) 10 ∅
    = Ok (listed_of None "/t" ∅ <$> origin)
    ∧ StronglySorted newer origin
    ∧ (∀ x, x ∈ origin →
         ∃ entries, x.1 ∈ sample_day.*1 ∧ Str.startsWith "." x.1 = false
                    ∧ readdir sample_day x.1 = Ok entries
                    ∧ Str.endsWith ".json" x.2.1 = true ∧ x.2.1 ∈ entries.*1
                    ∧ x.2.2 = read entries x.2.1)
    ∧ (length (visible "/t" sample_day) ≤ Z.to_nat 10 →
       ∀ d entries file, d ∈ sample_day.*1 → Str.startsWith "." d = false →
         readdir sample_day d = Ok entries → Str.endsWith ".json" file = true →
         file ∈ entries.*1 → (d, (file, read entries file)) ∈ origin).
Proof.
  apply (listTranscripts_newest_first None "/t" sample_day 10 ∅).
  apply NoDup_singleton.
Defined.

(** *** File names *)

Lemma replace_str_suffix (a : string) :
  has "." a = false → StrExt.replace_str ".json" "" (a +:+ ".json") = a.
Proof.
  induction a as [|c a IH]; [done|]. cbn [has].
  intros [Hc Ha]%orb_false_elim. rewrite app_cons. cbn [StrExt.replace_str String.prefix].
  destruct (Ascii.ascii_dec "." c) as [<-|_]; [done|]. by rewrite (IH Ha).
Qed.

Lemma join_split (sep : ascii) (s : string) :
  Str.join (String sep "") (Str.split sep s) = s.
Proof.
  unfold Str.join. induction s as [|c s IH]; [done|].
  cbn [Str.split]. pose proof (split_nonempty sep s) as Hne.
  destruct (Str.split sep s) as [|piece pieces]; [done|].
  destruct (Ascii.eqb_spec c sep) as [->|Hc].
  - change (String.concat (String sep "") ("" :: piece :: pieces))
      with (String sep (String.concat (String sep "") (piece :: pieces))).
    by rewrite IH.
  - change (String c s) with (String c "" +:+ s). rewrite <- IH.
    by destruct pieces.
Qed.

(** X15: the listing reads identifier and time off the file name. For a
    file [<time>_<id>.json] whose time holds no underscore and whose time
    and identifier hold no dot, the object carries the identifier as it is,
    underscores included, and the date directory, a ["T"] and the time with
    its dashes turned into colons as time stamp. *)
Theorem listed_reads_file_name (processed : gset string)
    (contacts : gmap string string) (dateDir datePath time id : string)
    (content : raw) :
  has "_" time = false → has "." time = false → has "." id = false →
  let item := listed processed contacts dateDir datePath
                (time +:+ "_" +:+ id +:+ ".json") content in
  Entry.conversationId item = id
  ∧ Entry.timestamp item = dateDir +:+ "T" +:+ StrExt.colons time.
Proof.
  intros Hus Htime Hid. cbv zeta. unfold listed. cbn [Entry.conversationId Entry.timestamp].
  assert (Hstem : StrExt.replace_str ".json" "" (time +:+ "_" +:+ id +:+ ".json")
                  = time +:+ "_" +:+ id).
  { rewrite <- (app_assoc_s "_"), <- app_assoc_s. apply replace_str_suffix.
    rewrite !has_app. by rewrite Htime, Hid. }
  rewrite Hstem. change ("_" +:+ id) with (String "_" id).
  rewrite split_app, (split_plain _ time Hus). cbn [app head tail default from_option].
  by rewrite join_split.
Qed.

Lemma listed_reads_file_name_witness :
  let item := listed ∅ ∅ "2024-03-01" "/t/2024-03-01"
                ("14-30-00" +:+ "_" +:+ "conv_01_abc" +:+ ".json")
                (Throw "Unexpected end of JSON input") in
  Entry.conversationId item = "conv_01_abc"
  ∧ Entry.timestamp item = "2024-03-01" +:+ "T" +:+ StrExt.colons "14-30-00".
Proof.
  apply (listed_reads_file_name ∅ ∅ "2024-03-01" "/t/2024-03-01" "14-30-00"
           "conv_01_abc"); reflexivity.
Defined.

(** *** The listing after a tick *)

(** X16: what the poller has marked, the listing reports as processed.
    After a tick over a tidy mailbox and a ledger of clean paths, every file
    whose processing runs to its end is in a listing that covers the mailbox,
    with its flag set. *)
Theorem processed_entries_are_flagged (homedir : string)
    (StringToNumber : string → option Z) (api : host) (cfg : config) (t : string)
    (l : list (string * bucket)) (w : world) (ps : list string)
    (x : string * (string * raw)) (api0 : host) (w0 : world)
    (limit : Z) (names : gmap string string) :
  tidy t l → holds w ps → x ∈ visible t l →
  fst (processTranscript homedir StringToNumber api0 cfg (path_of x) x.2.2 w0) = Ok () →
  length (visible t l) ≤ Z.to_nat limit →
  let w' := snd (tick homedir StringToNumber api cfg t (Some (Ok l)) w) in
  ∃ d items item,
    x.1 = join t d
    ∧ listTranscripts (ledger w') t (Some (Ok l)) limit names = Ok items
    ∧ item ∈ items
    ∧ item = listed (loadProcessed (ledger w')) names d (join t d) x.2.1 x.2.2
    ∧ Entry.processed item = true.
Proof.
  intros Htidy Hholds Hx Hrun%completes_of_run Hlimit. cbv zeta.
  destruct (tick_tidy homedir StringToNumber cfg t l Htidy api w ps Hholds)
    as (w' & delta & -> & _ & Hs & Hholds'). cbn [snd].
  pose proof (tick_completes cfg t l api w w' ps delta x Hs Hx Hrun) as Hin.
  rewrite <- (loadProcessed_holds _ _ Hholds') in Hin.
  pose proof Hx as (d & entries & Hx1 & Hd & Hdot & Hread & Hf & Hjson)%visible_elem.
  destruct (tidy_files t l Htidy d entries (readdir_elem _ _ _ Hread)) as [Hnd _].
  assert (Hcontent : x.2.2 = read entries x.2.1).
  { unfold read. rewrite (elem_lookup_name x.2.1 entries x.2.2 Hnd); [done|].
    by destruct x as [? []]. }
  exists d. eexists. eexists. split; [done|].
  split; [apply listTranscripts_take|]. split; [|split; [reflexivity|]].
  - rewrite take_ge by (by rewrite (shelf_length t)).
    apply list_elem_of_fmap. exists (d, (x.2.1, x.2.2)). split; [done|].
    apply shelf_elem. exists entries. cbn. repeat split; try done.
    apply list_elem_of_fmap. by exists x.2.
  - cbn. apply bool_decide_eq_true. unfold path_of in Hin. by rewrite Hx1 in Hin.
Qed.

Lemma processed_entries_are_flagged_witness :
  let cfg := Config {[ "+34612345678" := "Mom" ]} None None in
  let x : string * (string * raw) :=
    ("/t/2024-03-01",
     ("10-00-00_abc.json",
      Ok (nested_call "+34612345678" "abc" 125 [turn "user" "lunch on Sunday"]))) in
  let w' := snd (tick "/home/u" (λ _, None) all_down cfg "/t" (Some (Ok sample_day))
                   fresh) in
  ∃ d items item,
    x.1 = join "/t" d
    ∧ listTranscripts (ledger w') "/t" (Some (Ok sample_day)) 10 (contacts cfg) = Ok items
    ∧ item ∈ items
    ∧ item = listed (loadProcessed (ledger w')) (contacts cfg) d (join "/t" d) x.2.1 x.2.2
    ∧ Entry.processed item = true.
Proof.
  cbv zeta.
  apply (processed_entries_are_flagged "/home/u" (λ _, None) all_down _ "/t"
           sample_day fresh [] _ all_up fresh 10).
  - apply sample_day_tidy.
  - apply holds_fresh.
  - rewrite sample_day_visible. cbn [fmap list_fmap]. right. left.
  - reflexivity.
  - rewrite sample_day_visible. cbn. lia.
Defined.

(** ** The secrets file *)

(** *** Pieces of strings *)

Lemma split_pieces (sep : ascii) (s : string) :
  Forall (λ p, has sep p = false) (Str.split sep s).
Proof.
  induction s as [|c s IH]; [by repeat constructor|]. cbn [Str.split].
  destruct (Ascii.eqb c sep) eqn:Hc; [by constructor|].
  destruct (Str.split sep s) as [|piece pieces].
  { apply Forall_singleton. cbn [has]. by rewrite Hc. }
  apply Forall_cons in IH as [Hp Hps]. constructor; [|done].
  cbn [has]. by rewrite Hc.
Qed.

Lemma has_trimStart (c : ascii) (s : string) :
  has c s = false → has c (Str.trimStart s) = false.
Proof.
  induction s as [|d s IH]; [done|]. cbn [has Str.trimStart].
  intros [Hd Hs]%orb_false_elim. destruct (Str.is_space d); [by apply IH|].
  cbn [has]. by rewrite Hd, Hs.
Qed.

Lemma has_trimEnd (c : ascii) (s : string) :
  has c s = false → has c (Str.trimEnd s) = false.
Proof.
  induction s as [|d s IH]; [done|]. cbn [has Str.trimEnd].
  intros [Hd Hs]%orb_false_elim.
  destruct (Str.is_space d && Str.is_empty (Str.trimEnd s)); [done|].
  cbn [has]. by rewrite Hd, IH.
Qed.

Lemma has_trim (c : ascii) (s : string) : has c s = false → has c (Str.trim s) = false.
Proof. intros H. by apply has_trimEnd, has_trimStart. Qed.

Lemma has_keep (c : ascii) (n : nat) (s : string) :
  has c s = false → has c (StrExt.keep n s) = false.
Proof.
  revert n. induction s as [|d s IH]; intros [|n]; try done. cbn [has StrExt.keep].
  intros [Hd Hs]%orb_false_elim. by rewrite Hd, IH.
Qed.

Lemma has_skip (c : ascii) (n : nat) (s : string) :
  has c s = false → has c (StrExt.skip n s) = false.
Proof.
  revert n. induction s as [|d s IH]; intros [|n]; try done. cbn [has StrExt.skip].
  intros [Hd Hs]%orb_false_elim. by apply IH.
Qed.

Lemma has_drop_last (c : ascii) (s : string) :
  has c s = false → has c (StrExt.drop_last s) = false.
Proof.
  induction s as [|d s IH]; [done|]. cbn [has]. intros [Hd Hs]%orb_false_elim.
  destruct s as [|e s]; [done|]. cbn [StrExt.drop_last has]. rewrite Hd.
  by apply IH.
Qed.

Lemma has_slice_1_m1 (c : ascii) (s : string) :
  has c s = false → has c (StrExt.slice_1_m1 s) = false.
Proof.
  destruct s as [|d s]; [done|]. cbn [has]. intros [_ Hs]%orb_false_elim.
  by apply has_drop_last.
Qed.

(** What [trim] returns starts and ends with a character that is no
    blank. *)
Lemma trimStart_head (s : string) (c : ascii) (r : string) :
  Str.trimStart s = String c r → Str.is_space c = false.
Proof.
  induction s as [|d s IH]; [done|]. cbn [Str.trimStart].
  destruct (Str.is_space d) eqn:Hd; [done|]. by intros [= <- _].
Qed.

Lemma trimEnd_idem (s : string) : Str.trimEnd (Str.trimEnd s) = Str.trimEnd s.
Proof.
  induction s as [|c s IH]; [done|]. cbn [Str.trimEnd].
  destruct (Str.is_space c && Str.is_empty (Str.trimEnd s)) eqn:E; [done|].
  cbn [Str.trimEnd]. by rewrite IH, E.
Qed.

Lemma trimEnd_head (c : ascii) (r : string) :
  Str.is_space c = false → Str.trimEnd (String c r) = String c (Str.trimEnd r).
Proof. intros Hc. cbn [Str.trimEnd]. by rewrite Hc. Qed.

Lemma trim_cases (s : string) :
  Str.trim s = ""
  ∨ ∃ c r, Str.trim s = String c r ∧ Str.is_space c = false
           ∧ Str.trimStart (Str.trim s) = Str.trim s
           ∧ Str.trimEnd (Str.trim s) = Str.trim s.
Proof.
  unfold Str.trim. destruct (Str.trimStart s) as [|c r] eqn:E; [by left|]. right.
  pose proof (trimStart_head s c r E) as Hc. rewrite trimEnd_head by done.
  exists c, (Str.trimEnd r). repeat split; [done | |].
  - cbn [Str.trimStart]. by rewrite Hc.
  - rewrite <- trimEnd_head by done. apply trimEnd_idem.
Qed.

Lemma trim_head (c : ascii) (r : string) :
  Str.is_space c = false → ∃ r', Str.trim (String c r) = String c r'.
Proof.
  intros Hc. unfold Str.trim. cbn [Str.trimStart]. rewrite Hc, trimEnd_head by done.
  by eexists.
Qed.

Lemma indexOf_keep (c : ascii) (s : string) (n : nat) :
  StrExt.indexOf c s = Some n → has c (StrExt.keep n s) = false.
Proof.
  revert n. induction s as [|d s IH]; intros n; [done|]. cbn [StrExt.indexOf].
  destruct (Ascii.eqb d c) eqn:Hd; [by intros [= <-]|].
  destruct (StrExt.indexOf c s) as [m|]; [|done]. intros [= <-].
  cbn [StrExt.keep has]. by rewrite Hd, IH.
Qed.

Lemma indexOf_app (c : ascii) (a rest : string) :
  has c a = false → StrExt.indexOf c (a +:+ String c rest) = Some (String.length a).
Proof.
  induction a as [|d a IH]; cbn [has].
  - intros _. rewrite app_empty_l. cbn. by rewrite Ascii.eqb_refl.
  - intros [Hd Ha]%orb_false_elim. rewrite app_cons. cbn [StrExt.indexOf String.length].
    by rewrite Hd, IH.
Qed.

Lemma keep_app (a rest : string) : StrExt.keep (String.length a) (a +:+ rest) = a.
Proof.
  induction a as [|d a IH]; [by destruct rest|]. rewrite app_cons.
  cbn [String.length StrExt.keep]. by rewrite IH.
Qed.

Lemma skip_app (a rest : string) : StrExt.skip (String.length a) (a +:+ rest) = rest.
Proof.
  induction a as [|d a IH]; [by destruct rest|]. by rewrite app_cons.
Qed.

Lemma drop_last_snoc (v : string) (c : ascii) :
  StrExt.drop_last (v +:+ String c "") = v.
Proof.
  induction v as [|d v IH]; [done|]. rewrite app_cons.
  cbn [StrExt.drop_last]. rewrite IH. by destruct v.
Qed.

Lemma endsWith_snoc (v : string) (c : ascii) :
  Str.endsWith (String c "") (v +:+ String c "") = true.
Proof.
  induction v as [|d v IH].
  - rewrite app_empty_l. cbn [Str.endsWith]. by rewrite String.eqb_refl.
  - rewrite app_cons. cbn [Str.endsWith]. rewrite IH. apply orb_true_r.
Qed.

Lemma split_lines (p : string) (ps : list string) :
  Forall (λ q, has "010" q = false) (p :: ps) →
  Str.split "010" (String.concat nl (p :: ps)) = p :: ps.
Proof.
  revert p. induction ps as [|q r IH]; intros p Hall;
    apply Forall_cons_1 in Hall as [Hp Hrest].
  - by apply split_plain.
  - rewrite concat_cons2. unfold nl at 1. rewrite app_cons, app_empty_l.
    by rewrite split_app, split_plain, IH.
Qed.

(** *** Records of strings *)

Lemma get_None_keys (k : string) (o : Obj.record) : Obj.own k o = None ↔ k ∉ o.*1.
Proof.
  unfold Obj.own. induction o as [|[a b] o IH]; cbn [lookup_name fmap list_fmap fst].
  - split; [intros _; apply not_elem_of_nil | done].
  - rewrite not_elem_of_cons. destruct (String.eqb_spec k a) as [->|Hne].
    + split; [done | by intros []].
    + rewrite IH. by split; [|intros []].
Qed.

Lemma get_update (k' k v : string) (o : Obj.record) :
  Obj.own k o ≠ None →
  Obj.own k' (Obj.update k v o) = if decide (k' = k) then Some v else Obj.own k' o.
Proof.
  unfold Obj.own. induction o as [|[a b] o IH]; [done|]. cbn [Obj.update lookup_name].
  destruct (String.eqb_spec k a) as [->|Hne]; intros Hk; cbn [lookup_name].
  - destruct (String.eqb_spec k' a) as [->|Hne']; [by rewrite decide_True|].
    by rewrite decide_False.
  - rewrite (IH Hk). destruct (String.eqb_spec k' a) as [->|Hne']; [|done].
    by rewrite decide_False by done.
Qed.

Lemma update_keys (k v : string) (o : Obj.record) : (Obj.update k v o).*1 = o.*1.
Proof.
  induction o as [|[a b] o IH]; [done|]. cbn [Obj.update].
  destruct (String.eqb k a); cbn [fmap list_fmap fst]; [done|].
  f_equal. apply IH.
Qed.

Lemma update_Forall (P : string * string → Prop) (k v : string) (o : Obj.record) :
  (∀ b, P (k, b) → P (k, v)) → Forall P o → Forall P (Obj.update k v o).
Proof.
  intros Hkv. induction 1 as [|[a b] o Hab Ho IH]; [constructor|]. cbn [Obj.update].
  destruct (String.eqb_spec k a) as [->|Hne]; constructor; eauto.
Qed.

Lemma insert_index_perm (n : N) (k v : string) (o : Obj.record) :
  Obj.insert_index n k v o ≡ₚ (k, v) :: o.
Proof.
  induction o as [|[a b] o IH]; [done|]. cbn [Obj.insert_index].
  destruct (Obj.index a) as [n'|]; [|done]. destruct (n <? n')%N; [done|].
  rewrite IH. apply Permutation_swap.
Qed.

Lemma get_insert_index (k' k v : string) (n : N) (o : Obj.record) :
  Obj.own k o = None →
  Obj.own k' (Obj.insert_index n k v o)
  = if decide (k' = k) then Some v else Obj.own k' o.
Proof.
  unfold Obj.own.
  assert (Hhere : ∀ o', lookup_name k' ((k, v) :: o')
                        = if decide (k' = k) then Some v else lookup_name k' o').
  { intros o'. cbn [lookup_name].
    destruct (String.eqb_spec k' k) as [->|Hne];
      [by rewrite decide_True | by rewrite decide_False]. }
  induction o as [|[a b] o IH]; [intros _; apply Hhere|].
  cbn [Obj.insert_index lookup_name].
  destruct (String.eqb_spec k a) as [->|Hne]; [done|]. intros Hk.
  destruct (Obj.index a) as [n'|]; [|apply Hhere].
  destruct (n <? n')%N; [apply Hhere|]. cbn [lookup_name]. rewrite (IH Hk).
  destruct (String.eqb_spec k' a) as [->|Hne']; [|done]. by rewrite decide_False by done.
Qed.

Lemma get_snoc (k' k v : string) (o : Obj.record) :
  Obj.own k o = None →
  Obj.own k' (o ++ [(k, v)]) = if decide (k' = k) then Some v else Obj.own k' o.
Proof.
  unfold Obj.own. intros Hk. rewrite lookup_name_app. cbn [lookup_name].
  destruct (String.eqb_spec k' k) as [->|Hne].
  - by rewrite decide_True, Hk.
  - rewrite decide_False by done. by destruct (lookup_name k' o).
Qed.

(** Reading after writing. *)
Lemma get_set (k' k v : string) (o : Obj.record) :
  k ≠ "__proto__" →
  Obj.own k' (Obj.set k v o) = if decide (k' = k) then Some v else Obj.own k' o.
Proof.
  intros Hproto. unfold Obj.set.
  destruct (String.eqb_spec k "__proto__") as [|_]; [done|].
  destruct (lookup_name k o) as [b|] eqn:Hk.
  - apply get_update. unfold Obj.own. by rewrite Hk.
  - destruct (Obj.index k); [by apply get_insert_index | by apply get_snoc].
Qed.

Lemma set_tidy (k v : string) (o : Obj.record) :
  tidy_secrets o → (k ≠ "__proto__" → key_ok k ∧ has "010" v = false) →
  tidy_secrets (Obj.set k v o).
Proof.
  intros [Hnd Hall] Hkv. unfold Obj.set.
  destruct (String.eqb_spec k "__proto__") as [|Hproto]; [done|].
  specialize (Hkv Hproto).
  destruct (lookup_name k o) as [b|] eqn:Hk.
  - split; [by rewrite update_keys|]. apply update_Forall; [|done].
    cbn. by intros _ _.
  - apply get_None_keys in Hk.
    assert (Hnew : tidy_secrets ((k, v) :: o)).
    { split; [by apply NoDup_cons | by constructor]. }
    destruct Hnew as [Hnd' Hall'].
    destruct (Obj.index k) as [n|]; unfold tidy_secrets.
    + by rewrite insert_index_perm.
    + assert (Hperm : o ++ [(k, v)] ≡ₚ (k, v) :: o)
        by (by rewrite <- Permutation_cons_append).
      by rewrite Hperm.
Qed.

(** *** Lines *)

Lemma startsWith_head (p : ascii) (c : ascii) (x y : string) :
  Str.startsWith (String p "") (String c x) = Str.startsWith (String p "") (String c y).
Proof.
  unfold Str.startsWith. cbn [String.prefix]. destruct (Ascii.ascii_dec p c); [|done].
  by destruct x, y.
Qed.

Lemma skip_S_app (a : string) (c : ascii) (rest : string) :
  StrExt.skip (S (String.length a)) (a +:+ String c rest) = rest.
Proof. induction a as [|d a IH]; [by destruct rest|]. by rewrite app_cons. Qed.

Lemma secret_of_line_tidy (o : Obj.record) (line : string) :
  tidy_secrets o → has "010" line = false → tidy_secrets (secret_of_line o line).
Proof.
  intros Ho Hline. unfold secret_of_line.
  pose proof (has_trim _ _ Hline) as Hnl.
  destruct (trim_cases line) as [->|(c & r & E & Hc & Hstart & Hend)]; [done|].
  rewrite E in *. cbn [Str.is_empty orb].
  destruct (Str.startsWith "#" (String c r)) eqn:Hhash; [done|].
  destruct (StrExt.indexOf "=" (String c r)) as [[|i]|] eqn:Heq; [done | | done].
  apply set_tidy; [done|]. intros Hproto.
  pose proof (indexOf_keep _ _ _ Heq) as Hnoeq.
  cbn [StrExt.keep] in *.
  destruct (trim_head c (StrExt.keep i r) Hc) as [r' Hkey].
  destruct (trim_cases (String c (StrExt.keep i r)))
    as [Hempty|(_ & _ & _ & _ & Hs & He)]; [by rewrite Hkey in Hempty|].
  split; [split; [split; [|split; [|split]]|split; [|split]]|].
  - by rewrite Hkey.
  - apply has_trim. apply (has_keep _ (S i) (String c r)). done.
  - done.
  - done.
  - by apply has_trim.
  - rewrite Hkey. by rewrite (startsWith_head _ _ r' r).
  - done.
  - match goal with |- has _ (if ?b then _ else _) = false => destruct b end;
      [apply has_slice_1_m1|]; apply has_trim; by apply (has_skip _ (S (S i)) (String c r)).
Qed.

Lemma loadZoSecrets_tidy (file : secrets_file) : tidy_secrets (loadZoSecrets file).
Proof.
  assert (Hempty : tidy_secrets []) by (split; constructor).
  destruct file as [[content|]|]; [|done..]. cbn [loadZoSecrets].
  pose proof (split_pieces "010" content) as Hlines. revert Hempty.
  generalize (@nil (string * string)) as o.
  induction Hlines as [|line lines Hline _ IH]; intros o Ho; [done|].
  cbn [foldl]. by apply IH, secret_of_line_tidy.
Qed.

(** A line as [saveZoSecret] writes it is read back as it was meant. *)
Lemma secret_of_line_written (o : Obj.record) (k v : string) :
  key_ok k → secret_of_line o (secret_line (k, v)) = Obj.set k v o.
Proof.
  intros ((Hne & _ & Hstart & Hend) & Heq & Hhash & _).
  unfold secret_of_line, secret_line. cbn [fst snd].
  destruct k as [|c k']; [done|]. set (k := String c k') in *.
  assert (Hq : Str.trimEnd dq = dq) by reflexivity.
  assert (Hline : Str.trim (k +:+ "=" +:+ dq +:+ v +:+ dq) = k +:+ "=" +:+ dq +:+ v +:+ dq).
  { unfold Str.trim. rewrite trimStart_prefix by done.
    rewrite <- !app_assoc_s. rewrite trimEnd_prefix by (by rewrite Hq).
    by rewrite Hq. }
  rewrite Hline. unfold k at 1 2. rewrite app_cons. cbn [Str.is_empty orb].
  rewrite (startsWith_head _ _ _ k'). fold k. rewrite Hhash.
  change ("=" +:+ dq +:+ v +:+ dq) with (String "=" (dq +:+ v +:+ dq)).
  rewrite indexOf_app by done. unfold k at 1. cbn [String.length]. fold k.
  change (S (String.length k')) with (String.length k).
  rewrite keep_app, skip_S_app.
  assert (Hk : Str.trim k = k) by (unfold Str.trim; by rewrite Hstart, Hend).
  assert (Hval : Str.trim (dq +:+ v +:+ dq) = dq +:+ v +:+ dq).
  { unfold Str.trim. change (Str.trimStart (dq +:+ v +:+ dq)) with (dq +:+ v +:+ dq).
    rewrite <- app_assoc_s. rewrite trimEnd_prefix by (by rewrite Hq). by rewrite Hq. }
  rewrite Hk, Hval.
  replace (Str.startsWith dq (dq +:+ v +:+ dq)) with true by (by destruct v).
  replace (Str.endsWith dq (dq +:+ v +:+ dq)) with true
    by (symmetry; rewrite <- app_assoc_s; apply endsWith_snoc).
  cbn [andb orb]. f_equal.
  change (StrExt.slice_1_m1 (dq +:+ v +:+ dq)) with (StrExt.drop_last (v +:+ dq)).
  apply drop_last_snoc.
Qed.

Lemma concat_snoc_empty (sep : string) (p : string) (ps : list string) :
  String.concat sep ((p :: ps) ++ [""]) = String.concat sep (p :: ps) +:+ sep.
Proof.
  revert p. induction ps as [|q r IH]; intros p.
  - cbn. by rewrite app_empty_r.
  - change ((p :: q :: r) ++ [""]) with (p :: ((q :: r) ++ [""])).
    cbn [app]. rewrite !concat_cons2. change (q :: r ++ [""]) with ((q :: r) ++ [""]).
    by rewrite IH, !app_assoc_s.
Qed.

Lemma foldl_written (o : Obj.record) (acc : Obj.record) :
  Forall (λ kv, key_ok kv.1 ∧ has "010" kv.2 = false) o →
  foldl secret_of_line acc (secret_line <$> o) = foldl (λ s kv, Obj.set kv.1 kv.2 s) acc o.
Proof.
  intros Ho. revert acc. induction Ho as [|[k v] o [Hk _] _ IH]; intros acc; [done|].
  cbn [foldl fmap list_fmap]. by rewrite secret_of_line_written, IH.
Qed.

Lemma get_foldl_set (k' : string) (o : Obj.record) :
  tidy_secrets o →
  Obj.own k' (foldl (λ s kv, Obj.set kv.1 kv.2 s) [] o) = Obj.own k' o.
Proof.
  induction o as [|[k v] o IH] using rev_ind; [done|]. intros [Hnd Hall].
  rewrite fmap_app in Hnd. apply NoDup_app in Hnd as (Hnd & Hfresh & _).
  apply Forall_app in Hall as [Hall [[Hk _] _]%Forall_cons_1].
  rewrite foldl_app. cbn [foldl fst snd].
  rewrite get_set by apply Hk. rewrite IH by done.
  rewrite get_snoc; [done|]. apply get_None_keys. intros Hin.
  apply (Hfresh k Hin). by left.
Qed.

Lemma secret_line_one_line (kv : string * string) :
  key_ok kv.1 ∧ has "010" kv.2 = false → has "010" (secret_line kv) = false.
Proof.
  intros [((_ & Hk & _) & _) Hv]. unfold secret_line. rewrite !has_app.
  by rewrite Hk, Hv.
Qed.

(** What is read back from the file [saveZoSecret] would write for the
    secrets [o]. *)
Lemma load_written (o : Obj.record) (k' : string) :
  tidy_secrets o → o ≠ [] →
  Obj.own k' (loadZoSecrets (Some (Ok (Str.join nl (secret_line <$> o) +:+ nl))))
  = Obj.own k' o.
Proof.
  intros Ho Hne. pose proof Ho as [_ Hall]. cbn [loadZoSecrets]. unfold Str.join.
  destruct o as [|kv o]; [done|]. cbn [fmap list_fmap].
  rewrite <- concat_snoc_empty. cbn [app]. rewrite split_lines.
  - change (secret_line kv :: (secret_line <$> o) ++ [""])
      with ((secret_line <$> kv :: o) ++ [""]).
    rewrite foldl_app. cbn [foldl].
    rewrite foldl_written by done. unfold secret_of_line at 1. cbn [Str.trim].
    by apply get_foldl_set.
  - change (secret_line kv :: (secret_line <$> o) ++ [""])
      with ((secret_line <$> kv :: o) ++ [""]).
    apply Forall_app. split; [|by apply Forall_singleton].
    apply Forall_fmap. eapply Forall_impl; [done|]. apply secret_line_one_line.
Qed.

(** X17: a secret that is saved is the secret that is loaded. On a Zo
    Computer (the secrets file is there), after [saveZoSecret] has written a
    value that holds no line break under a key that is clean, without ["="]
    and no comment, [loadZoSecrets] yields that value for the key and, for
    every other key, what it yielded before. *)
Theorem saved_secret_is_loaded (key value : string) (file : res string) (k : string) :
  key_ok key → has "010" value = false →
  ∃ written,
    saveZoSecret key value (Some file) = Some written
    ∧ Obj.own k (loadZoSecrets (Some (Ok written)))
      = if decide (k = key) then Some value else Obj.own k (loadZoSecrets (Some file)).
Proof.
  intros Hkey Hvalue. eexists. split; [reflexivity|].
  set (o := Obj.set key value (loadZoSecrets (Some file))).
  assert (Ho : tidy_secrets o) by (apply set_tidy; [apply loadZoSecrets_tidy | done]).
  assert (Hget : ∀ k', Obj.own k' o
                       = if decide (k' = key) then Some value
                         else Obj.own k' (loadZoSecrets (Some file)))
    by (intros k'; apply get_set, Hkey).
  rewrite <- Hget. apply (load_written o k Ho).
  intros Hnil. specialize (Hget key). rewrite Hnil, decide_True in Hget by done. done.
Qed.

Lemma saved_secret_is_loaded_witness :
  ∃ written,
    saveZoSecret "ELEVENLABS_AGENT_ID" "agent_42"
      (Some (Ok ("# keys" +:+ nl +:+ "ELEVENLABS_API_KEY = 'sk-1'" +:+ nl)))
    = Some written
    ∧ Obj.own "ELEVENLABS_API_KEY" (loadZoSecrets (Some (Ok written)))
      = if decide ("ELEVENLABS_API_KEY" = "ELEVENLABS_AGENT_ID") then Some "agent_42"
        else Obj.own "ELEVENLABS_API_KEY"
               (loadZoSecrets
                  (Some (Ok ("# keys" +:+ nl +:+ "ELEVENLABS_API_KEY = 'sk-1'" +:+ nl)))).
Proof.
  apply (saved_secret_is_loaded "ELEVENLABS_AGENT_ID" "agent_42").
  - by repeat split.
  - reflexivity.
Defined.

(** X18: whatever the secrets file holds, the keys [loadZoSecrets] yields
    are listed once, are not empty, have no blank at either end, hold no
    ["="] and no line break and do not start a comment; the values hold no
    line break. *)
Theorem loaded_secrets_are_tidy (file : secrets_file) (k v : string) :
  Obj.own k (loadZoSecrets file) = Some v →
  NoDup (loadZoSecrets file).*1
  ∧ (k ≠ "" ∧ Str.trim k = k ∧ has "=" k = false ∧ has "010" k = false
     ∧ Str.startsWith "#" k = false ∧ k ≠ "__proto__")
  ∧ has "010" v = false.
Proof.
  destruct (loadZoSecrets_tidy file) as [Hnd Hall]. intros Hin%lookup_name_elem.
  split; [done|]. rewrite Forall_forall in Hall.
  destruct (Hall _ Hin) as [((Hne & Hnl & Hs & He) & Heq & Hhash & Hproto) Hv].
  cbn in *. repeat split; try done. unfold Str.trim. by rewrite Hs, He.
Qed.

Lemma loaded_secrets_are_tidy_witness :
  let file := Some (Ok ("  KEY = " +:+ dq +:+ "a b" +:+ dq +:+ nl +:+ "=x" +:+ nl)) in
  NoDup (loadZoSecrets file).*1
  ∧ ("KEY" ≠ "" ∧ Str.trim "KEY" = "KEY" ∧ has "=" "KEY" = false
     ∧ has "010" "KEY" = false ∧ Str.startsWith "#" "KEY" = false ∧ "KEY" ≠ "__proto__")
  ∧ has "010" "a b" = false.
Proof.
  cbv zeta.
  apply (loaded_secrets_are_tidy
           (Some (Ok ("  KEY = " +:+ dq +:+ "a b" +:+ dq +:+ nl +:+ "=x" +:+ nl)))
           "KEY" "a b").
  reflexivity.
Defined.

(** ** The transcript directory *)

(** X19: the configured transcript directory has its first ["~"] replaced
    by the home directory, wherever in the path it stands, and no other; a
    path without ["~"] is taken as it is. The home directory holds no dollar
    sign, which [replace] reads as the start of a pattern. *)
Theorem getTranscriptDir_first_tilde (homedir pre post : string) :
  has "~" pre = false → has "$" homedir = false →
  getTranscriptDir homedir (Some (pre +:+ "~" +:+ post)) = pre +:+ homedir +:+ post
  ∧ (pre ≠ "" → getTranscriptDir homedir (Some pre) = pre).
Proof.
  intros Hpre Hhome. unfold getTranscriptDir. split.
  - replace (Str.is_empty (pre +:+ "~" +:+ post)) with false by (by destruct pre).
    by apply replace_first_app.
  - intros Hne. destruct pre as [|c pre]; [done|]. cbn [Str.is_empty].
    by apply replace_first_none.
Qed.

Lemma getTranscriptDir_first_tilde_witness :
  getTranscriptDir "/home/u" (Some ("" +:+ "~" +:+ "/calls/~old"))
  = "" +:+ "/home/u" +:+ "/calls/~old"
  ∧ getTranscriptDir "/home/u" (Some ("/srv/" +:+ "~" +:+ "calls"))
    = "/srv/" +:+ "/home/u" +:+ "calls"
  ∧ getTranscriptDir "/home/u" (Some "/srv/calls") = "/srv/calls".
Proof.
  split; [apply (getTranscriptDir_first_tilde "/home/u" "" "/calls/~old"); reflexivity|].
  split; [apply (getTranscriptDir_first_tilde "/home/u" "/srv/" "calls"); reflexivity|].
  apply (getTranscriptDir_first_tilde "/home/u" "/srv/calls" ""); [reflexivity..| done].
Defined.

(** ** Outbound calls *)

Lemma place_events (net : Call.request → Call.response) (r : Call.request)
    (contactName : json) (task : string) :
  ∃ tail, (Call.place net r contactName task).2 = Call.Post r :: tail
          ∧ Forall (λ e, is_post e = false) tail.
Proof.
  unfold Call.place. destruct (net r) as [e|status [errText|e]|[result|e]];
    try (by exists []).
  exists [Call.Logged (Js.to_string contactName) (Call.to_number r) result].
  split; [by destruct (Js.get_strict _ _) | by repeat constructor].
Qed.

(** The greeting can be worked out unless it is to be made from a name that
    is no string: no first message is given, and the number is not in the
    contacts and reads as the name of an inherited member. *)
Lemma opening_cases (contacts : gmap string string) (to : string)
    (firstMessage : option string) :
  (∃ m, Call.opening (resolveCallerName (JStr to) contacts) to firstMessage = Ok m)
  ∨ (Call.opening (resolveCallerName (JStr to) contacts) to firstMessage
     = Throw "contactName.split is not a function"
     ∧ falsy firstMessage = true ∧ contacts !! to = None ∧ Js.inherited to ≠ None).
Proof.
  unfold Call.opening. destruct (falsy firstMessage); [|left; by eexists].
  destruct (contacts !! to) as [name|] eqn:Hto;
    [|destruct (Js.inherited to) as [v|] eqn:Hv].
  - left. destruct (resolveCallerName_string to contacts) as [n ->];
      [by rewrite Hto|].
    cbn [Call.first_word]. destruct (negb (String.eqb n to)); by eexists.
  - right. rewrite (resolveCallerName_inherited to contacts v Hto Hv).
    destruct (inherited_truthy to v Hv) as [_ Hfun].
    by destruct v; try (by destruct (Hfun s)).
  - left. destruct (resolveCallerName_string to contacts) as [n ->]; [done|].
    cbn [Call.first_word]. destruct (negb (String.eqb n to)); by eexists.
Qed.

Lemma makeOutboundCall_cases (s : Call.setup) (net : Call.request → Call.response)
    (to task : string) (firstMessage context : option string) :
  let zoSec := loadZoSecrets (Call.secrets s) in
  let apiKey :=
    or_else (or_else (Call.apiKey s) (Call.env s "ELEVENLABS_API_KEY"))
      (Obj.own "ELEVENLABS_API_KEY" zoSec) in
  let agentId :=
    or_else (or_else (Call.agentId s) (Call.env s "ELEVENLABS_AGENT_ID"))
      (Obj.own "ELEVENLABS_AGENT_ID" zoSec) in
  (falsy apiKey || falsy agentId = true
   ∧ makeOutboundCall s net to task firstMessage context
     = (Ok (Call.Plain
              "Error: elevenlabs.apiKey and elevenlabs.agentId must be configured."), []))
  ∨ (∃ key, apiKey = Some key ∧ key ≠ ""
      ∧ makeOutboundCall s net to task firstMessage context
        = (Throw "contactName.split is not a function", [])
      ∧ falsy firstMessage = true ∧ Call.contacts s !! to = None
      ∧ Js.inherited to ≠ None)
  ∨ ∃ key agent m reply tail,
      apiKey = Some key ∧ key ≠ "" ∧ agentId = Some agent ∧ agent ≠ ""
      ∧ Call.opening (resolveCallerName (JStr to) (Call.contacts s)) to firstMessage
        = Ok m
      ∧ makeOutboundCall s net to task firstMessage context
        = (Ok reply,
           Call.Post
             (Call.Request key agent
                (or_else (or_else (Call.phoneNumberId s)
                            (Call.env s "ELEVENLABS_PHONE_NUMBER_ID"))
                   (Obj.own "ELEVENLABS_PHONE_NUMBER_ID" zoSec))
                to
                (Call.agentPrompt
                   (Js.to_string (resolveCallerName (JStr to) (Call.contacts s)))
                   to task context)
                m) :: tail)
      ∧ Forall (λ e, is_post e = false) tail.
Proof.
  cbv zeta. unfold makeOutboundCall.
  destruct (or_else (or_else (Call.apiKey s) _) _) as [key|]; [|by left].
  destruct (or_else (or_else (Call.agentId s) _) _) as [agent|];
    [|left; split; [apply orb_true_r | done]].
  cbn [falsy]. destruct (Str.is_empty key || Str.is_empty agent) eqn:Hempty; [by left|].
  apply orb_false_elim in Hempty as [Hkey Hagent]. right.
  destruct (opening_cases (Call.contacts s) to firstMessage)
    as [[m Hm] | (Hm & Hfirst & Hto & Hinh)]; rewrite Hm.
  2:{ left. exists key. repeat split; try done. by intros ->. }
  right.
  match goal with |- context [Call.place net ?r ?c ?t] =>
    destruct (place_events net r c t) as (tail & Hev & Htail);
    destruct (Call.place net r c t) as [reply events] eqn:Hplace
  end.
  cbn [snd] in Hev. subst events. exists key, agent, m, reply, tail.
  repeat split; try done; by intros ->.
Qed.

(** X20: [makeOutboundCall] posts at most one request, and throws only
    before any: whatever the configuration, the network and the provider do,
    either nothing has left the machine or exactly one request has, to the
    number asked for, with a key and an agent identifier that are not empty.
    It throws in one case, and has then posted nothing: the greeting is to be
    made from the callee's name (no first message is given) and the number,
    not in the contacts, reads as the name of a member every object inherits,
    so that the name is no string; otherwise it hands back a reply. *)
Theorem makeOutboundCall_one_request (s : Call.setup)
    (net : Call.request → Call.response) (to task : string)
    (firstMessage context : option string) :
  let run := makeOutboundCall s net to task firstMessage context in
  one_request to (snd run)
  ∧ (∀ e, fst run = Throw e →
       snd run = [] ∧ e = "contactName.split is not a function"
       ∧ falsy firstMessage = true ∧ Call.contacts s !! to = None
       ∧ Js.inherited to ≠ None)
  ∧ (falsy firstMessage = false ∨ Call.contacts s !! to ≠ None
     ∨ Js.inherited to = None →
     ∃ reply, fst run = Ok reply).
Proof.
  cbv zeta.
  destruct (makeOutboundCall_cases s net to task firstMessage context)
    as [[_ ->] | [(key & _ & _ & -> & Hfirst & Hto & Hinh)
       | (key & agent & m & reply & tail & _ & Hkey & _ & Hagent & _ & -> & Htail)]];
    cbn [fst snd].
  - split; [by left|]. split; [done | by eexists].
  - split; [by left|]. split; [by intros e [= <-]|].
    intros [Hgiven | [Hbound | Hplain]]; [by rewrite Hfirst in Hgiven | done | done].
  - split; [right; by eexists _, tail|]. split; [done | by eexists].
Qed.

(** X21: a credential of the plugin configuration wins over the
    environment and the secrets file, also when it is the empty string: with
    an empty key in the configuration no request is made, whatever key the
    environment or the secrets file holds; with a key that is not empty in
    the configuration, that key is the one a request carries. *)
Theorem configured_key_wins (s : Call.setup) (net : Call.request → Call.response)
    (to task : string) (firstMessage context : option string) (key : string) :
  Call.apiKey s = Some key →
  let run := makeOutboundCall s net to task firstMessage context in
  (key = "" →
   run = (Ok (Call.Plain
                "Error: elevenlabs.apiKey and elevenlabs.agentId must be configured."),
          []))
  ∧ ∀ r, Call.Post r ∈ run.2 → Call.xi_api_key r = key.
Proof.
  intros Hcfg. cbv zeta.
  destruct (makeOutboundCall_cases s net to task firstMessage context)
    as [[Hfalsy ->] | [(k & Hk & Hne & -> & _)
       | (k & agent & m & reply & tail & Hk & Hne & _ & _ & _ & -> & Htail)]].
  - split; [done|]. intros r Hr. by apply elem_of_nil in Hr.
  - rewrite Hcfg in Hk. cbn in Hk. injection Hk as <-. split; [done|].
    intros r Hr. by apply elem_of_nil in Hr.
  - rewrite Hcfg in Hk. cbn in Hk. injection Hk as <-. split; [done|].
    intros r Hr. cbn [snd] in Hr. apply elem_of_cons in Hr as [[= ->] | Hr]; [done|].
    rewrite Forall_forall in Htail. by specialize (Htail _ Hr).
Qed.

Lemma configured_key_wins_witness :
  let s := Call.Setup (Some "") (Some "agent_1") None ∅
             (λ _, Some "sk-from-the-environment") None in
  let run := makeOutboundCall s (λ _, Call.Unreachable "offline") "+34612345678"
               "say hello" None None in
  ("" = "" →
   run = (Ok (Call.Plain
                "Error: elevenlabs.apiKey and elevenlabs.agentId must be configured."),
          []))
  ∧ ∀ r, Call.Post r ∈ run.2 → Call.xi_api_key r = "".
Proof.
  cbv zeta.
  apply (configured_key_wins
           (Call.Setup (Some "") (Some "agent_1") None ∅
              (λ _, Some "sk-from-the-environment") None)
           (λ _, Call.Unreachable "offline") "+34612345678" "say hello" None None "").
  reflexivity.
Defined.

Lemma split_head (sep : ascii) (s : string) :
  ∃ w rest, Str.split sep s = w :: rest ∧ has sep w = false.
Proof.
  pose proof (split_pieces sep s) as Hall.
  pose proof (split_nonempty sep s) as Hne.
  destruct (Str.split sep s) as [|w rest]; [done|].
  apply Forall_cons in Hall as [Hw _]. by exists w, rest.
Qed.

(** X22: when no first message is given, the request greets the callee by
    the first word of the name the contacts bind the number to, if that name
    is not empty and not the number itself, and without a name if the number
    is not bound. *)
Theorem greeting_uses_first_name (s : Call.setup) (net : Call.request → Call.response)
    (to task : string) (context : option string) (r : Call.request) :
  to ≠ "" →
  Call.Post r ∈ (makeOutboundCall s net to task None context).2 →
  (∀ name, Call.contacts s !! to = Some name → name ≠ "" → name ≠ to →
     ∃ w rest, Str.split " " name = w :: rest ∧ has " " w = false
               ∧ Call.first_message r = "Hello, " +:+ w +:+ "! This is Alfred calling.")
  ∧ (Call.contacts s !! to = None →
     Call.first_message r = "Hello! This is Alfred calling.").
Proof.
  intros Hto Hr.
  destruct (makeOutboundCall_cases s net to task None context)
    as [[_ E] | [(k & _ & _ & E & _)
       | (k & agent & m & reply & tail & _ & _ & _ & _ & Hm & E & Htail)]];
    rewrite E in Hr; cbn [snd] in Hr; [by apply elem_of_nil in Hr..|].
  apply elem_of_cons in Hr as [[= ->] | Hr];
    [|rewrite Forall_forall in Htail; by specialize (Htail _ Hr)].
  cbn [Call.first_message]. unfold Call.opening in Hm. cbn [falsy] in Hm.
  unfold resolveCallerName, Js.member in Hm. cbn [Js.to_string] in Hm. split.
  - intros name Hname Hne Hdiff. rewrite Hname in Hm.
    apply truthy_JStr in Hne. rewrite Hne in Hm.
    destruct (String.eqb_spec name to) as [|_]; [done|]. cbn in Hm.
    destruct (split_head " " name) as (w & rest & Hsplit & Hw).
    rewrite Hsplit in Hm. cbn in Hm. injection Hm as <-. by exists w, rest.
  - intros Hnone. rewrite Hnone in Hm.
    destruct (Js.inherited to) as [v|] eqn:Hv.
    + destruct (inherited_truthy to v Hv) as [Htrue Hfun]. rewrite Htrue in Hm.
      by destruct v; try (by destruct (Hfun s0)).
    + apply truthy_JStr in Hto. rewrite Hto in Hm.
      rewrite String.eqb_refl in Hm. cbn in Hm. by injection Hm as <-.
Qed.

Lemma greeting_uses_first_name_witness :
  let s := Call.Setup (Some "sk-1") (Some "agent_1") None
             {[ "+34612345678" := "Maria del Mar" ]} (λ _, None) None in
  let net : Call.request → Call.response :=
    λ _, Call.Answered (Ok (JObj [("conversation_id", JStr "conv_9")])) in
  let r := Call.Request "sk-1" "agent_1" None "+34612345678"
             (Call.agentPrompt "Maria del Mar" "+34612345678" "say hello" None)
             "Hello, Maria! This is Alfred calling." in
  (∀ name, Call.contacts s !! "+34612345678" = Some name → name ≠ "" →
     name ≠ "+34612345678" →
     ∃ w rest, Str.split " " name = w :: rest ∧ has " " w = false
               ∧ Call.first_message r = "Hello, " +:+ w +:+ "! This is Alfred calling.")
  ∧ (Call.contacts s !! "+34612345678" = None →
     Call.first_message r = "Hello! This is Alfred calling.").
Proof.
  cbv zeta.
  apply (greeting_uses_first_name _
           (λ _, Call.Answered (Ok (JObj [("conversation_id", JStr "conv_9")])))
           "+34612345678" "say hello" None).
  - done.
  - left.
Defined.

(** ** The tool *)

(** X23: of the actions of the tool, only [call] reaches the network, and
    only with a number and a task that are there and not empty: whatever the
    parameters, either no request was made, or the action is [call] and
    exactly one request went to the number given, with a key and an agent
    identifier that are not empty. *)
Theorem only_calls_reach_the_network (homedir : string)
    (StringToNumber : string → option Z) (s : Tool.surroundings)
    (net : Call.request → Call.response) (p : Tool.params) :
  let events := snd (execute homedir StringToNumber s net p) in
  events = []
  ∨ ∃ to task,
      Tool.action p = Some "call" ∧ Tool.to p = Some to ∧ to ≠ ""
      ∧ Tool.task p = Some task ∧ task ≠ ""
      ∧ one_request to events.
Proof.
  cbv zeta. unfold execute, action_is.
  destruct (Tool.action p) as [a|] eqn:Ha; [|by left].
  destruct (String.eqb_spec a "call") as [->|_].
  2:{ repeat match goal with |- context [if ?b then _ else _] => destruct b end;
        by left. }
  destruct (Tool.to p) as [to|]; [|by left].
  destruct (Tool.task p) as [task|]; [|left; cbn [falsy]; by rewrite orb_true_r].
  cbn [falsy default from_option].
  destruct (Str.is_empty to) eqn:Hto; [by left|].
  destruct (Str.is_empty task) eqn:Htask; [by left|]. cbn [orb]. unfold id.
  destruct (makeOutboundCall_cases (Tool.setup s) net to task
              (Tool.firstMessage p) (Tool.context p))
    as [[_ ->] | [(key & _ & _ & -> & _)
       | (key & agent & m & reply & tail & _ & Hkey & _ & Hagent & _ & -> & Htail)]];
    [by left..|].
  cbn [snd]. right. exists to, task.
  repeat (split; [first [done | by intros ->]|]). right. by eexists _, tail.
Qed.

(** X24: asked to list transcripts without a limit, the tool lists ten at
    most: as many as the transcript directory has [.json] files in listed
    date directories that are not hidden, up to ten. *)
Theorem listing_defaults_to_ten (homedir : string) (StringToNumber : string → option Z)
    (s : Tool.surroundings) (net : Call.request → Call.response) (p : Tool.params)
    (l : list (string * bucket)) :
  Tool.action p = Some "list_transcripts" → Tool.limit p = None →
  Tool.mb s = Some (Ok l) →
  ∃ items,
    execute homedir StringToNumber s net p = (Ok (Tool.Listed items), [])
    ∧ length items = 10 `min` length (visible (getTranscriptDir homedir (Tool.dir s)) l).
Proof.
  intros Ha Hlimit Hmb. unfold execute, action_is. rewrite Ha, Hlimit, Hmb.
  cbn [String.eqb Ascii.eqb Bool.eqb default from_option].
  rewrite listTranscripts_take. eexists. split; [reflexivity|].
  rewrite length_fmap, length_take. f_equal. apply shelf_length.
Qed.

Lemma listing_defaults_to_ten_witness :
  let s := Tool.Surroundings (Call.Setup None None None ∅ (λ _, None) None)
             (Some "/t") None (Some (Ok sample_day)) None in
  let p := Tool.Params (Some "list_transcripts") None None None None None None in
  ∃ items,
    execute "/home/u" (λ _, None) s (λ _, Call.Unreachable "offline") p
    = (Ok (Tool.Listed items), [])
    ∧ length items
      = 10 `min` length (visible (getTranscriptDir "/home/u" (Tool.dir s)) sample_day).
Proof.
  cbv zeta.
  apply (listing_defaults_to_ten "/home/u" (λ _, None) _
           (λ _, Call.Unreachable "offline") _ sample_day); reflexivity.
Defined.

(** ** The Python environment *)

Lemma find_place (present : string → bool) (places : list string) (p : string) :
  List.find present places = Some p → p ∈ places ∧ present p = true.
Proof. intros [Hin Hp]%List.find_some. split; [by apply list_elem_of_In | done]. Qed.

(** Splits the cases of a run of the setup, given as [H : run = ...]. *)
Ltac env_cases H :=
  repeat (cbv beta iota zeta in H;
          match type of H with
          | context [findVenvPython ?h ?m ?n] =>
              let E := fresh "Hpython" in destruct (findVenvPython h m n) eqn:E
          | context [findVenvPip ?h ?m ?n] =>
              let E := fresh "Hpip" in destruct (findVenvPip h m n) eqn:E
          | context [if Env.succeeded ?o then _ else _] =>
              let E := fresh "Hrun" in destruct (Env.succeeded o) eqn:E
          | context [if Env.present ?m ?n ?p then _ else _] =>
              let E := fresh "Hthere" in destruct (Env.present m n p) eqn:E
          | context [if ?b || ?c then _ else _] => progress cbn [orb] in H
          | context [if ?b then _ else _] => destruct b
          end).

Lemma place_not_rm (homedir s : string) :
  s ∈ python_places homedir ∨ s ∈ pip_places homedir → s ≠ "rm".
Proof.
  assert (Hjoin : ∀ a b, join a b ≠ "rm").
  { intros a b E. apply (f_equal (has "/")) in E. rewrite join_eq, has_app in E.
    cbn in E. by rewrite orb_true_r in E. }
  unfold python_places, pip_places.
  intros [H|H]; repeat (apply elem_of_cons in H as [-> | H]); try apply Hjoin;
    by apply elem_of_nil in H.
Qed.

(** X25: the interpreter [ensurePythonEnv] returns is one of the three
    usual places of the environment, and was there when it was looked for:
    either it was found at the start and passed the import test, which is
    then the one command that was run, or it was found, with a [pip] beside
    it, right after [python3 -m venv] had succeeded. *)
Theorem ensurePythonEnv_returns_interpreter (homedir dirname : string)
    (m : Env.machine) (python : string) :
  fst (ensurePythonEnv homedir dirname m) = Ok python →
  python ∈ python_places homedir
  ∧ ((Env.present m 0 python = true
      ∧ Env.succeeded (Env.run m 0 (import_test python)) = true
      ∧ commands (snd (ensurePythonEnv homedir dirname m)) = [import_test python])
     ∨ ∃ n pip,
         commands (snd (ensurePythonEnv homedir dirname m)) !! n
         = Some (create_venv homedir)
         ∧ Env.succeeded (Env.run m n (create_venv homedir)) = true
         ∧ Env.present m (S n) python = true
         ∧ pip ∈ pip_places homedir ∧ Env.present m (S n) pip = true).
Proof.
  remember (ensurePythonEnv homedir dirname m) as run eqn:Hdef.
  unfold ensurePythonEnv, rebuild_environment, create_environment,
    install_dependencies in Hdef.
  env_cases Hdef; subst run; cbn [fst snd]; try done; intros [= <-].
  all: repeat match goal with
       | H : findVenvPython _ _ _ = Some _ |- _ => apply find_place in H as [? ?]
       | H : findVenvPip _ _ _ = Some _ |- _ => apply find_place in H as [? ?]
       end.
  all: split; [done|].
  all: first
         [ left; by repeat split
         | match goal with
           | Hp : Env.present _ (S ?n) ?pip = true, Hin : ?pip ∈ pip_places _,
             Hr : Env.succeeded (Env.run _ ?n (create_venv _)) = true |- _ =>
               right; exists n, pip; by repeat split
           end ].
Qed.

(** X26: the setup removes nothing but the environment's own directory,
    and not before it has found the system's [python3]: every [rm] among its
    commands is [rm -rf] of the environment directory and comes after a
    [python3 --version] that succeeded. *)
Theorem venv_removed_only_with_python3 (homedir dirname : string) (m : Env.machine)
    (i : nat) (cmd : list string) :
  commands (snd (ensurePythonEnv homedir dirname m)) !! i = Some cmd →
  head cmd = Some "rm" →
  cmd = remove_venv homedir
  ∧ ∃ n, n < i
         ∧ commands (snd (ensurePythonEnv homedir dirname m)) !! n = Some python_version
         ∧ Env.succeeded (Env.run m n python_version) = true.
Proof.
  remember (ensurePythonEnv homedir dirname m) as run eqn:Hdef.
  unfold ensurePythonEnv, rebuild_environment, create_environment,
    install_dependencies in Hdef.
  env_cases Hdef; subst run; cbn [fst snd].
  all: repeat match goal with
       | H : findVenvPython _ _ _ = Some _ |- _ => apply find_place in H as [? ?]
       | H : findVenvPip _ _ _ = Some _ |- _ => apply find_place in H as [? ?]
       end.
  all: intros Hi Hrm;
       repeat (destruct i as [|i]; [cbn in Hi; injection Hi as <-|]);
       try (by cbn in Hi).
  all: try (cbn in Hrm; injection Hrm as Hrm; exfalso;
            first [ discriminate Hrm
                  | subst;
                    match goal with
                    | H : "rm" ∈ python_places _ |- _ =>
                        by apply (place_not_rm _ _ (or_introl H))
                    | H : "rm" ∈ pip_places _ |- _ =>
                        by apply (place_not_rm _ _ (or_intror H))
                    end ]).
  all: split; [done|].
  all: first [ exists 0; split; [lia|]; by split
             | exists 1; split; [lia|]; by split ].
Qed.

Lemma ensurePythonEnv_returns_interpreter_witness :
  let python := "/home/u/.openclaw/alfred-talk/venv/bin/python3" in
  python ∈ python_places "/home/u"
  ∧ ((Env.present bare_machine 0 python = true
      ∧ Env.succeeded (Env.run bare_machine 0 (import_test python)) = true
      ∧ commands (snd (ensurePythonEnv "/home/u" "/plugin" bare_machine))
        = [import_test python])
     ∨ ∃ n pip,
         commands (snd (ensurePythonEnv "/home/u" "/plugin" bare_machine)) !! n
         = Some (create_venv "/home/u")
         ∧ Env.succeeded (Env.run bare_machine n (create_venv "/home/u")) = true
         ∧ Env.present bare_machine (S n) python = true
         ∧ pip ∈ pip_places "/home/u" ∧ Env.present bare_machine (S n) pip = true).
Proof.
  cbv zeta.
  apply (ensurePythonEnv_returns_interpreter "/home/u" "/plugin" bare_machine).
  reflexivity.
Defined.

Lemma venv_removed_only_with_python3_witness :
  remove_venv "/home/u" = remove_venv "/home/u"
  ∧ ∃ n, n < 2
         ∧ commands (snd (ensurePythonEnv "/home/u" "/plugin" stale_machine)) !! n
           = Some python_version
         ∧ Env.succeeded (Env.run stale_machine n python_version) = true.
Proof.
  apply (venv_removed_only_with_python3 "/home/u" "/plugin" stale_machine 2
           (remove_venv "/home/u")); reflexivity.
Defined.

(** ** The ledger has no line twice *)

Lemma join_inj_r (t a b : string) : join t a = join t b → a = b.
Proof.
  rewrite !join_eq. induction t as [|c t IH]; cbn; [by intros [= ->]|].
  intros [= H]. by apply IH.
Qed.

Lemma NoDup_omap_inj {A B} (f : A → option B) (l : list A) :
  (∀ x y b, x ∈ l → y ∈ l → f x = Some b → f y = Some b → x = y) →
  NoDup l → NoDup (omap f l).
Proof.
  intros Hinj Hnd. induction Hnd as [|x l Hx Hnd IH]; [constructor|].
  cbn [omap list_omap]. destruct (f x) as [b|] eqn:Hfx.
  - constructor.
    + intros (y & Hy & Hfy)%list_elem_of_omap.
      assert (x = y) as -> by (eapply Hinj; eauto; [by left | by right]). done.
    + apply IH. intros y z c Hy Hz. apply Hinj; by right.
  - apply IH. intros y z c Hy Hz. apply Hinj; by right.
Qed.

Section DuplicateFree.

Context (t : string) (l : list (string * bucket)) (Htidy : tidy t l).

Lemma visible_NoDup : NoDup (visible t l).
Proof.
  unfold visible. destruct Htidy as (_ & [Hnd _] & _).
  apply NoDup_bind.
  - intros d d' x _ _ Hx Hx'. unfold entries_of in Hx, Hx'.
    destruct (Str.startsWith "." d); [by apply elem_of_nil in Hx|].
    destruct (Str.startsWith "." d'); [by apply elem_of_nil in Hx'|].
    destruct (readdir l d); [|by apply elem_of_nil in Hx].
    destruct (readdir l d'); [|by apply elem_of_nil in Hx'].
    apply list_elem_of_fmap in Hx as (f & -> & _).
    apply list_elem_of_fmap in Hx' as (f' & [= E _] & _). by apply join_inj_r in E.
  - intros d _. unfold entries_of. destruct (Str.startsWith "." d); [constructor|].
    destruct (readdir l d) as [entries|] eqn:Hread; [|constructor].
    destruct (tidy_files t l Htidy d entries (readdir_elem _ _ _ Hread)) as [Hfiles _].
    apply NoDup_fmap_2; [by intros f f' [= ->]|].
    apply NoDup_filter. by apply NoDup_fmap_1 in Hfiles.
  - rewrite (proj2 (dateDirs_descending l)). done.
Qed.

Lemma marks_of_NoDup (cfg : config) (processed : gset string) :
  NoDup (marks_of cfg processed (visible t l)).
Proof.
  apply NoDup_omap_inj; [|apply visible_NoDup].
  intros x y p Hx Hy Hfx Hfy. apply (visible_inj t l Htidy); [done..|].
  destruct (decide (pending processed x)); [|done].
  destruct (decide (pending processed y)); [|done].
  destruct (runs_through _); [|done]. destruct (runs_through _); [|done].
  congruence.
Qed.

End DuplicateFree.

(** X27: a ledger without a line twice stays so. After a tick over a tidy
    mailbox, the ledger holds the paths it held, followed by the paths
    marked during the tick, no path twice; the count of processed transcripts
    that the status reports has grown by the number of marks. *)
Theorem ledger_stays_duplicate_free (homedir : string)
    (StringToNumber : string → option Z) (api : host) (cfg : config) (t : string)
    (l : list (string * bucket)) (w : world) (ps : list string) :
  tidy t l → holds w ps → NoDup ps →
  let w' := snd (tick homedir StringToNumber api cfg t (Some (Ok l)) w) in
  let added := marked (news w w') in
  holds w' (ps ++ added)
  ∧ NoDup (ps ++ added)
  ∧ size (loadProcessed (ledger w')) = length ps + length added.
Proof.
  intros Htidy Hholds Hnd. cbv zeta.
  destruct (tick_tidy homedir StringToNumber cfg t l Htidy api w ps Hholds)
    as (w' & delta & -> & _ & Hs & Hholds'). cbn [snd].
  destruct Hs as (Ht & _ & Hm & _). rewrite (news_app _ _ _ Ht).
  assert (Hnd' : NoDup (ps ++ marked delta)).
  { apply NoDup_app. split; [done|]. split.
    - intros p Hp. rewrite Hm.
      intros (x & _ & Hpend & _ & ->)%elem_marks_of. apply Hpend.
      by apply elem_of_list_to_set.
    - rewrite Hm. by apply marks_of_NoDup. }
  split; [done|]. split; [done|].
  rewrite (loadProcessed_holds _ _ Hholds'), size_list_to_set by done.
  apply length_app.
Qed.

Lemma ledger_stays_duplicate_free_witness :
  let cfg := Config {[ "+34612345678" := "Mom" ]} (Some "~/vault/inbox") None in
  let w' := snd (tick "/home/u" (λ _, None) all_up cfg "/t" (Some (Ok sample_day))
                   fresh) in
  let added := marked (news fresh w') in
  holds w' ([] ++ added)
  ∧ NoDup ([] ++ added)
  ∧ size (loadProcessed (ledger w')) = length (@nil string) + length added.
Proof.
  cbv zeta.
  apply (ledger_stays_duplicate_free "/home/u" (λ _, None) all_up _ "/t" sample_day
           fresh []).
  - apply sample_day_tidy.
  - apply holds_fresh.
  - constructor.
Defined.

(** ** The dialogue of one transcript *)



